(** * emote-resize: the conversion pipeline of [main.go]

    A shallow embedding of the image-to-emote-bundle converter.  The program
    is one Go file in two revisions (a baseline that accepts JPEG, PNG and GIF
    and an extended one that also accepts WebP and WebM); both share the size
    catalog and the body of [processImage] and differ in the extension
    allow-list of [selectFile] and in the decoder [switch].

    Go strings are byte strings and are modelled by [string]; file contents
    are [list byte].  Path functions are those of [path/filepath] on Unix
    (separator [/], no volume names).  The operating system is a finite map
    from cleaned path names to nodes; calls that touch it are written in a
    small state-and-error monad. *)

From Stdlib Require Import ZArith QArith Qround Qminmax Ascii String List Lia DecimalString.
From Stdlib.Strings Require Import Byte.
From stdpp Require Import gmap strings list.

Local Open Scope Z_scope.

(** ** Go values: errors and results *)

Inductive errno := ENOENT | ENOTDIR | EISDIR | EACCES | EEXIST.

(** [error] values the pipeline can see.  [ErrorText] is an error made of a
    message alone, [Wrapped] is [fmt.Errorf(msg + "%w", err)]. *)
Inductive error :=
| PathError (op : string) (path : string) (e : errno)
| ErrFormat
| FormatError (msg : string)
| ErrUnsupportedFormat
| ErrorText (msg : string)
| Wrapped (msg : string) (cause : error).

Inductive result (A : Type) :=
| Ok (a : A)
| Err (e : error).
Arguments Ok {A} a.
Arguments Err {A} e.

Definition is_ok {A} (r : result A) : bool :=
  match r with Ok _ => true | Err _ => false end.

(** ** Byte strings *)

Module GoString.

Abbreviation chars := list_ascii_of_string.
Abbreviation str := string_of_list_ascii.

Definition isUpper (c : ascii) : bool :=
  (65 <=? nat_of_ascii c)%nat && (nat_of_ascii c <=? 90)%nat.

Definition isASCII (c : ascii) : bool := (nat_of_ascii c <? 128)%nat.

Definition lowerByte (c : ascii) : ascii :=
  if isUpper c then ascii_of_nat (nat_of_ascii c + 32) else c.

(** [strings.HasSuffix] and [strings.TrimSuffix], on reversed byte lists. *)
Fixpoint stripPrefix (p l : list ascii) : option (list ascii) :=
  match p, l with
  | [], _ => Some l
  | a :: p', b :: l' => if decide (a = b) then stripPrefix p' l' else None
  | _ :: _, [] => None
  end.

Definition TrimSuffix (s suffix : string) : string :=
  match stripPrefix (rev (chars suffix)) (rev (chars s)) with
  | Some r => str (rev r)
  | None => s
  end.

Definition TrimPrefix (s prefix : string) : string :=
  match stripPrefix (chars prefix) (chars s) with
  | Some r => str r
  | None => s
  end.

(** [strings.Join(elems, sep)]. *)
Fixpoint Join (elems : list string) (sep : string) : string :=
  match elems with
  | [] => ""
  | [e] => e
  | e :: rest => e +:+ sep +:+ Join rest sep
  end.

(** The verb [%d] of [fmt.Sprintf] on an [int]. *)
Definition itoa (n : Z) : string := NilZero.string_of_int (Z.to_int n).

End GoString.

(** ** [path/filepath] (Unix) *)

Module filepath.
Import GoString.

Definition Separator : ascii := "/"%char.
Definition IsPathSeparator (c : ascii) : bool := bool_decide (c = Separator).

(** The path split at every separator: ["a//b"] has the elements
    ["a"], [""] and ["b"]. *)
Fixpoint elements (path : list ascii) : list (list ascii) :=
  match path with
  | [] => [[]]
  | c :: rest =>
      if IsPathSeparator c then [] :: elements rest
      else match elements rest with
           | e :: es => (c :: e) :: es
           | [] => [[c]]
           end
  end.

(** [Ext]: scan from the last byte back to the last separator; the
    extension starts at the first dot met. *)
Fixpoint extScan (back : list ascii) (suffix : list ascii) : list ascii :=
  match back with
  | [] => []
  | c :: rest =>
      if IsPathSeparator c then []
      else if decide (c = "."%char) then c :: suffix
      else extScan rest (c :: suffix)
  end.

Definition Ext (path : string) : string :=
  str (extScan (rev (chars path)) []).

Fixpoint dropSeparators (l : list ascii) : list ascii :=
  match l with
  | c :: rest => if IsPathSeparator c then dropSeparators rest else l
  | [] => []
  end.

Fixpoint dropElement (l : list ascii) : list ascii :=
  match l with
  | c :: rest => if IsPathSeparator c then l else dropElement rest
  | [] => []
  end.

Fixpoint takeElement (l : list ascii) : list ascii :=
  match l with
  | c :: rest => if IsPathSeparator c then [] else c :: takeElement rest
  | [] => []
  end.

(** [Base]: the last element, trailing separators removed first. *)
Definition Base (path : string) : string :=
  if decide (path = "") then "."
  else
    let stripped := dropSeparators (rev (chars path)) in
    match stripped with
    | [] => "/"
    | _ => str (rev (takeElement stripped))
    end.

(** One step of [Clean]'s loop on the element [elem]; [out] is the output
    buffer as a stack of elements, last written first. *)
Definition cleanStep (rooted : bool) (out : list (list ascii)) (elem : list ascii)
  : list (list ascii) :=
  if decide (elem = []) then out
  else if decide (elem = chars ".") then out
  else if decide (elem = chars "..") then
    match out with
    | top :: below =>
        if decide (top = chars "..") then (if rooted then out else elem :: out)
        else below
    | [] => if rooted then [] else [elem]
    end
  else elem :: out.

Fixpoint joinElements (es : list (list ascii)) : list ascii :=
  match es with
  | [] => []
  | [e] => e
  | e :: rest => e ++ Separator :: joinElements rest
  end.

Definition render (rooted : bool) (out : list (list ascii)) : string :=
  if rooted then str (Separator :: joinElements (rev out))
  else match out with
       | [] => "."
       | _ => str (joinElements (rev out))
       end.

Definition isRooted (path : list ascii) : bool :=
  match path with
  | c :: _ => IsPathSeparator c
  | [] => false
  end.

Definition cleanStack (path : list ascii) : list (list ascii) :=
  fold_left (cleanStep (isRooted path)) (elements path) [].

Definition Clean (path : string) : string :=
  if decide (path = "") then "."
  else render (isRooted (chars path)) (cleanStack (chars path)).

(** [Dir]: everything up to and including the last separator, cleaned. *)
Definition Dir (path : string) : string :=
  Clean (str (rev (dropElement (rev (chars path))))).

(** [Join]: the first non-empty element starts the joined path. *)
Fixpoint Join (elem : list string) : string :=
  match elem with
  | [] => ""
  | e :: rest =>
      if decide (e = "") then Join rest
      else Clean (GoString.Join elem (String Separator ""))
  end.

End filepath.

(** ** The size catalog ([main.go], [emoteSizes]) *)

(** [EmoteSize] represents a target emote size with platform and dimensions. *)
Record EmoteSize := mkEmoteSize {
  Platform : string;
  Name : string;
  Width : Z;
  Height : Z
}.

(** The catalog is the same slice literal in both revisions. *)
Definition emoteSizes : list EmoteSize :=
  [ (* Discord emote sizes *)
    mkEmoteSize "Discord" "Small" 28 28;
    mkEmoteSize "Discord" "Medium" 32 32;
    mkEmoteSize "Discord" "Large" 48 48;
    mkEmoteSize "Discord" "Animated" 128 128;
    (* Twitch emote sizes *)
    mkEmoteSize "Twitch" "1.0" 28 28;
    mkEmoteSize "Twitch" "2.0" 56 56;
    mkEmoteSize "Twitch" "3.0" 112 112;
    (* 7TV emote sizes *)
    mkEmoteSize "7TV" "1x" 32 32;
    mkEmoteSize "7TV" "2x" 64 64;
    mkEmoteSize "7TV" "3x" 96 96;
    mkEmoteSize "7TV" "4x" 128 128 ].

(** The two revisions of [main.go]. *)
Inductive Revision := Baseline | Extended.

(** ** Rasters *)

Record Color := mkColor { R : N; G : N; B : N; A : N }.

(** An [image.Image] with bounds [(0,0)-(Dx,Dy)]. *)
Record Image := mkImage {
  Dx : Z;
  Dy : Z;
  At : Z -> Z -> Color
}.

Definition emptyImage : Image := mkImage 0 0 (fun _ _ => mkColor 0 0 0 0).

(** [imaging.Anchor] and [imaging.ResampleFilter]: the values the library offers. *)
Inductive Anchor :=
  Center | TopLeft | Top | TopRight | Left | Right | BottomLeft | Bottom | BottomRight.

Inductive ResampleFilter :=
  NearestNeighbor | Box | Linear | CatmullRom | Lanczos.

(** Output formats of [imaging.Save]. *)
Inductive Format := JPEG | PNG | GIF | TIFF | BMP.

(** ** What the program takes from its libraries

    The codecs, the resampling kernel and the Unicode case tables are not part
    of [main.go]; the pipeline is parametric in them. *)
Class Libraries := {
  (** [strings.Map(unicode.ToLower, s)], used by [strings.ToLower] on strings
      with a byte outside ASCII. *)
  unicodeToLower : string -> string;
  (** [jpeg.Decode], [png.Decode], [webp.Decode], [bmp.Decode] and
      [tiff.Decode] on the bytes read. *)
  jpeg_Decode : list byte -> result Image;
  png_Decode : list byte -> result Image;
  webp_Decode : list byte -> result Image;
  bmp_Decode : list byte -> result Image;
  tiff_Decode : list byte -> result Image;
  (** What the decoder of [image/gif] reads from a file: an error before the
      first block, or the images of the image descriptors it reads, one
      after the other, and how the blocks end, with the trailer ([None]) or
      with an error. *)
  gif_frames : list byte -> result (list Image * option error);
  (** The colour the filter gives the pixel [(x, y)] of the source resized to
      [w] by [h]. *)
  resample : ResampleFilter -> Image -> Z -> Z -> Z -> Z -> Color;
  (** [imaging.Encode] into a byte string. *)
  imaging_Encode : Format -> Image -> result (list byte)
}.

(** [strings.ToLower]: byte-wise on ASCII strings, through the Unicode tables
    otherwise. *)
Definition ToLower `{Libraries} (s : string) : string :=
  if forallb GoString.isASCII (GoString.chars s)
  then GoString.str (map GoString.lowerByte (GoString.chars s))
  else unicodeToLower s.

(** ** [image/gif]: [Decode] and [DecodeAll]

    Both run the loop of [decode] over the blocks of the file.  With
    [keepAllFrames] the loop reads to the trailer; without, it returns as
    soon as one image is read, so that nothing after the first frame is
    looked at.  A file that ends with the trailer and holds no image is
    refused. *)
Definition gif_decode `{Libraries} (keepAllFrames : bool) (data : list byte)
  : result (list Image) :=
  match gif_frames data with
  | Err e => Err e
  | Ok (frames, ending) =>
      if keepAllFrames then
        match ending, frames with
        | Some e, _ => Err e
        | None, [] => Err (ErrorText "gif: missing image data")
        | None, _ => Ok frames
        end
      else
        match frames, ending with
        | frame :: _, _ => Ok [frame]
        | [], Some e => Err e
        | [], None => Err (ErrorText "gif: missing image data")
        end
  end.

(** [gif.Decode]: [d.image[0]] after [decode] without [keepAllFrames] (which
    returns no empty list). *)
Definition gif_Decode `{Libraries} (data : list byte) : result Image :=
  match gif_decode false data with
  | Ok (frame :: _) => Ok frame
  | Ok [] => Err (ErrorText "gif: missing image data")
  | Err e => Err e
  end.

(** [gif.DecodeAll]: all the images, after [decode] with [keepAllFrames]. *)
Definition gif_DecodeAll `{Libraries} (data : list byte) : result (list Image) :=
  gif_decode true data.

(** ** [image.Decode]: the format registry and content sniffing *)

Record format := mkFormat {
  fname : string;
  magic : list byte;
  decode : list byte -> result Image
}.

(** [match] of [image/format.go]: same length, and every byte equal unless
    the magic has [?] there. *)
Fixpoint matchMagic (magic b : list byte) : bool :=
  match magic, b with
  | [], [] => true
  | m :: magic', c :: b' =>
      (Byte.eqb m c || Byte.eqb m x3f) && matchMagic magic' b'
  | _, _ => false
  end.

(** [sniff]: the first registered format whose magic matches the bytes peeked. *)
Definition sniff (formats : list format) (data : list byte) : option format :=
  find (fun f => matchMagic (magic f) (firstn (length (magic f)) data)) formats.

Definition image_Decode (formats : list format) (data : list byte) : result Image :=
  match sniff formats data with
  | None => Err ErrFormat
  | Some f => decode f data
  end.

Definition gifMagic : list byte :=
  [x47; x49; x46; x38; x3f; x61].
Definition jpegMagic : list byte := [xff; xd8].
Definition pngMagic : list byte :=
  [x89; x50; x4e; x47; x0d; x0a; x1a; x0a].
Definition webpMagic : list byte :=
  [x52; x49; x46; x46; x3f; x3f; x3f; x3f;
   x57; x45; x42; x50; x56; x50; x38].

(** [BM????\x00\x00\x00\x00], and the two headers of TIFF: [II\x2A\x00]
    (little endian) and [MM\x00\x2A] (big endian). *)
Definition bmpMagic : list byte :=
  [x42; x4d; x3f; x3f; x3f; x3f; x00; x00; x00; x00].
Definition tiffLeHeader : list byte := [x49; x49; x2a; x00].
Definition tiffBeHeader : list byte := [x4d; x4d; x00; x2a].

(** The formats registered in the program: those of the image packages
    [main.go] imports ([image/gif], [image/jpeg], [image/png],
    [golang.org/x/image/webp]) and those of the packages
    [github.com/disintegration/imaging] imports for its own codecs
    ([golang.org/x/image/bmp] and [golang.org/x/image/tiff], which
    registers its decoder once for each header).  The order is that of
    the initialisation of the packages; no two magics match the same
    bytes, so it does not matter. *)
Definition registeredFormats `{Libraries} : list format :=
  [ mkFormat "gif" gifMagic gif_Decode;
    mkFormat "jpeg" jpegMagic jpeg_Decode;
    mkFormat "png" pngMagic png_Decode;
    mkFormat "webp" webpMagic webp_Decode;
    mkFormat "bmp" bmpMagic bmp_Decode;
    mkFormat "tiff" tiffLeHeader tiff_Decode;
    mkFormat "tiff" tiffBeHeader tiff_Decode ].

(** The [switch ext] of [processImage]. *)
Inductive Decoder := JpegDecode | PngDecode | GifDecode | WebpDecode | ImageDecode.

Definition selectDecoder (rev : Revision) (ext : string) : Decoder :=
  match rev with
  | Baseline =>
      if decide (ext = ".jpg" \/ ext = ".jpeg") then JpegDecode
      else if decide (ext = ".png") then PngDecode
      else if decide (ext = ".gif") then GifDecode
      else ImageDecode
  | Extended =>
      if decide (ext = ".jpg" \/ ext = ".jpeg") then JpegDecode
      else if decide (ext = ".png") then PngDecode
      else if decide (ext = ".gif") then GifDecode
      else if decide (ext = ".webp") then WebpDecode
      else if decide (ext = ".webm") then
        (* WebM is video format, but we'll try to decode as image *)
        ImageDecode
      else ImageDecode
  end.

Definition runDecoder `{Libraries} (d : Decoder) (data : list byte) : result Image :=
  match d with
  | JpegDecode => jpeg_Decode data
  | PngDecode => png_Decode data
  | GifDecode => gif_Decode data
  | WebpDecode => webp_Decode data
  | ImageDecode => image_Decode registeredFormats data
  end.

(** ** The Resize-Fill transform

    [imaging.Fill] and the functions under it belong to the library
    [github.com/disintegration/imaging], whose code is not part of the
    repository.  They are modelled from section 4.3 of the specification:
    scale the source uniformly by [max(targetW/srcW, targetH/srcH)] so that
    it covers the target rectangle, resampling with the given filter, then
    crop the scaled image to the target dimensions around the anchor. *)

(** Modelled from the spec: [imaging.Resize] to both dimensions given, the
    colours being those of the resampling filter. *)
Definition Resize `{Libraries} (img : Image) (width height : Z) (filter : ResampleFilter)
  : Image :=
  mkImage width height (resample filter img width height).

(** Modelled from the spec: [imaging.Crop], the part of the image inside the
    rectangle [(x0,y0)-(x1,y1)], which is first intersected with the bounds. *)
Definition Crop (img : Image) (x0 y0 x1 y1 : Z) : Image :=
  let x0' := Z.max 0 x0 in
  let y0' := Z.max 0 y0 in
  let x1' := Z.min (Dx img) x1 in
  let y1' := Z.min (Dy img) y1 in
  if (x1' <=? x0') || (y1' <=? y0') then emptyImage
  else mkImage (x1' - x0') (y1' - y0') (fun x y => At img (x + x0') (y + y0')).

(** Modelled from the spec: where a [w] by [h] window sits in an image for
    each anchor; [Center] leaves the same overhang on both sides. *)
Definition anchorPt (img : Image) (w h : Z) (anchor : Anchor) : Z * Z :=
  match anchor with
  | TopLeft => (0, 0)
  | Top => ((Dx img - w) ÷ 2, 0)
  | TopRight => (Dx img - w, 0)
  | Left => (0, (Dy img - h) ÷ 2)
  | Right => (Dx img - w, (Dy img - h) ÷ 2)
  | BottomLeft => (0, Dy img - h)
  | Bottom => ((Dx img - w) ÷ 2, Dy img - h)
  | BottomRight => (Dx img - w, Dy img - h)
  | Center => ((Dx img - w) ÷ 2, (Dy img - h) ÷ 2)
  end.

(** Modelled from the spec: [imaging.CropAnchor], the crop of the window at
    the anchor. *)
Definition CropAnchor (img : Image) (width height : Z) (anchor : Anchor) : Image :=
  let '(x, y) := anchorPt img width height anchor in
  Crop img x y (x + width) (y + height).

(** Modelled from the spec: the factor that makes the source cover the
    target, [max(targetW/srcW, targetH/srcH)]. *)
Definition scaleFactor (srcW srcH targetW targetH : Z) : Q :=
  Qmax (targetW # Z.to_pos srcW) (targetH # Z.to_pos srcH).

(** Rounding to the nearest integer, halves up. *)
Definition roundQ (q : Q) : Z := Qfloor (q + (1 # 2)).

(** Modelled from the spec: the dimensions of the source scaled by the
    factor, rounded. *)
Definition scaledSize (srcW srcH targetW targetH : Z) : Z * Z :=
  let f := scaleFactor srcW srcH targetW targetH in
  (roundQ (inject_Z srcW * f), roundQ (inject_Z srcH * f)).

(** Modelled from the spec: [imaging.Fill], the source scaled to cover the
    target and cropped to it around the anchor.  Outside the inputs the
    specification admits (a dimension that is not positive) the result is the
    empty image, as the library documents. *)
Definition Fill `{Libraries} (img : Image) (width height : Z)
    (anchor : Anchor) (filter : ResampleFilter) : Image :=
  if (width <=? 0) || (height <=? 0) then emptyImage
  else if (Dx img <=? 0) || (Dy img <=? 0) then emptyImage
  else
    let '(scaledW, scaledH) := scaledSize (Dx img) (Dy img) width height in
    CropAnchor (Resize img scaledW scaledH filter) width height anchor.

(** ** The file system *)

Inductive node :=
| RegularFile (data : list byte)
| Directory.

#[global] Instance byte_eq_dec : EqDecision byte.
Proof.
  intros x y. destruct (Byte.eqb x y) eqn:E.
  - left. now apply byte_dec_bl.
  - right. now apply Byte.eqb_false.
Defined.

#[global] Instance node_eq_dec : EqDecision node.
Proof. solve_decision. Defined.

(** Calls that change the file system, in the order they were made. *)
Inductive event :=
| EvMkdir (path : string)
| EvCreate (path : string).

(** [fs] maps cleaned path names to nodes (path names are resolved
    lexically; the working directory and the root exist and are not listed).
    [denied] are the names at which the system refuses to create anything
    (permissions, quota). *)
Record World := mkWorld {
  fs : gmap string node;
  denied : gset string;
  trace : list event
}.

Definition IO (A : Type) : Type := World -> World * result A.

Definition ret {A} (a : A) : IO A := fun w => (w, Ok a).
Definition bind {A B} (m : IO A) (k : A -> IO B) : IO B :=
  fun w =>
    match m w with
    | (w', Ok a) => k a w'
    | (w', Err e) => (w', Err e)
    end.
Definition lift {A} (r : result A) : IO A := fun w => (w, r).

(** [if err != nil { return fmt.Errorf(msg + "%w", err) }] around a call. *)
Definition orWrap {A} (msg : string) (m : IO A) : IO A :=
  fun w =>
    match m w with
    | (w', Ok a) => (w', Ok a)
    | (w', Err e) => (w', Err (Wrapped msg e))
    end.

Notation "'let*' x ':=' c1 'in' c2" := (bind c1 (fun x => c2))
  (at level 10, x name, c1 at level 100, c2 at level 200).

Module os.
Import GoString filepath.

(** The node a path name resolves to. *)
Definition Stat (name : string) (w : World) : option node :=
  if decide (name = "") then None else fs w !! Clean name.

(** A name whose last element is empty, [.] or [..] can only be a directory. *)
Definition namesDirectory (name : string) : bool :=
  let e := List.last (elements (chars name)) [] in
  bool_decide (e = [] \/ e = chars "." \/ e = chars "..").

(** An open file: its name and, unless it is a directory, its bytes. *)
Record File := mkFile {
  fileName : string;
  contents : option (list byte)
}.

Definition Open (name : string) : IO File :=
  fun w =>
    match Stat name w with
    | None => (w, Err (PathError "open" name ENOENT))
    | Some Directory => (w, Ok (mkFile name None))
    | Some (RegularFile data) =>
        if namesDirectory name then (w, Err (PathError "open" name ENOTDIR))
        else (w, Ok (mkFile name (Some data)))
    end.

(** The parent [MkdirAll] recurses on: trailing separators and the last
    element are dropped, and the separator before it; empty when there is
    none. *)
Definition parentOf (path : string) : string :=
  str (rev (List.tl (dropElement (dropSeparators (rev (chars path)))))).

Definition parentExists (path : string) (w : World) : bool :=
  let parent := parentOf path in
  bool_decide (parent = "") ||
  match Stat parent w with
  | Some Directory => true
  | _ => false
  end.

Definition Mkdir (path : string) : IO unit :=
  fun w =>
    if decide (path = "") then (w, Err (PathError "mkdir" path ENOENT))
    else
      let key := Clean path in
      match fs w !! key with
      | Some _ => (w, Err (PathError "mkdir" path EEXIST))
      | None =>
          if negb (parentExists path w) then (w, Err (PathError "mkdir" path ENOENT))
          else if decide (key ∈ denied w) then (w, Err (PathError "mkdir" path EACCES))
          else (mkWorld (<[key := Directory]> (fs w)) (denied w)
                        (trace w ++ [EvMkdir key]), Ok tt)
      end.

(** The parents of a path, nearest first, as [MkdirAll] reaches them;
    [back] is the path read from its last byte. *)
Fixpoint parentsOf (inElement : bool) (back : list ascii) : list (list ascii) :=
  match back with
  | [] => []
  | c :: rest =>
      if IsPathSeparator c then
        if inElement then
          match rest with
          | [] => []
          | _ => rest :: parentsOf false rest
          end
        else parentsOf false rest
      else parentsOf true rest
  end.

(** [MkdirAll] on a path followed by its parents: a directory that exists
    ends the recursion with success, a file with [ENOTDIR]; otherwise the
    parent is made first and then the path itself. *)
Fixpoint mkdirChain (chain : list string) : IO unit :=
  match chain with
  | [] => ret tt
  | path :: parents =>
      fun w =>
        match Stat path w with
        | Some Directory => (w, Ok tt)
        | Some (RegularFile _) => (w, Err (PathError "mkdir" path ENOTDIR))
        | None =>
            match mkdirChain parents w with
            | (w1, Err e) => (w1, Err e)
            | (w1, Ok _) =>
                match Mkdir path w1 with
                | (w2, Ok _) => (w2, Ok tt)
                | (w2, Err e) =>
                    (* Handle arguments like "foo/." by double-checking
                       that directory doesn't exist. *)
                    match Stat path w2 with
                    | Some Directory => (w2, Ok tt)
                    | _ => (w2, Err e)
                    end
                end
            end
        end
  end.

Definition MkdirAll (path : string) : IO unit :=
  mkdirChain (path :: map (fun b => str (rev b)) (parentsOf false (rev (chars path)))).

(** [Create]: the file is created or truncated; the key of the open file
    is returned. *)
Definition Create (name : string) : IO string :=
  fun w =>
    if decide (name = "") then (w, Err (PathError "open" name ENOENT))
    else if namesDirectory name then (w, Err (PathError "open" name EISDIR))
    else
      let key := Clean name in
      match fs w !! key with
      | Some Directory => (w, Err (PathError "open" name EISDIR))
      | _ =>
          if negb (parentExists name w) then (w, Err (PathError "open" name ENOENT))
          else if decide (key ∈ denied w) then (w, Err (PathError "open" name EACCES))
          else (mkWorld (<[key := RegularFile []]> (fs w)) (denied w)
                        (trace w ++ [EvCreate key]), Ok key)
      end.

(** Writing the whole content of an open file. *)
Definition Write (key : string) (data : list byte) : IO unit :=
  fun w => (mkWorld (<[key := RegularFile data]> (fs w)) (denied w) (trace w), Ok tt).

End os.

(** ** [imaging.Save] *)

Module imaging.
Import GoString filepath.

(** The extensions [imaging] knows how to write. *)
Definition formatExts : gmap string Format :=
  {[ "jpg" := JPEG; "jpeg" := JPEG; "png" := PNG; "gif" := GIF;
     "tif" := TIFF; "tiff" := TIFF; "bmp" := BMP ]}.

Definition FormatFromExtension `{Libraries} (ext : string) : result Format :=
  match formatExts !! ToLower (TrimPrefix ext ".") with
  | Some f => Ok f
  | None => Err ErrUnsupportedFormat
  end.

Definition FormatFromFilename `{Libraries} (filename : string) : result Format :=
  FormatFromExtension (Ext filename).

(** [Save]: the format follows from the file name; the file is created,
    the image encoded into it, and the file closed. *)
Definition Save `{Libraries} (img : Image) (filename : string) : IO unit :=
  let* f := lift (FormatFromFilename filename) in
  let* file := os.Create filename in
  let* data := lift (imaging_Encode f img) in
  os.Write file data.

End imaging.

(** ** The application ([main.go]) *)

Inductive Dialog :=
| ErrorDialog (err : error)
| InformationDialog (title message : string).

(** The part of [App] the pipeline reads and writes: the selected file, the
    text of the status label, whether the convert button is enabled, and the
    dialogs shown so far. *)
Record App := mkApp {
  selectedFile : string;
  statusLabel : string;
  convertBtn : bool;
  dialogs : list Dialog
}.

Definition errnoString (e : errno) : string :=
  match e with
  | ENOENT => "no such file or directory"
  | ENOTDIR => "not a directory"
  | EISDIR => "is a directory"
  | EACCES => "permission denied"
  | EEXIST => "file exists"
  end.

(** [err.Error()]. *)
Fixpoint errorString (err : error) : string :=
  match err with
  | PathError op path e => op +:+ " " +:+ path +:+ ": " +:+ errnoString e
  | ErrFormat => "image: unknown format"
  | FormatError msg => msg
  | ErrUnsupportedFormat => "imaging: unsupported image format"
  | ErrorText msg => msg
  | Wrapped msg cause => msg +:+ errorString cause
  end.

Definition showError (title : string) (err : error) (a : App) : App :=
  mkApp (selectedFile a) ("Error: " +:+ errorString err) (convertBtn a)
        (dialogs a ++ [ErrorDialog err]).

(** The allow-list of [selectFile], a [map[string]bool] literal. *)
Definition validExts (rev : Revision) : gmap string bool :=
  match rev with
  | Baseline =>
      {[ ".jpg" := true; ".jpeg" := true; ".png" := true; ".gif" := true ]}
  | Extended =>
      {[ ".jpg" := true; ".jpeg" := true; ".png" := true; ".gif" := true;
         ".webp" := true; ".webm" := true ]}
  end.

(** The extension check of [selectFile]: [validExts[ext]], the zero value
    [false] for a missing key. *)
Definition validateSelection `{Libraries} (rev : Revision) (path : string) : bool :=
  let ext := ToLower (filepath.Ext path) in
  default false (validExts rev !! ext).

(** What the file dialog hands to the callback of [selectFile]. *)
Inductive FileOpenResult :=
| DialogError (err : error)
| DialogCancelled
| DialogFile (path : string).

(** [loadPreview] (baseline revision): the status label changes when the
    file cannot be loaded. *)
Definition loadPreview (w : World) (a : App) : App :=
  if decide (selectedFile a = "") then a
  else
    match os.Open (selectedFile a) w with
    | (_, Ok (os.mkFile _ (Some _))) => a
    | _ =>
        mkApp (selectedFile a)
              ("Selected file (preview failed): " +:+ filepath.Base (selectedFile a))
              (convertBtn a) (dialogs a)
    end.

Definition selectFile `{Libraries} (rev : Revision) (res : FileOpenResult) (w : World)
    (a : App) : App :=
  match res with
  | DialogError err => showError "Error opening file" err a
  | DialogCancelled => a
  | DialogFile path =>
      if negb (validateSelection rev path) then
        showError "Invalid file type"
          (ErrorText
             match rev with
             | Baseline => "please select a JPEG, PNG, or GIF file"
             | Extended => "please select a JPEG, PNG, GIF, WebP, or WebM file"
             end) a
      else
        let a1 := mkApp path ("Selected: " +:+ filepath.Base path) (convertBtn a) (dialogs a) in
        let a2 := match rev with Baseline => loadPreview w a1 | Extended => a1 end in
        mkApp (selectedFile a2) (statusLabel a2) true (dialogs a2)
  end.

(** The decode step of [processImage] on the open file. *)
Definition decodeFile `{Libraries} (d : Decoder) (file : os.File) : result Image :=
  match os.contents file with
  | Some data => runDecoder d data
  | None =>
      match d with
      | ImageDecode => Err ErrFormat
      | _ => Err (PathError "read" (os.fileName file) EISDIR)
      end
  end.

Definition outputFilename (baseFilename : string) (size : EmoteSize) : string :=
  baseFilename +:+ "-" +:+ Platform size +:+ "-" +:+ Name size +:+ "-" +:+
  GoString.itoa (Width size) +:+ "x" +:+ GoString.itoa (Height size) +:+ ".png".

(** The loop [for _, size := range emoteSizes] of [processImage]. *)
Fixpoint convertSizes `{Libraries} (img : Image) (baseFilename bundleDir : string)
    (sizes : list EmoteSize) : IO unit :=
  match sizes with
  | [] => ret tt
  | size :: rest =>
      (* Resize image maintaining aspect ratio, then crop to exact size *)
      let resized := Fill img (Width size) (Height size) Center Lanczos in
      (* Create filename *)
      let filename := outputFilename baseFilename size in
      let outputPath := filepath.Join [bundleDir; filename] in
      (* Save as PNG to preserve transparency *)
      let* _ := orWrap ("failed to save " +:+ filename +:+ ": ")
                       (imaging.Save resized outputPath) in
      convertSizes img baseFilename bundleDir rest
  end.

(** [processImage]; [a.selectedFile] is the only field it reads. *)
Definition processImage `{Libraries} (rev : Revision) (a : App) : IO unit :=
  (* Open and decode the image *)
  let* file := orWrap "failed to open file: " (os.Open (selectedFile a)) in
  (* Decode based on file extension *)
  let ext := ToLower (filepath.Ext (selectedFile a)) in
  let* img := orWrap "failed to decode image: "
                     (lift (decodeFile (selectDecoder rev ext) file)) in
  (* Get base filename without extension *)
  let baseFilename :=
    GoString.TrimSuffix (filepath.Base (selectedFile a)) (filepath.Ext (selectedFile a)) in
  let outputDir := filepath.Dir (selectedFile a) in
  (* Create output directory for the bundle *)
  let bundleDir := filepath.Join [outputDir; baseFilename +:+ "_emote_bundle"] in
  let* _ := orWrap "failed to create output directory: " (os.MkdirAll bundleDir) in
  (* Convert to all sizes *)
  convertSizes img baseFilename bundleDir emoteSizes.

(** [convertAndSave]; the goroutine is run to its end. *)
Definition convertAndSave `{Libraries} (rev : Revision) (a : App) (w : World)
  : App * World :=
  if decide (selectedFile a = "") then (a, w)
  else
    let a1 := mkApp (selectedFile a) "Converting images..." false (dialogs a) in
    match processImage rev a1 w with
    | (w', Err err) =>
        let a2 := showError "Conversion failed" err a1 in
        (mkApp (selectedFile a2) (statusLabel a2) true (dialogs a2), w')
    | (w', Ok _) =>
        (mkApp (selectedFile a1) "Conversion completed successfully!" true
               (dialogs a1 ++
                [InformationDialog "Success"
                   "All emote sizes have been created and saved!"]), w')
    end.

(** The [App] that [main] builds before the window is shown: nothing is
    selected, the label reads [No file selected] and the convert button
    was disabled. *)
Definition converter : App := mkApp "" "No file selected" false [].

(** What the user can do in the window [setupUI] lays out: [selectBtn]
    opens the file dialog, which then calls the callback of [selectFile]
    with its result, and [convertBtn] calls [convertAndSave]. *)
Inductive Action :=
| SelectTapped (res : FileOpenResult)
| ConvertTapped.

(** The handlers [setupUI] attaches to the two buttons.  (A disabled button
    does not call its handler; the handler is run here whatever the state
    of the button, which covers that case too.) *)
Definition setupUI `{Libraries} (rev : Revision) (s : App * World) (act : Action)
  : App * World :=
  match act with
  | SelectTapped res => (selectFile rev res (snd s) (fst s), snd s)
  | ConvertTapped => convertAndSave rev (fst s) (snd s)
  end.

(** [main]: the event loop of [ShowAndRun] on the actions of the user, one
    after the other, from the [converter] just built. *)
Definition main `{Libraries} (rev : Revision) (actions : list Action) (w : World)
  : App * World :=
  fold_left (setupUI rev) actions (converter, w).

(** ** A small instance of the libraries, for running the model *)

Module Demo.

Definition toyImage (data : list byte) : result Image :=
  match data with
  | w :: h :: _ =>
      if (Byte.to_N w =? 0)%N || (Byte.to_N h =? 0)%N
      then Err (FormatError "invalid image size")
      else Ok (mkImage (Z.of_N (Byte.to_N w)) (Z.of_N (Byte.to_N h))
                 (fun x y => mkColor (Z.to_N x) (Z.to_N y) 0 255))
  | _ => Err (FormatError "unexpected EOF")
  end.

(** A codec that checks the magic and reads the size from the two bytes
    after it. *)
Definition toyDecode (magic : list byte) (data : list byte) : result Image :=
  if matchMagic magic (firstn (length magic) data)
  then toyImage (skipn (length magic) data)
  else Err (FormatError "invalid format").

Definition toyEncode (f : Format) (img : Image) : result (list byte) :=
  if (Dx img <=? 0) || (Dy img <=? 0) || (255 <? Dx img) || (255 <? Dy img)
  then Err (FormatError "invalid image size")
  else
    Ok ((match f with PNG => pngMagic | JPEG => jpegMagic | GIF => gifMagic
                 | _ => [] end) ++
        match Byte.of_N (Z.to_N (Dx img)), Byte.of_N (Z.to_N (Dy img)) with
        | Some w, Some h => [w; h]
        | _, _ => []
        end).

(** The frames of a toy GIF: a size for each, one after the other, up to
    the end of the bytes or to the first size that is no size. *)
Fixpoint toyFrames (data : list byte) : list Image * option error :=
  match data with
  | [] => ([], None)
  | [_] => ([], Some (FormatError "unexpected EOF"))
  | w :: h :: rest =>
      match toyImage [w; h] with
      | Ok frame => let (frames, ending) := toyFrames rest in (frame :: frames, ending)
      | Err e => ([], Some e)
      end
  end.

Definition toyGif (data : list byte) : result (list Image * option error) :=
  if matchMagic gifMagic (firstn (length gifMagic) data)
  then Ok (toyFrames (skipn (length gifMagic) data))
  else Err (FormatError "invalid format").

(** A toy TIFF has either header. *)
Definition toyTiff (data : list byte) : result Image :=
  if matchMagic tiffLeHeader (firstn (length tiffLeHeader) data)
  then toyImage (skipn (length tiffLeHeader) data)
  else toyDecode tiffBeHeader data.

#[export] Instance libs : Libraries := {|
  unicodeToLower := fun s => s;
  jpeg_Decode := toyDecode jpegMagic;
  png_Decode := toyDecode pngMagic;
  webp_Decode := toyDecode webpMagic;
  bmp_Decode := toyDecode bmpMagic;
  tiff_Decode := toyTiff;
  gif_frames := toyGif;
  resample := fun _ img w h x y => At img (x * Dx img / w) (y * Dy img / h);
  imaging_Encode := toyEncode
|}.

(** A 3 by 2 picture in the toy PNG encoding, a toy GIF of two frames (5 by
    4, then 1 by 1), bytes no codec accepts, and the first bytes of a WebM
    file. *)
Definition catBytes : list byte := pngMagic ++ [x03; x02].
Definition gifBytes : list byte :=
  [x47; x49; x46; x38; x39; x61] ++ [x05; x04; x01; x01].
Definition garbage : list byte := [x00; x01; x02; x03].

(** A toy GIF whose second frame is broken, and a 7 by 5 picture in the toy
    BMP encoding. *)
Definition tornGifBytes : list byte :=
  [x47; x49; x46; x38; x39; x61] ++ [x05; x04; x00; x01].
Definition bmpBytes : list byte :=
  [x42; x4d; x46; x00; x00; x00; x00; x00; x00; x00] ++ [x07; x05].
Definition bmpImage : Image :=
  mkImage 7 5 (fun x y => mkColor (Z.to_N x) (Z.to_N y) 0 255).
Definition webmBytes : list byte := [x1a; x45; xdf; xa3; x9f; x42; x86; x81].

(** What the toy codecs decode [catBytes] and the first frame of
    [gifBytes] to. *)
Definition catImage : Image :=
  mkImage 3 2 (fun x y => mkColor (Z.to_N x) (Z.to_N y) 0 255).
Definition gifFrame : Image :=
  mkImage 5 4 (fun x y => mkColor (Z.to_N x) (Z.to_N y) 0 255).

Definition world (files : list (string * node)) : World :=
  mkWorld (list_to_map files) ∅ [].

Definition app (path : string) : App := mkApp path "" true [].

Definition catWorld : World :=
  world [("cat.png", RegularFile catBytes); ("dog.png", RegularFile catBytes)].

(** The same files, with one output name refused by the system. *)
Definition fullDisk : World :=
  mkWorld (fs catWorld) {[ "cat_emote_bundle/cat-Discord-Large-48x48.png" ]} [].

Definition mixedWorld : World :=
  world [ ("bad.png", RegularFile garbage);
          ("clip.webm", RegularFile catBytes);
          ("film.webm", RegularFile webmBytes);
          ("anim.gif", RegularFile gifBytes);
          ("pic.webp", RegularFile catBytes) ].

(** [cat.png] beside a regular file that has the name of its bundle
    directory. *)
Definition takenWorld : World :=
  world [("cat.png", RegularFile catBytes); ("cat_emote_bundle", RegularFile garbage)].

(** A BMP picture and a torn GIF under names the extended revision accepts. *)
Definition scanWorld : World :=
  world [("scan.webm", RegularFile bmpBytes); ("torn.gif", RegularFile tornGifBytes)].

(** The registry in another order: the packages of [imaging] first, and png
    before jpeg as the extended revision lists its imports. *)
Definition listedFormats : list format :=
  [ mkFormat "bmp" bmpMagic bmp_Decode;
    mkFormat "tiff" tiffLeHeader tiff_Decode;
    mkFormat "tiff" tiffBeHeader tiff_Decode;
    mkFormat "gif" gifMagic gif_Decode;
    mkFormat "png" pngMagic png_Decode;
    mkFormat "jpeg" jpegMagic jpeg_Decode;
    mkFormat "webp" webpMagic webp_Decode ].

End Demo.

(** ** Notions used in the statements *)

Section Notions.
Import GoString filepath.

(** [baseFilename] and [bundleDir] of [processImage], as functions of the
    selected file. *)
Definition baseFilenameOf (selected : string) : string :=
  TrimSuffix (Base selected) (Ext selected).

Definition bundleDirOf (selected : string) : string :=
  Join [Dir selected; baseFilenameOf selected +:+ "_emote_bundle"].

(** [outputPath] of the loop of [processImage] for a catalog entry. *)
Definition outputPath (selected : string) (size : EmoteSize) : string :=
  Join [bundleDirOf selected; outputFilename (baseFilenameOf selected) size].

(** The first half of [processImage]: opening and decoding. *)
Definition decodeStep `{Libraries} (rev : Revision) (selected : string) : IO Image :=
  let* file := orWrap "failed to open file: " (os.Open selected) in
  let ext := ToLower (Ext selected) in
  orWrap "failed to decode image: " (lift (decodeFile (selectDecoder rev ext) file)).

(** The second half: everything done once the image is decoded. *)
Definition writeBundle `{Libraries} (selected : string) (img : Image) : IO unit :=
  let* _ := orWrap "failed to create output directory: "
                   (os.MkdirAll (bundleDirOf selected)) in
  convertSizes img (baseFilenameOf selected) (bundleDirOf selected) emoteSizes.

(** An element free of separators. *)
Definition slashFree (e : list ascii) : Prop := Forall (fun c => c <> Separator) e.

(** An element that [Clean] copies to its output. *)
Definition plain (e : list ascii) : Prop :=
  e <> [] /\ e <> chars "." /\ e <> chars ".." /\ slashFree e.

(** The shapes of [Clean]'s output buffer: plain elements above a block of
    [..] elements, which only an unrooted path can have. *)
Fixpoint goodStack (rooted : bool) (st : list (list ascii)) : Prop :=
  match st with
  | [] => True
  | e :: below =>
      (plain e /\ goodStack rooted below) \/
      (rooted = false /\ e = chars ".." /\ Forall (fun x => x = chars "..") below)
  end.

(** What [fmt.Sprintf] appends to the base name. *)
Definition suffixOf (size : EmoteSize) : string :=
  "-" +:+ Platform size +:+ "-" +:+ Name size +:+ "-" +:+
  itoa (Width size) +:+ "x" +:+ itoa (Height size) +:+ ".png".

(** A catalog entry whose platform and variant name hold no separator. *)
Definition sizeOk (size : EmoteSize) : Prop := slashFree (chars (suffixOf size)).

(** A name that can be opened as a regular file: not empty, and its last
    element is not empty, [.] or [..]. *)
Definition namesFile (selected : string) : Prop :=
  selected <> "" /\ os.namesDirectory selected = false.

(** The raster [processImage] saves for a catalog entry. *)
Definition raster `{Libraries} (img : Image) (size : EmoteSize) : Image :=
  Fill img (Width size) (Height size) Center Lanczos.

(** The bytes of its PNG encoding (none when the encoder refuses it). *)
Definition pngOf `{Libraries} (img : Image) (size : EmoteSize) : list byte :=
  match imaging_Encode PNG (raster img size) with
  | Ok data => data
  | Err _ => []
  end.

(** The world after [Create] on [key] and a write of [data]. *)
Definition created (key : string) (data : list byte) (w : World) : World :=
  mkWorld (<[key := RegularFile data]> (fs w)) (denied w) (trace w ++ [EvCreate key]).

(** What [Create] needs of the name and of the world. *)
Definition creatable (name : string) (w : World) : Prop :=
  name <> "" /\ os.namesDirectory name = false /\
  fs w !! Clean name <> Some Directory /\
  os.parentExists name w = true /\
  Clean name ∉ denied w.

(** The world after [Mkdir] on [key]. *)
Definition madeDir (key : string) (w : World) : World :=
  mkWorld (<[key := Directory]> (fs w)) (denied w) (trace w ++ [EvMkdir key]).

(** Only directories are added, and only at names that were free. *)
Definition extendsByDirs (w w' : World) : Prop :=
  denied w' = denied w /\
  (forall k, fs w' !! k = fs w !! k \/ (fs w !! k = None /\ fs w' !! k = Some Directory)) /\
  exists dirs, trace w' = trace w ++ map EvMkdir dirs.

(** The world after the files of [sizes] were written one after the other. *)
Definition writeAll `{Libraries} (selected : string) (img : Image)
    (sizes : list EmoteSize) (w : World) : World :=
  fold_left (fun w size => created (outputPath selected size) (pngOf img size) w) sizes w.

(** The paths of the files created, in order. *)
Definition createdPaths (t : list event) : list string :=
  omap (fun ev => match ev with EvCreate p => Some p | EvMkdir _ => None end) t.

(** The error [processImage] returns when saving an entry fails. *)
Definition saveError (selected : string) (size : EmoteSize) (e : error) : error :=
  Wrapped ("failed to save " +:+ outputFilename (baseFilenameOf selected) size +:+ ": ") e.

(** The allow-list of each revision, as the specification words it. *)
Definition allowList (rev : Revision) : list string :=
  match rev with
  | Baseline => [".jpg"; ".jpeg"; ".png"; ".gif"]
  | Extended => [".jpg"; ".jpeg"; ".png"; ".gif"; ".webp"; ".webm"]
  end.

(** The decoder the specification gives an extension hint: the one that
    matches it among jpeg, png, gif and webp, and content sniffing for any
    other hint. *)
Definition specDecoder (ext : string) : Decoder :=
  if decide (ext = ".jpg" \/ ext = ".jpeg") then JpegDecode
  else if decide (ext = ".png") then PngDecode
  else if decide (ext = ".gif") then GifDecode
  else if decide (ext = ".webp") then WebpDecode
  else ImageDecode.

(** The format set the specification gives content sniffing: jpeg, png,
    gif and webp. *)
Definition specFormats `{Libraries} : list format :=
  [ mkFormat "jpeg" jpegMagic jpeg_Decode;
    mkFormat "png" pngMagic png_Decode;
    mkFormat "gif" gifMagic gif_Decode;
    mkFormat "webp" webpMagic webp_Decode ].

(** An element without a dot: a name that has no extension. *)
Definition dotFree (e : list ascii) : Prop := Forall (fun c => c <> "."%char) e.

(** What stands before the last element of a path: nothing, or a directory
    part that ends in a separator. *)
Definition dirPart (p : string) : Prop := p = "" \/ exists d, p = d +:+ "/".

(** The folder of the selected file exists (the working directory and the
    root are not listed in [fs]). *)
Definition folderExists (selected : string) (w : World) : Prop :=
  Dir selected = "." \/ Dir selected = "/" \/ fs w !! Dir selected = Some Directory.

(** What a run may do to the files: leave a name alone, make a directory at
    a free name, or put a regular file at one of [outs] where no directory
    stood. *)
Definition footprint (outs : list string) (w w' : World) : Prop :=
  denied w' = denied w /\
  forall k,
    fs w' !! k = fs w !! k \/
    (fs w !! k = None /\ fs w' !! k = Some Directory) \/
    (In k outs /\ fs w !! k <> Some Directory /\
     exists data, fs w' !! k = Some (RegularFile data)).

(** What holds of the [App] between two actions of the user: the convert
    button is enabled exactly when a file is selected, and a selected file
    passed the extension check. *)
Definition consistent `{Libraries} (rev : Revision) (a : App) : Prop :=
  (convertBtn a = true <-> selectedFile a <> "") /\
  (selectedFile a = "" \/ validateSelection rev (selectedFile a) = true).

End Notions.

(** * Properties *)

(** ** Byte strings and their lists *)

Section Strings.
Import GoString.

Lemma chars_app (a b : string) : chars (a +:+ b) = chars a ++ chars b.
Proof. induction a as [|c a IH]; simpl; [reflexivity | now rewrite IH]. Qed.

Lemma str_app (a b : list ascii) : str (a ++ b) = str a +:+ str b.
Proof. induction a as [|c a IH]; simpl; [reflexivity | now rewrite IH]. Qed.

Lemma str_chars (s : string) : str (chars s) = s.
Proof. apply string_of_list_ascii_of_string. Qed.

Lemma chars_str (l : list ascii) : chars (str l) = l.
Proof. apply list_ascii_of_string_of_list_ascii. Qed.

Lemma chars_inj (a b : string) : chars a = chars b -> a = b.
Proof. intros E. rewrite <- (str_chars a), <- (str_chars b). now rewrite E. Qed.

Lemma str_inj (a b : list ascii) : str a = str b -> a = b.
Proof. intros E. rewrite <- (chars_str a), <- (chars_str b). now rewrite E. Qed.

Lemma chars_nil (s : string) : chars s = [] -> s = "".
Proof. destruct s; [reflexivity | discriminate]. Qed.

Lemma string_app_assoc (a b c : string) : (a +:+ b) +:+ c = a +:+ b +:+ c.
Proof. apply chars_inj. rewrite !chars_app. now rewrite <- app_assoc. Qed.

Lemma string_app_length (a b : string) :
  String.length (a +:+ b) = (String.length a + String.length b)%nat.
Proof. induction a as [|c a IH]; simpl; [reflexivity | now rewrite IH]. Qed.

Lemma string_app_inv_head (a b c : string) : a +:+ b = a +:+ c -> b = c.
Proof. induction a as [|x a IH]; simpl; intros E; [exact E | injection E; auto]. Qed.

(** [stripPrefix] returns what follows the prefix. *)
Lemma stripPrefix_Some (p l r : list ascii) :
  stripPrefix p l = Some r <-> l = p ++ r.
Proof.
  revert l; induction p as [|a p IH]; intros l; simpl.
  - split; [now intros [= ->] | now intros ->].
  - destruct l as [|b l]; [split; discriminate|].
    destruct (decide (a = b)) as [->|Hne].
    + rewrite IH. split; [now intros -> | now intros [= ->]].
    + split; [discriminate | intros [= -> _]; contradiction].
Qed.

(** [TrimSuffix] returns a prefix of its argument. *)
Lemma TrimSuffix_prefix (s suffix : string) :
  exists rest, s = TrimSuffix s suffix +:+ rest.
Proof.
  unfold TrimSuffix.
  destruct (stripPrefix (rev (chars suffix)) (rev (chars s))) as [r|] eqn:E.
  - apply stripPrefix_Some in E.
    exists suffix. apply chars_inj. rewrite chars_app, chars_str.
    apply (f_equal (@rev ascii)) in E.
    rewrite rev_involutive, rev_app_distr, rev_involutive in E. exact E.
  - exists "". apply chars_inj. rewrite chars_app. simpl. now rewrite app_nil_r.
Qed.

End Strings.

(** ** Path names *)

Section Paths.
Import GoString filepath.

Lemma IsPathSeparator_true c : IsPathSeparator c = true <-> c = Separator.
Proof. unfold IsPathSeparator. apply bool_decide_eq_true. Qed.

Lemma IsPathSeparator_false c : IsPathSeparator c = false <-> c <> Separator.
Proof. unfold IsPathSeparator. apply bool_decide_eq_false. Qed.

Lemma elements_nonempty l : elements l <> [].
Proof.
  destruct l as [|c l]; simpl; [discriminate|].
  destruct (IsPathSeparator c); [discriminate|].
  destruct (elements l); discriminate.
Qed.

Lemma elements_app_sep a b :
  elements (a ++ Separator :: b) = elements a ++ elements b.
Proof.
  induction a as [|c a IH]; simpl.
  - reflexivity.
  - destruct (IsPathSeparator c); rewrite IH.
    + reflexivity.
    + pose proof (elements_nonempty a) as Hne.
      destruct (elements a); [contradiction | reflexivity].
Qed.

Lemma elements_slashFree e : slashFree e -> elements e = [e].
Proof.
  induction 1 as [|c e Hc _ IH]; simpl; [reflexivity|].
  apply IsPathSeparator_false in Hc. now rewrite Hc, IH.
Qed.

Lemma elements_are_slashFree l : Forall slashFree (elements l).
Proof.
  induction l as [|c l IH]; simpl.
  - repeat constructor.
  - destruct (IsPathSeparator c) eqn:Hc.
    + constructor; [constructor | exact IH].
    + apply IsPathSeparator_false in Hc.
      destruct (elements l) as [|e es]; [repeat constructor; exact Hc|].
      inversion IH; subst. constructor; [constructor; assumption | assumption].
Qed.

Lemma elements_join es :
  es <> [] -> Forall slashFree es -> elements (joinElements es) = es.
Proof.
  induction es as [|e es IH]; [contradiction|]. intros _ Hall.
  inversion Hall as [|? ? He Hes]; subst.
  destruct es as [|e' es'].
  - simpl. now apply elements_slashFree.
  - change (joinElements (e :: e' :: es')) with (e ++ Separator :: joinElements (e' :: es')).
    rewrite elements_app_sep, (elements_slashFree e He), IH; [reflexivity | discriminate | assumption].
Qed.

Lemma joinElements_snoc es f :
  es <> [] -> joinElements (es ++ [f]) = joinElements es ++ Separator :: f.
Proof.
  induction es as [|e es IH]; [contradiction|]. intros _.
  destruct es as [|e' es'].
  - reflexivity.
  - change (joinElements ((e :: e' :: es') ++ [f]))
      with (e ++ Separator :: joinElements ((e' :: es') ++ [f])).
    rewrite IH by discriminate. simpl. now rewrite <- app_assoc.
Qed.

Lemma plain_step rooted st e : plain e -> cleanStep rooted st e = e :: st.
Proof.
  intros (H1 & H2 & H3 & _). unfold cleanStep.
  repeat (destruct (decide _); [contradiction|]). reflexivity.
Qed.

Lemma goodStack_plain_all rooted st :
  goodStack rooted st -> Forall slashFree st.
Proof.
  induction st as [|e st IH]; simpl; [constructor|].
  intros [[Hp Hg] | (_ & -> & Hall)].
  - constructor; [apply Hp | auto].
  - constructor.
    + repeat constructor; discriminate.
    + eapply Forall_impl; [exact Hall|]. intros x ->. repeat constructor; discriminate.
Qed.

Lemma goodStack_dotdots st :
  Forall (fun x => x = chars "..") st -> goodStack false st.
Proof.
  induction 1 as [|e st -> Hall IH]; simpl; [exact I|]. right. auto.
Qed.

Lemma goodStack_tail rooted e st : goodStack rooted (e :: st) -> goodStack rooted st.
Proof.
  simpl. intros [[_ Hg] | (-> & _ & Hall)]; [exact Hg | now apply goodStack_dotdots].
Qed.

(** A step of [Clean] keeps the buffer well-shaped. *)
Lemma cleanStep_good rooted st e :
  slashFree e -> goodStack rooted st -> goodStack rooted (cleanStep rooted st e).
Proof.
  intros Hsf Hg. unfold cleanStep.
  destruct (decide (e = [])) as [|Hn]; [exact Hg|].
  destruct (decide (e = chars ".")) as [|Hd]; [exact Hg|].
  destruct (decide (e = chars "..")) as [->|Hdd].
  - destruct st as [|top below].
    + destruct rooted; simpl; [exact I|]. right. repeat split. constructor.
    + destruct (decide (top = chars "..")) as [->|Htop].
      * destruct rooted; [exact Hg|].
        simpl. right. repeat split. constructor; [reflexivity|].
        simpl in Hg. destruct Hg as [[(_ & _ & Hp & _) _] | (_ & _ & Hall)];
          [contradiction | exact Hall].
      * now apply goodStack_tail in Hg.
  - simpl. left. split; [repeat split; assumption | exact Hg].
Qed.

Lemma fold_cleanStep_good rooted es st :
  Forall slashFree es -> goodStack rooted st ->
  goodStack rooted (fold_left (cleanStep rooted) es st).
Proof.
  intros Hes; revert st. induction Hes as [|e es He _ IH]; intros st Hg; simpl.
  - exact Hg.
  - apply IH. now apply cleanStep_good.
Qed.

Lemma cleanStack_good path : goodStack (isRooted path) (cleanStack path).
Proof.
  unfold cleanStack. apply fold_cleanStep_good; [apply elements_are_slashFree | exact I].
Qed.

(** Run on the elements of a well-shaped buffer, the loop rebuilds it. *)
Lemma fold_cleanStep_rebuild rooted st :
  goodStack rooted st -> fold_left (cleanStep rooted) (rev st) [] = st.
Proof.
  induction st as [|e st IH]; [reflexivity|]. intros Hg.
  simpl rev. rewrite fold_left_app. simpl.
  rewrite IH by (eapply goodStack_tail; exact Hg).
  simpl in Hg. destruct Hg as [[Hp _] | (-> & -> & Hall)].
  - now apply plain_step.
  - unfold cleanStep. simpl.
    destruct st as [|top below]; [reflexivity|].
    inversion Hall; subst. simpl. reflexivity.
Qed.

Lemma goodStack_elements rooted st :
  goodStack rooted st -> Forall (fun e => e <> [] /\ slashFree e) st.
Proof.
  induction st as [|e st IH]; simpl; [constructor|].
  intros [[(Hn & _ & _ & Hs) Hg] | (_ & -> & Hall)].
  - constructor; auto.
  - constructor.
    + split; [discriminate | repeat constructor; discriminate].
    + eapply Forall_impl; [exact Hall|]. intros x ->.
      split; [discriminate | repeat constructor; discriminate].
Qed.

Lemma isRooted_join es :
  Forall (fun e => e <> [] /\ slashFree e) es -> isRooted (joinElements es) = false.
Proof.
  intros Hall. destruct Hall as [|e es [Hn Hs] _]; [reflexivity|].
  destruct e as [|c e]; [contradiction|].
  inversion Hs as [|? ? Hc _]; subst. apply IsPathSeparator_false in Hc.
  destruct es; simpl; exact Hc.
Qed.

Lemma joinElements_head c e rest :
  exists tail, joinElements ((c :: e) :: rest) = c :: tail.
Proof. destruct rest; simpl; eauto. Qed.

Lemma rev_good_head rooted e st :
  goodStack rooted (e :: st) ->
  exists c e' rest, rev (e :: st) = (c :: e') :: rest.
Proof.
  intros Hg. apply goodStack_elements, Forall_rev in Hg.
  destruct (rev (e :: st)) as [|x rest] eqn:E.
  - apply (f_equal (@length _)) in E. rewrite length_rev in E. discriminate.
  - inversion Hg as [|? ? [Hn _] _]; subst.
    destruct x as [|c e']; [contradiction | eauto].
Qed.

Lemma render_nonempty rooted st : goodStack rooted st -> render rooted st <> "".
Proof.
  intros Hg. unfold render. destruct rooted; [discriminate|].
  destruct st as [|e st]; [discriminate|].
  destruct (rev_good_head _ _ _ Hg) as (c & e' & rest & ->).
  destruct (joinElements_head c e' rest) as [tail ->]. discriminate.
Qed.

Lemma isRooted_render rooted st :
  goodStack rooted st -> isRooted (chars (render rooted st)) = rooted.
Proof.
  intros Hg. unfold render. destruct rooted; [reflexivity|].
  destruct st as [|e st]; [reflexivity|].
  rewrite chars_str. apply isRooted_join.
  apply Forall_rev. now apply (goodStack_elements false).
Qed.

(** The elements of a rendered buffer are the buffer, under an empty
    element for the root. *)
Lemma elements_render rooted st :
  goodStack rooted st -> st <> [] ->
  elements (chars (render rooted st)) = (if rooted then [[]] else []) ++ rev st.
Proof.
  intros Hg Hne.
  assert (Hj : elements (joinElements (rev st)) = rev st).
  { apply elements_join.
    - intros E. apply (f_equal (@rev _)) in E. rewrite rev_involutive in E. auto.
    - apply Forall_rev. now apply (goodStack_plain_all rooted). }
  unfold render. destruct rooted.
  - rewrite chars_str. simpl. now rewrite Hj.
  - destruct st; [contradiction|]. rewrite chars_str. exact Hj.
Qed.

Lemma cleanStack_render rooted st :
  goodStack rooted st -> cleanStack (chars (render rooted st)) = st.
Proof.
  intros Hg. unfold cleanStack. rewrite isRooted_render by assumption.
  destruct st as [|e st].
  - destruct rooted; reflexivity.
  - rewrite elements_render by (assumption || discriminate).
    destruct rooted.
    + rewrite fold_left_app.
      change (fold_left (cleanStep true) [[]] []) with (@nil (list ascii)).
      now apply fold_cleanStep_rebuild.
    + now apply fold_cleanStep_rebuild.
Qed.

Lemma Clean_render rooted st :
  goodStack rooted st -> Clean (render rooted st) = render rooted st.
Proof.
  intros Hg. unfold Clean.
  destruct (decide (render rooted st = "")) as [E|_];
    [now apply render_nonempty in E|].
  now rewrite isRooted_render, cleanStack_render.
Qed.

(** Every cleaned path is a rendered well-shaped buffer. *)
Lemma Clean_shape path :
  exists rooted st, goodStack rooted st /\ Clean path = render rooted st.
Proof.
  unfold Clean. destruct (decide (path = "")).
  - exists false, []. split; [exact I | reflexivity].
  - exists (isRooted (chars path)), (cleanStack (chars path)).
    split; [apply cleanStack_good | reflexivity].
Qed.

Lemma Clean_idempotent path : Clean (Clean path) = Clean path.
Proof.
  destruct (Clean_shape path) as (rooted & st & Hg & ->). now apply Clean_render.
Qed.

(** Joining a plain element to a cleaned path pushes it on the buffer. *)
Lemma Clean_render_join rooted st f :
  goodStack rooted st -> plain f ->
  Clean (render rooted st +:+ String Separator "" +:+ str f) = render rooted (f :: st).
Proof.
  intros Hg Hf. unfold Clean.
  destruct (decide _) as [E|_].
  { apply (f_equal String.length) in E. rewrite !string_app_length in E.
    simpl in E. lia. }
  rewrite !chars_app, chars_str. simpl app.
  assert (Hr : isRooted (chars (render rooted st) ++ Separator :: f) = rooted).
  { pose proof (isRooted_render rooted st Hg) as Hr.
    pose proof (render_nonempty rooted st Hg) as Hne.
    destruct (chars (render rooted st)) as [|c l] eqn:E; [|exact Hr].
    apply chars_nil in E. contradiction. }
  rewrite Hr. f_equal.
  unfold cleanStack. rewrite Hr, elements_app_sep, fold_left_app.
  fold (cleanStack (chars (render rooted st))) in *.
  pose proof (cleanStack_render rooted st Hg) as Hc. unfold cleanStack in Hc.
  rewrite isRooted_render in Hc by assumption. rewrite Hc.
  rewrite (elements_slashFree f) by apply Hf. simpl. now apply plain_step.
Qed.

Lemma render_push rooted st f :
  st <> [] ->
  render rooted (f :: st) = render rooted st +:+ String Separator "" +:+ str f.
Proof.
  intros Hne.
  assert (Hr : rev st <> []).
  { intros E. apply (f_equal (@rev _)) in E. rewrite rev_involutive in E. auto. }
  destruct st as [|e st]; [contradiction|].
  destruct rooted.
  - change (render true (f :: e :: st))
      with (str (Separator :: joinElements (rev (e :: st) ++ [f]))).
    change (render true (e :: st)) with (str (Separator :: joinElements (rev (e :: st)))).
    rewrite joinElements_snoc by assumption.
    rewrite app_comm_cons, str_app. reflexivity.
  - change (render false (f :: e :: st)) with (str (joinElements (rev (e :: st) ++ [f]))).
    change (render false (e :: st)) with (str (joinElements (rev (e :: st)))).
    rewrite joinElements_snoc by assumption.
    rewrite str_app. reflexivity.
Qed.

(** *** The selected file name *)

Lemma take_drop_element b : b = takeElement b ++ dropElement b.
Proof.
  induction b as [|c b IH]; simpl; [reflexivity|].
  destruct (IsPathSeparator c); simpl; [reflexivity | now rewrite <- IH].
Qed.

Lemma takeElement_slashFree b : slashFree (takeElement b).
Proof.
  induction b as [|c b IH]; simpl; [constructor|].
  destruct (IsPathSeparator c) eqn:Hc; [constructor|].
  apply IsPathSeparator_false in Hc. now constructor.
Qed.

Lemma dropElement_head b :
  dropElement b = [] \/ exists r, dropElement b = Separator :: r.
Proof.
  induction b as [|c b IH]; simpl; [now left|].
  destruct (IsPathSeparator c) eqn:Hc; [|exact IH].
  apply IsPathSeparator_true in Hc. subst. right. eauto.
Qed.

Lemma slashFree_rev e : slashFree e -> slashFree (rev e).
Proof. apply Forall_rev. Qed.

Lemma slashFree_app a b : slashFree a -> slashFree b -> slashFree (a ++ b).
Proof. intros Ha Hb. apply Forall_app. auto. Qed.

(** A path is its directory part followed by its last element. *)
Lemma path_split l :
  let pre := rev (dropElement (rev l)) in
  let e := rev (takeElement (rev l)) in
  l = pre ++ e /\ slashFree e /\ List.last (elements l) [] = e /\
  (pre = [] \/ exists pre', pre = pre' ++ [Separator]).
Proof.
  intros pre e.
  assert (Hl : l = pre ++ e).
  { unfold pre, e. rewrite <- rev_app_distr, <- take_drop_element.
    now rewrite rev_involutive. }
  assert (He : slashFree e) by apply slashFree_rev, takeElement_slashFree.
  assert (Hpre : pre = [] \/ exists pre', pre = pre' ++ [Separator]).
  { unfold pre. destruct (dropElement_head (rev l)) as [-> | [r ->]].
    - now left.
    - right. exists (rev r). reflexivity. }
  repeat split; try assumption.
  rewrite Hl at 1. destruct Hpre as [-> | [pre' ->]].
  - simpl. now rewrite elements_slashFree.
  - rewrite <- app_assoc. simpl. rewrite elements_app_sep.
    rewrite (elements_slashFree e He). apply last_last.
Qed.

Lemma slashFree_not_rooted e : e <> [] -> slashFree e -> isRooted e = false.
Proof.
  intros Hn Hs. destruct e as [|c e]; [contradiction|].
  inversion Hs; subst. now apply IsPathSeparator_false.
Qed.

(** The name of a regular file: its last element is plain; [Base] is that
    element, [Dir] the cleaned rest, and the cleaned name is [Dir] with
    the element pushed. *)
Lemma selected_shape (path : string) :
  path <> "" -> os.namesDirectory path = false ->
  exists rooted st e,
    goodStack rooted st /\ plain e /\
    Dir path = render rooted st /\
    Clean path = render rooted (e :: st) /\
    Base path = str e.
Proof.
  intros Hne Hnd.
  destruct (path_split (chars path)) as (Hl & He & Hlast & Hpre).
  set (pre := rev (dropElement (rev (chars path)))) in *.
  set (e := rev (takeElement (rev (chars path)))) in *.
  assert (Hplain : plain e).
  { unfold os.namesDirectory in Hnd. rewrite Hlast in Hnd.
    apply bool_decide_eq_false in Hnd.
    repeat split; try assumption; intros E; apply Hnd; auto. }
  assert (Hbase : Base path = str e).
  { unfold Base. destruct (decide (path = "")); [contradiction|].
    assert (Ht : takeElement (rev (chars path)) <> []).
    { intros E. unfold e in Hplain. rewrite E in Hplain. now destruct Hplain. }
    destruct (rev (chars path)) as [|c b] eqn:Eb; [now destruct Ht|].
    simpl in Ht |- *. destruct (IsPathSeparator c) eqn:Hc; [now destruct Ht|].
    unfold e. simpl. now rewrite Hc. }
  unfold Dir. fold pre.
  destruct Hpre as [Hp | [pre' Hp]].
  - exists false, [], e. rewrite Hp in *. simpl in Hl.
    refine (conj I (conj Hplain (conj eq_refl (conj _ Hbase)))).
    unfold Clean. destruct (decide (path = "")); [contradiction|].
    rewrite Hl. rewrite (slashFree_not_rooted e) by apply Hplain.
    unfold cleanStack. rewrite (slashFree_not_rooted e) by apply Hplain.
    rewrite (elements_slashFree e He). simpl. now rewrite plain_step.
  - assert (Hroot : isRooted (chars path) = isRooted pre).
    { rewrite Hl, Hp. destruct pre'; reflexivity. }
    assert (Hst : cleanStack pre = fold_left (cleanStep (isRooted pre)) (elements pre') []).
    { unfold cleanStack. rewrite Hp at 2.
      rewrite elements_app_sep, fold_left_app. reflexivity. }
    exists (isRooted pre), (cleanStack pre), e.
    refine (conj (cleanStack_good pre) (conj Hplain (conj _ (conj _ Hbase)))).
    + unfold Clean. destruct (decide _) as [E|_]; [|now rewrite chars_str].
      apply (f_equal chars) in E. rewrite chars_str, Hp in E.
      destruct pre'; discriminate.
    + unfold Clean. destruct (decide (path = "")); [contradiction|].
      rewrite Hroot. f_equal.
      assert (Hel : elements (chars path) = elements pre' ++ [e]).
      { rewrite Hl, Hp, <- app_assoc. simpl.
        now rewrite elements_app_sep, (elements_slashFree e He). }
      unfold cleanStack at 1. rewrite Hroot, Hel, fold_left_app, <- Hst.
      simpl. now apply plain_step.
Qed.

(** *** The bundle directory and the output names *)

Lemma outputFilename_suffix base size :
  outputFilename base size = base +:+ suffixOf size.
Proof. reflexivity. Qed.

Lemma emoteSizes_ok : Forall sizeOk emoteSizes.
Proof.
  unfold sizeOk, slashFree.
  apply (bool_decide_unpack _). vm_compute. exact I.
Qed.

Lemma length_chars (s : string) : length (chars s) = String.length s.
Proof. induction s; simpl; auto. Qed.

Lemma long_plain e : slashFree e -> (3 <= length e)%nat -> plain e.
Proof.
  intros Hs Hl. repeat split; try assumption; intros ->; simpl in Hl; lia.
Qed.

Lemma bundleName_plain base :
  slashFree (chars base) -> plain (chars (base +:+ "_emote_bundle")).
Proof.
  intros Hb. apply long_plain.
  - rewrite chars_app. apply slashFree_app; [assumption|].
    repeat constructor; discriminate.
  - rewrite length_chars, string_app_length. simpl. lia.
Qed.

Lemma suffix_long size : (3 <= String.length (suffixOf size))%nat.
Proof. unfold suffixOf. rewrite !string_app_length. simpl. lia. Qed.

Lemma outputFilename_plain base size :
  slashFree (chars base) -> sizeOk size -> plain (chars (outputFilename base size)).
Proof.
  intros Hb Hs. rewrite outputFilename_suffix. apply long_plain.
  - rewrite chars_app. now apply slashFree_app.
  - rewrite length_chars, string_app_length. pose proof (suffix_long size). lia.
Qed.

Lemma baseFilename_slashFree path :
  path <> "" -> os.namesDirectory path = false -> slashFree (chars (baseFilenameOf path)).
Proof.
  intros Hne Hnd.
  destruct (selected_shape path Hne Hnd) as (_ & _ & e & _ & Hp & _ & _ & Hb).
  unfold baseFilenameOf.
  destruct (TrimSuffix_prefix (Base path) (Ext path)) as [rest Hr].
  rewrite Hb in Hr at 1. apply (f_equal chars) in Hr.
  rewrite chars_str, chars_app in Hr.
  destruct Hp as (_ & _ & _ & Hs). rewrite Hr in Hs.
  now apply Forall_app in Hs.
Qed.

Lemma Join2 (dir name : string) :
  dir <> "" -> Join [dir; name] = Clean (dir +:+ String Separator "" +:+ name).
Proof. intros Hd. simpl. destruct (decide (dir = "")); [contradiction | reflexivity]. Qed.

(** The bundle directory is [Dir] of the selected file with one plain
    element pushed, and every output path is the bundle directory, a
    separator and the file name. *)
Lemma bundle_shape (path : string) :
  path <> "" -> os.namesDirectory path = false ->
  exists rooted st e,
    let X := chars (baseFilenameOf path +:+ "_emote_bundle") in
    goodStack rooted (X :: st) /\ plain e /\
    bundleDirOf path = render rooted (X :: st) /\
    Clean path = render rooted (e :: st).
Proof.
  intros Hne Hnd.
  destruct (selected_shape path Hne Hnd) as (rooted & st & e & Hg & Hp & Hd & Hc & _).
  exists rooted, st, e. intros X.
  assert (HX : plain X) by now apply bundleName_plain, baseFilename_slashFree.
  refine (conj _ (conj Hp (conj _ Hc))).
  - simpl. left. auto.
  - unfold bundleDirOf. rewrite Join2 by (rewrite Hd; now apply render_nonempty).
    rewrite Hd. rewrite <- (str_chars (baseFilenameOf path +:+ "_emote_bundle")).
    now apply Clean_render_join.
Qed.

Lemma bundleDir_clean path :
  path <> "" -> os.namesDirectory path = false ->
  Clean (bundleDirOf path) = bundleDirOf path /\ bundleDirOf path <> "".
Proof.
  intros Hne Hnd.
  destruct (bundle_shape path Hne Hnd) as (rooted & st & e & Hg & _ & -> & _).
  split; [now apply Clean_render | now apply render_nonempty].
Qed.

Lemma output_path path size :
  path <> "" -> os.namesDirectory path = false -> sizeOk size ->
  Join [bundleDirOf path; outputFilename (baseFilenameOf path) size] =
  bundleDirOf path +:+ String Separator "" +:+ outputFilename (baseFilenameOf path) size.
Proof.
  intros Hne Hnd Hs.
  destruct (bundle_shape path Hne Hnd) as (rooted & st & e & Hg & _ & Hb & _).
  cbv zeta in Hg.
  rewrite Join2 by (rewrite Hb; now apply render_nonempty).
  rewrite Hb.
  rewrite <- (str_chars (outputFilename _ _)).
  rewrite Clean_render_join;
    [| assumption
     | apply outputFilename_plain; [now apply baseFilename_slashFree | assumption]].
  now apply render_push.
Qed.

(** No output path is the selected file itself. *)
Lemma output_not_input path size :
  path <> "" -> os.namesDirectory path = false -> sizeOk size ->
  Clean path <> Join [bundleDirOf path; outputFilename (baseFilenameOf path) size].
Proof.
  intros Hne Hnd Hs E.
  destruct (bundle_shape path Hne Hnd) as (rooted & st & e & Hg & Hp & Hb & Hc).
  cbv zeta in Hg.
  assert (Hf : plain (chars (outputFilename (baseFilenameOf path) size)))
    by (apply outputFilename_plain; [now apply baseFilename_slashFree | assumption]).
  rewrite Join2 in E by (rewrite Hb; now apply render_nonempty).
  rewrite Hb, Hc in E.
  rewrite <- (str_chars (outputFilename _ _)) in E.
  rewrite Clean_render_join in E by assumption.
  apply (f_equal (fun s => length (elements (chars s)))) in E.
  rewrite !elements_render in E; try discriminate.
  - rewrite !length_app in E. simpl in E. rewrite !length_app in E. simpl in E. lia.
  - simpl. left. auto.
  - simpl. left. split; [assumption|]. now apply goodStack_tail in Hg.
Qed.

End Paths.

(** ** System calls *)

Section Calls.
Import GoString filepath.
Context `{Libraries}.

Lemma Ext_png (x : string) : Ext (x +:+ ".png") = ".png".
Proof. unfold Ext. rewrite chars_app, rev_app_distr. reflexivity. Qed.

Lemma FormatFromFilename_png (x : string) :
  imaging.FormatFromFilename (x +:+ ".png") = Ok PNG.
Proof. unfold imaging.FormatFromFilename. rewrite Ext_png. reflexivity. Qed.

Lemma dropElement_app a b :
  slashFree a -> dropElement (a ++ Separator :: b) = Separator :: b.
Proof.
  induction 1 as [|c a Hc _ IH]; simpl; [reflexivity|].
  apply IsPathSeparator_false in Hc. now rewrite Hc.
Qed.

Lemma parentOf_join (d f : string) :
  plain (chars f) -> os.parentOf (d +:+ String Separator "" +:+ f) = d.
Proof.
  intros (Hn & _ & _ & Hs). unfold os.parentOf.
  rewrite !chars_app. simpl app. rewrite rev_app_distr. simpl rev.
  rewrite <- app_assoc. simpl app.
  destruct (rev (chars f)) as [|c r] eqn:E.
  { apply (f_equal (@rev _)) in E. rewrite rev_involutive in E. contradiction. }
  assert (Hr : slashFree (c :: r)) by (rewrite <- E; now apply slashFree_rev).
  assert (Hc : IsPathSeparator c = false).
  { inversion Hr; subst. now apply IsPathSeparator_false. }
  change ((c :: r) ++ Separator :: rev (chars d))
    with (c :: (r ++ Separator :: rev (chars d))).
  simpl dropSeparators. rewrite Hc.
  change (c :: (r ++ Separator :: rev (chars d)))
    with ((c :: r) ++ Separator :: rev (chars d)).
  rewrite dropElement_app by assumption. simpl.
  now rewrite rev_involutive, str_chars.
Qed.

Lemma namesDirectory_join (d f : string) :
  plain (chars f) -> os.namesDirectory (d +:+ String Separator "" +:+ f) = false.
Proof.
  intros (Hn & Hd & Hdd & Hs). unfold os.namesDirectory.
  rewrite !chars_app. simpl app. rewrite elements_app_sep.
  rewrite (elements_slashFree _ Hs), last_last.
  apply bool_decide_eq_false. intros [E | [E | E]]; auto.
Qed.

(** *** [Create] *)

Lemma Create_ok name w w' key :
  os.Create name w = (w', Ok key) ->
  key = Clean name /\ creatable name w /\ w' = created key [] w.
Proof.
  unfold os.Create, creatable.
  destruct (decide (name = "")); [discriminate|].
  destruct (os.namesDirectory name); [discriminate|].
  destruct (fs w !! Clean name) as [[data|]|] eqn:E; try discriminate;
    destruct (os.parentExists name w); try discriminate;
    destruct (decide (Clean name ∈ denied w)); try discriminate;
    simpl; intros [= <- <-]; repeat split; auto; discriminate.
Qed.

Lemma Create_err name w w' e : os.Create name w = (w', Err e) -> w' = w.
Proof.
  unfold os.Create.
  destruct (decide (name = "")); [now intros [= <- _]|].
  destruct (os.namesDirectory name); [now intros [= <- _]|].
  destruct (fs w !! Clean name) as [[data|]|];
    try (now intros [= <- _]);
    destruct (os.parentExists name w); simpl; try (now intros [= <- _]);
    destruct (decide (Clean name ∈ denied w)); try (now intros [= <- _]);
    discriminate.
Qed.

Lemma Create_succeeds name w :
  creatable name w -> os.Create name w = (created (Clean name) [] w, Ok (Clean name)).
Proof.
  intros (Hn & Hd & Hf & Hp & Hden). unfold os.Create.
  destruct (decide (name = "")); [contradiction|].
  rewrite Hd, Hp. simpl.
  destruct (decide (Clean name ∈ denied w)); [contradiction|].
  destruct (fs w !! Clean name) as [[data|]|]; try reflexivity. contradiction.
Qed.

(** *** [Save] *)

Lemma Save_ok img name w w' :
  imaging.Save img name w = (w', Ok tt) ->
  exists f data,
    imaging.FormatFromFilename name = Ok f /\
    imaging_Encode f img = Ok data /\
    creatable name w /\
    w' = created (Clean name) data w.
Proof.
  unfold imaging.Save, bind, lift.
  destruct (imaging.FormatFromFilename name) as [f|e]; [|discriminate].
  destruct (os.Create name w) as [w1 [key|e]] eqn:Ec; [|discriminate].
  apply Create_ok in Ec. destruct Ec as (-> & Hc & ->).
  destruct (imaging_Encode f img) as [data|e] eqn:Ee; [|discriminate].
  unfold os.Write. simpl. intros [= <-].
  exists f, data. repeat split; try apply Hc; auto.
  unfold created. simpl. now rewrite insert_insert_eq.
Qed.

(** A failed [Save] changes nothing, or leaves the file created and empty
    when the encoder is what failed. *)
Lemma Save_err img name w w' e :
  imaging.Save img name w = (w', Err e) ->
  w' = w \/ (creatable name w /\ w' = created (Clean name) [] w).
Proof.
  unfold imaging.Save, bind, lift.
  destruct (imaging.FormatFromFilename name) as [f|e0]; [|intros [= <- _]; now left].
  destruct (os.Create name w) as [w1 [key|e1]] eqn:Ec.
  - apply Create_ok in Ec. destruct Ec as (-> & Hc & ->).
    destruct (imaging_Encode f img) as [data|e2]; [discriminate|].
    intros [= <- _]. now right.
  - apply Create_err in Ec. subst. intros [= <- _]. now left.
Qed.

Lemma Save_succeeds img name w f data :
  imaging.FormatFromFilename name = Ok f ->
  imaging_Encode f img = Ok data ->
  creatable name w ->
  imaging.Save img name w = (created (Clean name) data w, Ok tt).
Proof.
  intros Hf He Hc. unfold imaging.Save, bind, lift.
  rewrite Hf, (Create_succeeds _ _ Hc), He. unfold os.Write, created. simpl.
  now rewrite insert_insert_eq.
Qed.

(** *** [MkdirAll] *)

Lemma Mkdir_cases path w w' r :
  os.Mkdir path w = (w', r) ->
  (w' = w /\ exists e, r = Err e) \/
  (r = Ok tt /\ path <> "" /\ fs w !! Clean path = None /\ w' = madeDir (Clean path) w).
Proof.
  unfold os.Mkdir.
  destruct (decide (path = "")); [intros [= <- <-]; left; eauto|].
  destruct (fs w !! Clean path) eqn:E; [intros [= <- <-]; left; eauto|].
  destruct (negb (os.parentExists path w)); [intros [= <- <-]; left; eauto|].
  destruct (decide (Clean path ∈ denied w)); [intros [= <- <-]; left; eauto|].
  intros [= <- <-]. right. auto.
Qed.

Lemma extendsByDirs_refl w : extendsByDirs w w.
Proof.
  repeat split; auto. exists []. simpl. now rewrite app_nil_r.
Qed.

Lemma extendsByDirs_trans w1 w2 w3 :
  extendsByDirs w1 w2 -> extendsByDirs w2 w3 -> extendsByDirs w1 w3.
Proof.
  intros (Hd1 & Hf1 & d1 & Ht1) (Hd2 & Hf2 & d2 & Ht2). repeat split.
  - congruence.
  - intros k. destruct (Hf1 k) as [E1 | [E1 E1']], (Hf2 k) as [E2 | [E2 E2']].
    + left. congruence.
    + right. split; congruence.
    + right. split; congruence.
    + rewrite E1' in E2. discriminate.
  - exists (d1 ++ d2). rewrite Ht2, Ht1, map_app. now rewrite app_assoc.
Qed.

Lemma madeDir_extends key w : fs w !! key = None -> extendsByDirs w (madeDir key w).
Proof.
  intros Hk. repeat split; auto.
  - intros k. simpl. destruct (decide (key = k)) as [<-|Hne].
    + right. split; [assumption | apply lookup_insert_eq].
    + left. now apply lookup_insert_ne.
  - exists [key]. reflexivity.
Qed.

Lemma mkdirChain_extends chain w w' r :
  os.mkdirChain chain w = (w', r) -> extendsByDirs w w'.
Proof.
  revert w w' r. induction chain as [|path parents IH]; intros w w' r; simpl.
  - intros [= <- _]. apply extendsByDirs_refl.
  - destruct (os.Stat path w) as [[data|]|].
    + intros [= <- _]. apply extendsByDirs_refl.
    + intros [= <- _]. apply extendsByDirs_refl.
    + destruct (os.mkdirChain parents w) as [w1 [[]|e]] eqn:Ep.
      * apply IH in Ep.
        destruct (os.Mkdir path w1) as [w2 r2] eqn:Em.
        apply Mkdir_cases in Em.
        assert (Hw : forall r', (w2, r') = (w', r) -> extendsByDirs w w').
        { intros r' [= <- _].
          destruct Em as [[-> _] | (_ & _ & Hk & ->)]; [assumption|].
          eapply extendsByDirs_trans; [exact Ep | now apply madeDir_extends]. }
        destruct r2 as [[]|e]; [apply Hw|].
        destruct (os.Stat path w2) as [[data|]|]; apply Hw.
      * apply IH in Ep. now intros [= <- _].
Qed.

Lemma mkdirChain_ok path parents w w' :
  os.mkdirChain (path :: parents) w = (w', Ok tt) -> os.Stat path w' = Some Directory.
Proof.
  simpl. destruct (os.Stat path w) as [[data|]|] eqn:Es.
  - discriminate.
  - now intros [= <-].
  - destruct (os.mkdirChain parents w) as [w1 [[]|e]]; [|discriminate].
    destruct (os.Mkdir path w1) as [w2 [[]|e]] eqn:Em.
    + intros [= <-]. apply Mkdir_cases in Em.
      destruct Em as [[_ [e [=]]] | (_ & Hne & _ & ->)].
      unfold os.Stat. destruct (decide (path = "")); [contradiction|].
      simpl. apply lookup_insert_eq.
    + destruct (os.Stat path w2) as [[data|]|] eqn:Es2; try discriminate.
      now intros [= <-].
Qed.

Lemma MkdirAll_ok path w w' :
  os.MkdirAll path w = (w', Ok tt) ->
  os.Stat path w' = Some Directory /\ extendsByDirs w w'.
Proof.
  unfold os.MkdirAll. intros Hm. split.
  - eapply mkdirChain_ok; exact Hm.
  - eapply mkdirChain_extends; exact Hm.
Qed.

(** A directory that exists is left as it is. *)
Lemma MkdirAll_exists path w :
  os.Stat path w = Some Directory -> os.MkdirAll path w = (w, Ok tt).
Proof. intros Hs. unfold os.MkdirAll. simpl. now rewrite Hs. Qed.

End Calls.

(** ** The conversion loop *)

Section Loop.
Import GoString filepath.
Context `{Libraries}.
Variable selected : string.
Hypothesis Hsel : namesFile selected.

Let base := baseFilenameOf selected.
Let dir := bundleDirOf selected.
Let out := outputPath selected.

Lemma out_eq size :
  sizeOk size -> out size = dir +:+ String Separator "" +:+ outputFilename base size.
Proof. destruct Hsel. now apply output_path. Qed.

Lemma dir_clean : Clean dir = dir /\ dir <> "".
Proof. destruct Hsel. now apply bundleDir_clean. Qed.

Lemma out_clean size : Clean (out size) = out size.
Proof.
  unfold out, outputPath. rewrite Join2 by apply dir_clean. apply Clean_idempotent.
Qed.

Lemma out_format size : sizeOk size -> imaging.FormatFromFilename (out size) = Ok PNG.
Proof.
  intros Hs. rewrite out_eq by assumption. rewrite outputFilename_suffix.
  unfold suffixOf. rewrite <- !string_app_assoc. apply FormatFromFilename_png.
Qed.

Lemma out_plain size : sizeOk size -> plain (chars (outputFilename base size)).
Proof.
  intros Hs. destruct Hsel.
  apply outputFilename_plain; [now apply baseFilename_slashFree | assumption].
Qed.

Lemma out_not_dir size : sizeOk size -> out size <> dir.
Proof.
  intros Hs E. rewrite out_eq in E by assumption.
  apply (f_equal String.length) in E. rewrite !string_app_length in E.
  simpl in E. lia.
Qed.

Lemma out_not_input size : sizeOk size -> Clean selected <> out size.
Proof. intros Hs. destruct Hsel. now apply output_not_input. Qed.

Lemma out_inj s1 s2 :
  sizeOk s1 -> sizeOk s2 -> out s1 = out s2 -> suffixOf s1 = suffixOf s2.
Proof.
  intros H1 H2 E. rewrite !out_eq, !outputFilename_suffix in E by assumption.
  do 3 apply string_app_inv_head in E. exact E.
Qed.

(** For an output path, [Create] needs the bundle directory, a name that
    is not a directory, and no refusal. *)
Lemma out_creatable size w :
  sizeOk size ->
  creatable (out size) w <->
  fs w !! out size <> Some Directory /\ fs w !! dir = Some Directory /\
  out size ∉ denied w.
Proof.
  intros Hs. unfold creatable. rewrite out_clean.
  assert (Hp : os.parentOf (out size) = dir).
  { rewrite out_eq by assumption. apply parentOf_join. now apply out_plain. }
  assert (Hn : os.namesDirectory (out size) = false).
  { rewrite out_eq by assumption. apply namesDirectory_join. now apply out_plain. }
  assert (Hne : out size <> "").
  { rewrite out_eq by assumption. intros E.
    apply (f_equal String.length) in E. rewrite !string_app_length in E.
    simpl in E. lia. }
  assert (Hpe : os.parentExists (out size) w = true <-> fs w !! dir = Some Directory).
  { unfold os.parentExists. rewrite Hp. unfold os.Stat.
    destruct dir_clean as [Hc Hd]. rewrite Hc.
    destruct (decide (dir = "")); [contradiction|].
    rewrite bool_decide_eq_false_2 by assumption. simpl.
    destruct (fs w !! dir) as [[data|]|]; split; congruence. }
  rewrite Hpe. tauto.
Qed.

(** *** The written world *)

Lemma writeAll_denied img sizes w : denied (writeAll selected img sizes w) = denied w.
Proof.
  unfold writeAll. revert w. induction sizes as [|s sizes IH]; intros w; [reflexivity|].
  simpl. now rewrite IH.
Qed.

Lemma writeAll_trace img sizes w :
  trace (writeAll selected img sizes w) = trace w ++ map (fun s => EvCreate (out s)) sizes.
Proof.
  unfold writeAll. revert w. induction sizes as [|s sizes IH]; intros w; simpl.
  - now rewrite app_nil_r.
  - rewrite IH. simpl. now rewrite <- app_assoc.
Qed.

Lemma writeAll_other img sizes w k :
  ~ In k (map out sizes) ->
  fs (writeAll selected img sizes w) !! k = fs w !! k.
Proof.
  unfold writeAll. revert w. induction sizes as [|s sizes IH]; intros w Hk; [reflexivity|].
  simpl in Hk |- *. rewrite IH by tauto.
  simpl. apply lookup_insert_ne. intros E. apply Hk. now left.
Qed.

Lemma writeAll_file img sizes w s :
  In s sizes ->
  exists data, fs (writeAll selected img sizes w) !! out s = Some (RegularFile data).
Proof.
  revert w s. induction sizes as [|s0 sizes IH]; intros w s Hin; [contradiction|].
  destruct (in_dec string_dec (out s) (map out sizes)) as [Hlater | Hlast].
  - apply in_map_iff in Hlater. destruct Hlater as (s' & E & Hs').
    rewrite <- E. change (writeAll selected img (s0 :: sizes) w)
      with (writeAll selected img sizes (created (out s0) (pngOf img s0) w)).
    now apply IH.
  - exists (pngOf img s0).
    change (writeAll selected img (s0 :: sizes) w)
      with (writeAll selected img sizes (created (out s0) (pngOf img s0) w)).
    rewrite (writeAll_other img sizes _ _ Hlast). simpl.
    destruct Hin as [-> | Hin]; [apply lookup_insert_eq|].
    exfalso. apply Hlast. now apply in_map.
Qed.

Lemma writeAll_exact img sizes w s :
  List.NoDup (map out sizes) -> In s sizes ->
  fs (writeAll selected img sizes w) !! out s = Some (RegularFile (pngOf img s)).
Proof.
  revert w. induction sizes as [|s0 sizes IH]; intros w Hnd Hin; [contradiction|].
  simpl in Hnd. apply List.NoDup_cons_iff in Hnd. destruct Hnd as [Hfresh Hnd].
  change (writeAll selected img (s0 :: sizes) w)
    with (writeAll selected img sizes (created (out s0) (pngOf img s0) w)).
  destruct Hin as [-> | Hin].
  - rewrite (writeAll_other img sizes _ _ Hfresh). simpl.
    apply lookup_insert_eq.
  - now apply IH.
Qed.

(** *** The loop itself *)

Lemma convertSizes_cons img s rest w :
  convertSizes img base dir (s :: rest) w =
  match imaging.Save (raster img s) (out s) w with
  | (w1, Ok _) => convertSizes img base dir rest w1
  | (w1, Err e) => (w1, Err (saveError selected s e))
  end.
Proof.
  simpl. unfold bind, orWrap.
  change (imaging.Save _ _ w) with (imaging.Save (raster img s) (out s) w).
  destruct (imaging.Save (raster img s) (out s) w) as [w1 [[]|e]]; reflexivity.
Qed.

Lemma pngOf_encoded img s data :
  imaging_Encode PNG (raster img s) = Ok data -> pngOf img s = data.
Proof. intros E. unfold pngOf. now rewrite E. Qed.

(** A run of the loop that succeeds wrote every file, in order. *)
Lemma convertSizes_ok img sizes w w' :
  Forall sizeOk sizes ->
  convertSizes img base dir sizes w = (w', Ok tt) ->
  w' = writeAll selected img sizes w /\
  Forall (fun s => imaging_Encode PNG (raster img s) = Ok (pngOf img s) /\
                   out s ∉ denied w) sizes /\
  (sizes <> [] -> fs w !! dir = Some Directory).
Proof.
  intros Hok. revert w. induction Hok as [|s sizes Hs Hok IH]; intros w.
  - simpl. intros [= <-]. repeat split; [constructor | contradiction].
  - rewrite convertSizes_cons.
    destruct (imaging.Save (raster img s) (out s) w) as [w1 [[]|e]] eqn:Es; [|discriminate].
    intros Hrest. apply Save_ok in Es. destruct Es as (f & data & Hf & He & Hc & ->).
    rewrite out_format in Hf by assumption. injection Hf as <-.
    rewrite out_clean in *. apply out_creatable in Hc; [|assumption].
    destruct Hc as (_ & Hdir & Hden).
    rewrite <- (pngOf_encoded _ _ _ He) in *.
    destruct (IH _ Hrest) as (-> & Hall & _).
    split; [reflexivity|]. split; [|auto].
    constructor; [split | exact Hall]; [|exact Hden].
    now rewrite (pngOf_encoded _ _ _ He).
Qed.

(** When the bundle directory exists, the encoder accepts every raster
    and no output name is refused or taken by a directory, the loop
    succeeds. *)
Lemma convertSizes_succeeds img sizes w :
  Forall sizeOk sizes ->
  Forall (fun s => is_ok (imaging_Encode PNG (raster img s)) = true /\
                   (out s ∉ denied w) /\ fs w !! out s <> Some Directory) sizes ->
  fs w !! dir = Some Directory ->
  convertSizes img base dir sizes w = (writeAll selected img sizes w, Ok tt).
Proof.
  intros Hok. revert w. induction Hok as [|s sizes Hs Hok IH]; intros w Hall Hdir.
  - reflexivity.
  - inversion Hall as [|? ? (He & Hden & Hnd) Hrest]; subst.
    rewrite convertSizes_cons.
    destruct (imaging_Encode PNG (raster img s)) as [data|] eqn:Ee; [|discriminate].
    rewrite (Save_succeeds _ _ _ PNG data); auto.
    + rewrite out_clean, <- (pngOf_encoded _ _ _ Ee).
      apply IH.
      * eapply Forall_impl; [exact Hrest|]. simpl.
        intros s' (He' & Hden' & Hnd'). repeat split; auto.
        destruct (decide (out s = out s')) as [E|Hne].
        -- rewrite <- E, lookup_insert_eq. discriminate.
        -- now rewrite lookup_insert_ne.
      * simpl. rewrite lookup_insert_ne; [assumption | now apply out_not_dir].
    + now apply out_format.
    + apply out_creatable; auto.
Qed.

(** A run of the loop that fails stopped at the first entry whose [Save]
    failed: earlier entries were saved, later ones never reached. *)
Lemma convertSizes_err img sizes w w' err :
  convertSizes img base dir sizes w = (w', Err err) ->
  exists pre s post w2 e,
    sizes = pre ++ s :: post /\
    convertSizes img base dir pre w = (w2, Ok tt) /\
    imaging.Save (raster img s) (out s) w2 = (w', Err e) /\
    err = saveError selected s e.
Proof.
  revert w. induction sizes as [|s sizes IH]; intros w; [discriminate|].
  rewrite convertSizes_cons.
  destruct (imaging.Save (raster img s) (out s) w) as [w1 [[]|e]] eqn:Es.
  - intros Hrest. destruct (IH _ Hrest) as (pre & s' & post & w2 & e & -> & Hpre & Hs' & ->).
    exists (s :: pre), s', post, w2, e. repeat split; auto.
    rewrite convertSizes_cons, Es. exact Hpre.
  - intros [= <- <-]. exists [], s, sizes, w, e. repeat split; auto.
Qed.

Lemma convertSizes_stops img pre s post w w2 w3 e :
  convertSizes img base dir pre w = (w2, Ok tt) ->
  imaging.Save (raster img s) (out s) w2 = (w3, Err e) ->
  convertSizes img base dir (pre ++ s :: post) w = (w3, Err (saveError selected s e)).
Proof.
  revert w. induction pre as [|s0 pre IH]; intros w.
  - simpl app. intros [= <-] Hs. now rewrite convertSizes_cons, Hs.
  - simpl app. rewrite !convertSizes_cons.
    destruct (imaging.Save (raster img s0) (out s0) w) as [w1 [[]|e0]]; [|discriminate].
    apply IH.
Qed.

End Loop.

(** ** [processImage] *)

Section Pipeline.
Import GoString filepath.
Context `{Libraries}.

Lemma Open_cases name w w' r :
  os.Open name w = (w', r) ->
  w' = w /\
  match r with
  | Ok file =>
      os.fileName file = name /\
      match os.contents file with
      | Some data => os.Stat name w = Some (RegularFile data) /\ namesFile name
      | None => os.Stat name w = Some Directory
      end
  | Err e =>
      e = PathError "open" name ENOENT \/ e = PathError "open" name ENOTDIR
  end.
Proof.
  unfold os.Open. destruct (os.Stat name w) as [[data|]|] eqn:Es.
  - destruct (os.namesDirectory name) eqn:En; intros [= <- <-]; split; auto.
    simpl. repeat split; auto.
    intros ->. unfold os.Stat in Es. discriminate.
  - intros [= <- <-]. simpl. auto.
  - intros [= <- <-]. auto.
Qed.

(** The decode step never changes the world; it yields an image exactly
    when the selected name is a regular file whose bytes the selected
    decoder accepts. *)
Lemma decodeStep_cases rev selected w w' r :
  decodeStep rev selected w = (w', r) ->
  w' = w /\
  match r with
  | Ok img =>
      exists data,
        os.Stat selected w = Some (RegularFile data) /\ namesFile selected /\
        runDecoder (selectDecoder rev (ToLower (Ext selected))) data = Ok img
  | Err e =>
      (exists e0, os.Open selected w = (w, Err e0) /\
                  e = Wrapped "failed to open file: " e0) \/
      (exists file e0, os.Open selected w = (w, Ok file) /\
                  decodeFile (selectDecoder rev (ToLower (Ext selected))) file = Err e0 /\
                  e = Wrapped "failed to decode image: " e0)
  end.
Proof.
  unfold decodeStep, bind, orWrap, lift.
  destruct (os.Open selected w) as [w1 [file|e0]] eqn:Eo.
  - pose proof (Open_cases _ _ _ _ Eo) as [-> Hf]. simpl in Hf.
    destruct (decodeFile _ file) as [img|e1] eqn:Ed; intros [= <- <-]; split; auto.
    + unfold decodeFile in Ed. destruct Hf as [_ Hf].
      destruct (os.contents file) as [data|].
      * exists data. tauto.
      * destruct (selectDecoder _ _); discriminate.
    + right. eauto.
  - pose proof (Open_cases _ _ _ _ Eo) as [-> _].
    intros [= <- <-]. split; auto. left. eauto.
Qed.

Lemma decodeStep_succeeds rev selected w data img :
  os.Stat selected w = Some (RegularFile data) ->
  os.namesDirectory selected = false ->
  runDecoder (selectDecoder rev (ToLower (Ext selected))) data = Ok img ->
  decodeStep rev selected w = (w, Ok img).
Proof.
  intros Hs Hn Hd. unfold decodeStep, bind, orWrap, lift, os.Open.
  rewrite Hs, Hn. unfold decodeFile. simpl. now rewrite Hd.
Qed.

Lemma processImage_unfold rev a w :
  processImage rev a w =
  match decodeStep rev (selectedFile a) w with
  | (w1, Ok img) => writeBundle (selectedFile a) img w1
  | (w1, Err e) => (w1, Err e)
  end.
Proof.
  unfold processImage, decodeStep, writeBundle, bind, orWrap, lift.
  destruct (os.Open (selectedFile a) w) as [w1 [file|e]]; [|reflexivity].
  destruct (decodeFile _ file); reflexivity.
Qed.

Lemma writeBundle_unfold selected img w :
  writeBundle selected img w =
  match os.MkdirAll (bundleDirOf selected) w with
  | (w1, Ok _) =>
      convertSizes img (baseFilenameOf selected) (bundleDirOf selected) emoteSizes w1
  | (w1, Err e) => (w1, Err (Wrapped "failed to create output directory: " e))
  end.
Proof.
  unfold writeBundle, bind, orWrap.
  destruct (os.MkdirAll (bundleDirOf selected) w) as [w1 [[]|e]]; reflexivity.
Qed.

(** What a successful run did: decoded once, made the bundle directory,
    and wrote the files of the catalog in order. *)
Lemma processImage_ok rev a w w' :
  processImage rev a w = (w', Ok tt) ->
  exists data img wm,
    os.Stat (selectedFile a) w = Some (RegularFile data) /\
    namesFile (selectedFile a) /\
    runDecoder (selectDecoder rev (ToLower (Ext (selectedFile a)))) data = Ok img /\
    os.MkdirAll (bundleDirOf (selectedFile a)) w = (wm, Ok tt) /\
    w' = writeAll (selectedFile a) img emoteSizes wm /\
    Forall (fun s => imaging_Encode PNG (raster img s) = Ok (pngOf img s) /\
                     outputPath (selectedFile a) s ∉ denied wm) emoteSizes.
Proof.
  rewrite processImage_unfold.
  destruct (decodeStep rev (selectedFile a) w) as [w1 [img|e]] eqn:Ed; [|discriminate].
  apply decodeStep_cases in Ed. destruct Ed as (-> & data & Hs & Hf & Hd).
  rewrite writeBundle_unfold.
  destruct (os.MkdirAll (bundleDirOf (selectedFile a)) w) as [wm [[]|e]] eqn:Em;
    [|discriminate].
  intros Hc. apply convertSizes_ok in Hc; [|assumption | apply emoteSizes_ok].
  destruct Hc as (-> & Hall & _).
  exists data, img, wm. repeat split; auto; apply Hf.
Qed.

Lemma createdPaths_app t1 t2 :
  createdPaths (t1 ++ t2) = createdPaths t1 ++ createdPaths t2.
Proof. unfold createdPaths. apply omap_app. Qed.

Lemma createdPaths_mkdirs dirs : createdPaths (map EvMkdir dirs) = [].
Proof. induction dirs; simpl; auto. Qed.

Lemma createdPaths_creates (paths : list string) :
  createdPaths (map EvCreate paths) = paths.
Proof.
  induction paths as [|p paths IH]; [reflexivity|].
  change (createdPaths (map EvCreate (p :: paths)))
    with (p :: createdPaths (map EvCreate paths)).
  now rewrite IH.
Qed.

End Pipeline.

(** * The claims *)

Section Claims.
Import GoString filepath.
Context `{Libraries}.

Lemma NoDup_map_via {X Y Z : Type} (f : X -> Y) (g : X -> Z) (l : list X) :
  (forall x y, In x l -> In y l -> f x = f y -> g x = g y) ->
  List.NoDup (map g l) -> List.NoDup (map f l).
Proof.
  induction l as [|a l IH]; intros Hinj Hnd; simpl; [constructor|].
  simpl in Hnd. apply List.NoDup_cons_iff in Hnd. destruct Hnd as [Hfresh Hnd].
  apply List.NoDup_cons_iff. split.
  - intros Hin. apply in_map_iff in Hin. destruct Hin as (b & E & Hb).
    apply Hfresh. apply in_map_iff. exists b. split; [|assumption].
    symmetry. apply Hinj; simpl; auto.
  - apply IH; [|assumption]. intros x y Hx Hy. apply Hinj; simpl; auto.
Qed.

Lemma suffixes_distinct : List.NoDup (map suffixOf emoteSizes).
Proof. apply NoDup_ListNoDup, (bool_decide_unpack _). vm_compute. exact I. Qed.

Lemma outputFilenames_distinct base : List.NoDup (map (outputFilename base) emoteSizes).
Proof.
  apply (NoDup_map_via _ suffixOf); [|apply suffixes_distinct].
  intros x y _ _ E. rewrite !outputFilename_suffix in E.
  now apply string_app_inv_head in E.
Qed.

Lemma outputPaths_distinct selected :
  namesFile selected -> List.NoDup (map (outputPath selected) emoteSizes).
Proof.
  intros Hsel. apply (NoDup_map_via _ suffixOf); [|apply suffixes_distinct].
  intros x y Hx Hy. pose proof emoteSizes_ok as Hok.
  rewrite List.Forall_forall in Hok. apply out_inj; auto.
Qed.

Lemma mkdir_keeps_created w wm :
  extendsByDirs w wm -> createdPaths (trace wm) = createdPaths (trace w).
Proof.
  intros (_ & _ & dirs & ->).
  now rewrite createdPaths_app, createdPaths_mkdirs, app_nil_r.
Qed.

Lemma writeAll_created selected img sizes w :
  createdPaths (trace (writeAll selected img sizes w)) =
  createdPaths (trace w) ++ map (outputPath selected) sizes.
Proof.
  rewrite writeAll_trace, createdPaths_app. f_equal.
  rewrite <- (createdPaths_creates (map (outputPath selected) sizes)).
  now rewrite map_map.
Qed.

Lemma dir_not_output selected sizes :
  namesFile selected -> Forall sizeOk sizes ->
  ~ In (bundleDirOf selected) (map (outputPath selected) sizes).
Proof.
  intros Hsel Hok Hin. apply in_map_iff in Hin. destruct Hin as (s & E & Hs).
  rewrite List.Forall_forall in Hok. now apply (out_not_dir selected Hsel s (Hok s Hs)).
Qed.

(** *** The Resize-Fill transform *)

Lemma scale_exact (src target : Z) :
  1 <= src -> (inject_Z src * (target # Z.to_pos src) == inject_Z target)%Q.
Proof.
  intros Hs. unfold Qeq, Qmult, inject_Z. cbn [Qnum Qden].
  rewrite Pos.mul_1_l, Z2Pos.id by lia. ring.
Qed.

Lemma roundQ_Z (z : Z) : roundQ (inject_Z z) = z.
Proof.
  unfold roundQ, Qfloor, Qplus, inject_Z. simpl.
  symmetry. apply (Z.div_unique _ _ _ 1); lia.
Qed.

Lemma roundQ_le (p q : Q) : (p <= q)%Q -> roundQ p <= roundQ q.
Proof.
  intros Hpq. unfold roundQ. apply Qfloor_resp_le.
  apply Qplus_le_compat; [assumption | apply Qle_refl].
Qed.

Lemma roundQ_eq (p q : Q) : (p == q)%Q -> roundQ p = roundQ q.
Proof. intros E. unfold roundQ. now rewrite E. Qed.

(** The scaled image covers the target, and meets it on one axis. *)
Lemma scaledSize_covers (srcW srcH targetW targetH : Z) :
  1 <= srcW -> 1 <= srcH ->
  let '(scaledW, scaledH) := scaledSize srcW srcH targetW targetH in
  targetW <= scaledW /\ targetH <= scaledH /\
  (scaledW = targetW \/ scaledH = targetH).
Proof.
  intros Hw Hh. unfold scaledSize, scaleFactor.
  set (fw := (targetW # Z.to_pos srcW)%Q). set (fh := (targetH # Z.to_pos srcH)%Q).
  assert (Hsw : (0 <= inject_Z srcW)%Q) by (unfold Qle, inject_Z; simpl; lia).
  assert (Hsh : (0 <= inject_Z srcH)%Q) by (unfold Qle, inject_Z; simpl; lia).
  split; [|split].
  - rewrite <- (roundQ_Z targetW) at 1.
    apply roundQ_le. rewrite <- (scale_exact srcW targetW Hw).
    rewrite !(Qmult_comm (inject_Z srcW)).
    apply Qmult_le_compat_r; [apply Q.le_max_l | assumption].
  - rewrite <- (roundQ_Z targetH) at 1.
    apply roundQ_le. rewrite <- (scale_exact srcH targetH Hh).
    rewrite !(Qmult_comm (inject_Z srcH)).
    apply Qmult_le_compat_r; [apply Q.le_max_r | assumption].
  - destruct (Q.max_spec fw fh) as [[_ E] | [_ E]].
    + right. transitivity (roundQ (inject_Z targetH)); [|apply roundQ_Z].
      apply roundQ_eq. rewrite E. now apply scale_exact.
    + left. transitivity (roundQ (inject_Z targetW)); [|apply roundQ_Z].
      apply roundQ_eq. rewrite E. now apply scale_exact.
Qed.

Lemma catalog_positive :
  Forall (fun s => 1 <= Width s /\ 1 <= Height s) emoteSizes.
Proof. repeat constructor; simpl; lia. Qed.

(** *** Failures *)

Lemma NoDup_app_disjoint {X} (l1 l2 : list X) (x : X) :
  List.NoDup (l1 ++ l2) -> In x l1 -> In x l2 -> False.
Proof.
  induction l1 as [|b l1 IH]; simpl; [tauto|].
  intros Hnd [-> | Hin] Hin2; apply List.NoDup_cons_iff in Hnd; destruct Hnd as [Hf Hnd].
  - apply Hf. apply in_or_app. now right.
  - now apply IH.
Qed.

Lemma Forall_app_parts {X} (P : X -> Prop) (l1 l2 : list X) :
  Forall P (l1 ++ l2) -> Forall P l1 /\ Forall P l2.
Proof. apply Forall_app. Qed.

(** *** Decoding *)

Lemma magic_head m ms n (data : list byte) :
  matchMagic (m :: ms) (firstn (S n) data) = true -> Byte.eqb m x3f = false ->
  exists tl, data = m :: tl.
Proof.
  destruct data as [|b tl]; simpl; [discriminate|]. intros Hm Hq.
  apply andb_prop in Hm. destruct Hm as [Hm _]. rewrite Hq, orb_false_r in Hm.
  apply byte_dec_bl in Hm. subst. eauto.
Qed.

Ltac sniff_skip m b tl :=
  let E := fresh "E" in
  assert (E : matchMagic m (firstn (length m) (b :: tl)) = false) by reflexivity;
  rewrite E; clear E.

Lemma sniff_gif data :
  matchMagic gifMagic (firstn 6 data) = true ->
  image_Decode registeredFormats data = gif_Decode data.
Proof.
  intros Hm. unfold image_Decode, sniff, registeredFormats. cbn [find magic].
  change (length gifMagic) with 6%nat. now rewrite Hm.
Qed.

Lemma sniff_jpeg data :
  matchMagic jpegMagic (firstn 2 data) = true ->
  image_Decode registeredFormats data = jpeg_Decode data.
Proof.
  intros Hm. destruct (magic_head _ _ _ _ Hm eq_refl) as [tl ->].
  unfold image_Decode, sniff, registeredFormats. cbn [find magic].
  sniff_skip gifMagic xff tl.
  change (length jpegMagic) with 2%nat. now rewrite Hm.
Qed.

Lemma sniff_png data :
  matchMagic pngMagic (firstn 8 data) = true ->
  image_Decode registeredFormats data = png_Decode data.
Proof.
  intros Hm. destruct (magic_head _ _ _ _ Hm eq_refl) as [tl ->].
  unfold image_Decode, sniff, registeredFormats. cbn [find magic].
  sniff_skip gifMagic x89 tl. sniff_skip jpegMagic x89 tl.
  change (length pngMagic) with 8%nat. now rewrite Hm.
Qed.

Lemma sniff_webp data :
  matchMagic webpMagic (firstn 15 data) = true ->
  image_Decode registeredFormats data = webp_Decode data.
Proof.
  intros Hm. destruct (magic_head _ _ _ _ Hm eq_refl) as [tl ->].
  unfold image_Decode, sniff, registeredFormats. cbn [find magic].
  sniff_skip gifMagic x52 tl. sniff_skip jpegMagic x52 tl. sniff_skip pngMagic x52 tl.
  change (length webpMagic) with 15%nat. now rewrite Hm.
Qed.

Lemma sniff_bmp data :
  matchMagic bmpMagic (firstn 10 data) = true ->
  image_Decode registeredFormats data = bmp_Decode data.
Proof.
  intros Hm. destruct (magic_head _ _ _ _ Hm eq_refl) as [tl ->].
  unfold image_Decode, sniff, registeredFormats. cbn [find magic].
  sniff_skip gifMagic x42 tl. sniff_skip jpegMagic x42 tl. sniff_skip pngMagic x42 tl.
  sniff_skip webpMagic x42 tl.
  change (length bmpMagic) with 10%nat. now rewrite Hm.
Qed.

Lemma sniff_tiff_le data :
  matchMagic tiffLeHeader (firstn 4 data) = true ->
  image_Decode registeredFormats data = tiff_Decode data.
Proof.
  intros Hm. destruct (magic_head _ _ _ _ Hm eq_refl) as [tl ->].
  unfold image_Decode, sniff, registeredFormats. cbn [find magic].
  sniff_skip gifMagic x49 tl. sniff_skip jpegMagic x49 tl. sniff_skip pngMagic x49 tl.
  sniff_skip webpMagic x49 tl. sniff_skip bmpMagic x49 tl.
  change (length tiffLeHeader) with 4%nat. now rewrite Hm.
Qed.

Lemma sniff_tiff_be data :
  matchMagic tiffBeHeader (firstn 4 data) = true ->
  image_Decode registeredFormats data = tiff_Decode data.
Proof.
  intros Hm. destruct (magic_head _ _ _ _ Hm eq_refl) as [tl ->].
  unfold image_Decode, sniff, registeredFormats. cbn [find magic].
  sniff_skip gifMagic x4d tl. sniff_skip jpegMagic x4d tl. sniff_skip pngMagic x4d tl.
  sniff_skip webpMagic x4d tl. sniff_skip bmpMagic x4d tl. sniff_skip tiffLeHeader x4d tl.
  change (length tiffBeHeader) with 4%nat. now rewrite Hm.
Qed.

(** [gif.Decode] returns the first of the images [gif.DecodeAll] returns,
    and the first image read whatever comes after it. *)
Lemma gif_Decode_first_read data frame rest ending :
  gif_frames data = Ok (frame :: rest, ending) -> gif_Decode data = Ok frame.
Proof. intros Hf. unfold gif_Decode, gif_decode. now rewrite Hf. Qed.

Lemma gif_DecodeAll_frames data frames :
  gif_DecodeAll data = Ok frames ->
  frames <> [] /\ gif_frames data = Ok (frames, None).
Proof.
  unfold gif_DecodeAll, gif_decode.
  destruct (gif_frames data) as [[fr [e|]]|e]; try discriminate.
  destruct fr as [|f fr]; [discriminate|]. intros [= <-]. split; [discriminate | reflexivity].
Qed.

Lemma gif_Decode_first data frame rest :
  gif_DecodeAll data = Ok (frame :: rest) -> gif_Decode data = Ok frame.
Proof.
  intros Hall. apply gif_DecodeAll_frames in Hall. destruct Hall as [_ Hf].
  now apply (gif_Decode_first_read data frame rest None).
Qed.

(** No registered magic starts with the first byte of an EBML header. *)
Lemma sniff_ebml data :
  firstn 4 data = [x1a; x45; xdf; xa3] ->
  image_Decode registeredFormats data = Err ErrFormat.
Proof.
  destruct data as [|b tl]; [discriminate|]. simpl. intros [= -> _].
  reflexivity.
Qed.

Lemma decodeStep_regular rev selected w data :
  os.Stat selected w = Some (RegularFile data) ->
  os.namesDirectory selected = false ->
  decodeStep rev selected w =
  (w, match runDecoder (selectDecoder rev (ToLower (Ext selected))) data with
      | Ok img => Ok img
      | Err e => Err (Wrapped "failed to decode image: " e)
      end).
Proof.
  intros Hs Hn. unfold decodeStep, bind, orWrap, lift, os.Open.
  rewrite Hs, Hn. unfold decodeFile. simpl.
  destruct (runDecoder _ data); reflexivity.
Qed.

Lemma sniff_nothing data :
  Forall (fun f => matchMagic (magic f) (firstn (length (magic f)) data) = false)
         registeredFormats ->
  image_Decode registeredFormats data = Err ErrFormat.
Proof.
  intros Hall. unfold image_Decode, sniff.
  rewrite List.Forall_forall in Hall.
  destruct (find _ registeredFormats) as [f|] eqn:E; [|reflexivity].
  apply find_some in E. destruct E as [Hin Hm].
  rewrite (Hall f Hin) in Hm. discriminate.
Qed.

(** *** What the window lets through *)

Lemma validate_allowed rev path :
  validateSelection rev path = true <-> In (ToLower (Ext path)) (allowList rev).
Proof.
  unfold validateSelection. generalize (ToLower (Ext path)) as e. intros e.
  destruct rev; unfold validExts, allowList; simpl;
    rewrite !lookup_insert, ?lookup_singleton;
    repeat case_decide; subst; simpl; intuition congruence.
Qed.

Lemma accepted_ext rev path :
  validateSelection rev path = true -> Ext path <> "" /\ Ext path <> ".".
Proof.
  intros Hv. apply validate_allowed in Hv.
  split; intros E; rewrite E in Hv; destruct rev; simpl in Hv; intuition discriminate.
Qed.

Lemma accepted_namesFile rev path : validateSelection rev path = true -> namesFile path.
Proof.
  intros Hv. destruct (accepted_ext rev path Hv) as [H1 H2]. split.
  - intros ->. now apply H1.
  - apply bool_decide_eq_false. intros Hlast.
    destruct (path_split (chars path)) as (Hl & _ & He & Hpre). cbv zeta in Hl, He, Hpre.
    rewrite He in Hlast.
    assert (Hrev : List.rev (chars path) =
                   takeElement (List.rev (chars path)) ++ dropElement (List.rev (chars path)))
      by apply take_drop_element.
    assert (Hd : dropElement (List.rev (chars path)) = [] \/
                 exists r, dropElement (List.rev (chars path)) = Separator :: r)
      by apply dropElement_head.
    assert (Ht : takeElement (List.rev (chars path)) = [] \/
                 takeElement (List.rev (chars path)) = ["."%char] \/
                 takeElement (List.rev (chars path)) = ["."%char; "."%char]).
    { destruct Hlast as [E | [E | E]]; apply (f_equal (@List.rev _)) in E;
        rewrite rev_involutive in E; rewrite E; auto. }
    unfold Ext in H1, H2. rewrite Hrev in H1, H2.
    destruct Ht as [Ht | [Ht | Ht]]; rewrite Ht in H1, H2.
    + destruct Hd as [Hd | [r Hd]]; rewrite Hd in H1; now apply H1.
    + now apply H2.
    + now apply H2.
Qed.

Lemma loadPreview_keeps w a :
  selectedFile (loadPreview w a) = selectedFile a /\
  convertBtn (loadPreview w a) = convertBtn a /\
  dialogs (loadPreview w a) = dialogs a.
Proof.
  unfold loadPreview. destruct (decide _); [auto|].
  destruct (os.Open (selectedFile a) w) as [w1 [[fname [data|]]|e]]; auto.
Qed.

Lemma selectFile_consistent rev res w a :
  consistent rev a -> consistent rev (selectFile rev res w a).
Proof.
  intros [Hbtn Hsel]. destruct res as [err | | path]; simpl; [split; assumption | split; assumption |].
  destruct (validateSelection rev path) eqn:Hv; simpl; [|split; assumption].
  pose proof (accepted_namesFile rev path Hv) as [Hne _].
  assert (E : selectedFile (match rev with
                            | Baseline => loadPreview w (mkApp path ("Selected: " +:+ Base path)
                                                               (convertBtn a) (dialogs a))
                            | Extended => mkApp path ("Selected: " +:+ Base path)
                                                (convertBtn a) (dialogs a)
                            end) = path).
  { destruct rev; [|reflexivity]. now destruct (loadPreview_keeps w
      (mkApp path ("Selected: " +:+ Base path) (convertBtn a) (dialogs a))) as [-> _]. }
  split; simpl; rewrite E; [tauto | now right].
Qed.

Lemma convertAndSave_consistent rev a w :
  consistent rev a -> consistent rev (fst (convertAndSave rev a w)).
Proof.
  intros [Hbtn Hsel]. unfold convertAndSave.
  destruct (decide (selectedFile a = "")) as [E|Hne]; [split; assumption|].
  destruct (processImage rev _ w) as [w' [[]|err]]; simpl; split; simpl; tauto.
Qed.

Lemma setupUI_consistent rev s act :
  consistent rev (fst s) -> consistent rev (fst (setupUI rev s act)).
Proof.
  intros Hc. destruct act as [res|]; simpl.
  - now apply selectFile_consistent.
  - now apply convertAndSave_consistent.
Qed.

Lemma main_consistent rev actions w : consistent rev (fst (main rev actions w)).
Proof.
  unfold main.
  assert (Hgen : forall s, consistent rev (fst s) ->
                           consistent rev (fst (fold_left (setupUI rev) actions s))).
  { induction actions as [|act actions IH]; intros s Hs; [exact Hs|].
    simpl. apply IH. now apply setupUI_consistent. }
  apply Hgen. split; simpl; [|now left]. split; [discriminate | contradiction].
Qed.

(** *** The claims *)

(** C1: a run that succeeds decoded the selected file and created exactly
    one file per catalog entry, in catalog order and at pairwise distinct
    paths; each path is the bundle directory [<inputDir>/<base>_emote_bundle],
    a separator and [<base>-<platform>-<variant>-<width>x<height>.png]; the
    bundle directory exists, each file holds the PNG encoding of the
    raster of its entry, and nothing else changed but directories made.
    For [cat.png] the eleven files are listed. *)
Theorem convert_writes_one_png_per_entry rev a w w' :
  processImage rev a w = (w', Ok tt) ->
  let sel := selectedFile a in
  createdPaths (trace w') = createdPaths (trace w) ++ map (outputPath sel) emoteSizes /\
  List.NoDup (map (outputPath sel) emoteSizes) /\
  length (map (outputPath sel) emoteSizes) = 11%nat /\
  bundleDirOf sel = Join [Dir sel; baseFilenameOf sel +:+ "_emote_bundle"] /\
  fs w' !! bundleDirOf sel = Some Directory /\
  (exists img,
      decodeStep rev sel w = (w, Ok img) /\
      forall s, In s emoteSizes ->
        outputPath sel s =
          bundleDirOf sel +:+ "/" +:+ baseFilenameOf sel +:+ "-" +:+ Platform s +:+ "-" +:+
          Name s +:+ "-" +:+ itoa (Width s) +:+ "x" +:+ itoa (Height s) +:+ ".png" /\
        imaging.FormatFromFilename (outputPath sel s) = Ok PNG /\
        exists data,
          imaging_Encode PNG (Fill img (Width s) (Height s) Center Lanczos) = Ok data /\
          fs w' !! outputPath sel s = Some (RegularFile data)) /\
  (forall k, ~ In k (map (outputPath sel) emoteSizes) ->
             fs w' !! k = fs w !! k \/ (fs w !! k = None /\ fs w' !! k = Some Directory)) /\
  (sel = "cat.png" ->
   map (outputPath sel) emoteSizes =
     [ "cat_emote_bundle/cat-Discord-Small-28x28.png";
       "cat_emote_bundle/cat-Discord-Medium-32x32.png";
       "cat_emote_bundle/cat-Discord-Large-48x48.png";
       "cat_emote_bundle/cat-Discord-Animated-128x128.png";
       "cat_emote_bundle/cat-Twitch-1.0-28x28.png";
       "cat_emote_bundle/cat-Twitch-2.0-56x56.png";
       "cat_emote_bundle/cat-Twitch-3.0-112x112.png";
       "cat_emote_bundle/cat-7TV-1x-32x32.png";
       "cat_emote_bundle/cat-7TV-2x-64x64.png";
       "cat_emote_bundle/cat-7TV-3x-96x96.png";
       "cat_emote_bundle/cat-7TV-4x-128x128.png" ]).
Proof.
  intros Hrun sel.
  destruct (processImage_ok _ _ _ _ Hrun) as (data & img & wm & Hst & Hsel & Hdec & Hmk & -> & Hall).
  fold sel in Hst, Hsel, Hdec, Hmk, Hall |- *.
  apply MkdirAll_ok in Hmk. destruct Hmk as [Hdir Hext].
  pose proof emoteSizes_ok as Hok.
  pose proof (dir_clean sel Hsel) as [Hclean Hne].
  split. { now rewrite writeAll_created, (mkdir_keeps_created w wm). }
  split. { now apply outputPaths_distinct. }
  split. { reflexivity. }
  split. { reflexivity. }
  split.
  { rewrite writeAll_other by now apply dir_not_output.
    unfold os.Stat in Hdir. destruct (decide (bundleDirOf sel = "")); [contradiction|].
    now rewrite Hclean in Hdir. }
  split.
  { exists img. split.
    { destruct Hsel as [? Hnd]. now apply (decodeStep_succeeds _ _ _ data). }
    intros s Hs. rewrite List.Forall_forall in Hok, Hall.
    specialize (Hok s Hs). destruct (Hall s Hs) as [Henc _].
    split; [now apply out_eq|]. split; [now apply out_format|].
    exists (pngOf img s). split; [exact Henc|].
    apply writeAll_exact; [now apply outputPaths_distinct | assumption]. }
  split.
  { intros k Hk. rewrite writeAll_other by assumption.
    destruct Hext as (_ & Hfs & _). apply Hfs. }
  intros ->. reflexivity.
Qed.

(** C2: for every catalog entry and every source of at least one pixel
    each way, Resize-Fill returns a raster of exactly the entry's width
    and height.  It is the source resized with the Lanczos filter by the
    uniform factor [max(targetW/srcW, targetH/srcH)], which covers the
    target and meets it on one axis, cropped to the target around the
    centre: the pixel [(x, y)] of the result is the pixel
    [(x + x0, y + y0)] of the scaled image, where the overhang left on the
    two sides of each axis differs by at most one. *)
Theorem fill_yields_target_dimensions (s : EmoteSize) (src : Image) :
  In s emoteSizes -> 1 <= Dx src -> 1 <= Dy src ->
  let out := Fill src (Width s) (Height s) Center Lanczos in
  let f := scaleFactor (Dx src) (Dy src) (Width s) (Height s) in
  let scaled :=
    Resize src (roundQ (inject_Z (Dx src) * f)) (roundQ (inject_Z (Dy src) * f)) Lanczos in
  let x0 := (Dx scaled - Width s) ÷ 2 in
  let y0 := (Dy scaled - Height s) ÷ 2 in
  Dx out = Width s /\ Dy out = Height s /\
  (f == Qmax (inject_Z (Width s) / inject_Z (Dx src))
             (inject_Z (Height s) / inject_Z (Dy src)))%Q /\
  Width s <= Dx scaled /\ Height s <= Dy scaled /\
  (Dx scaled = Width s \/ Dy scaled = Height s) /\
  (forall x y, At scaled x y = resample Lanczos src (Dx scaled) (Dy scaled) x y) /\
  (forall x y, At out x y = At scaled (x + x0) (y + y0)) /\
  0 <= x0 /\ 0 <= (Dx scaled - Width s) - 2 * x0 <= 1 /\
  0 <= y0 /\ 0 <= (Dy scaled - Height s) - 2 * y0 <= 1 /\
  raster src s = out.
Proof.
  intros Hin Hw Hh.
  pose proof catalog_positive as Hpos. rewrite List.Forall_forall in Hpos.
  destruct (Hpos s Hin) as [Htw Hth].
  pose proof (scaledSize_covers (Dx src) (Dy src) (Width s) (Height s) Hw Hh) as Hc.
  unfold scaledSize in Hc. cbv zeta in Hc |- *.
  set (f := scaleFactor (Dx src) (Dy src) (Width s) (Height s)) in *.
  set (sw := roundQ (inject_Z (Dx src) * f)) in *.
  set (sh := roundQ (inject_Z (Dy src) * f)) in *.
  destruct Hc as (Hcw & Hch & Hone).
  assert (Hx : 0 <= (sw - Width s) ÷ 2 /\ 0 <= sw - Width s - 2 * ((sw - Width s) ÷ 2) <= 1)
    by (Z.to_euclidean_division_equations; lia).
  assert (Hy : 0 <= (sh - Height s) ÷ 2 /\ 0 <= sh - Height s - 2 * ((sh - Height s) ÷ 2) <= 1)
    by (Z.to_euclidean_division_equations; lia).
  assert (Hfill : Fill src (Width s) (Height s) Center Lanczos =
                  mkImage (Width s) (Height s)
                    (fun x y => resample Lanczos src sw sh
                                  (x + (sw - Width s) ÷ 2) (y + (sh - Height s) ÷ 2))).
  { unfold Fill.
    replace (Width s <=? 0) with false by (symmetry; apply Z.leb_gt; lia).
    replace (Height s <=? 0) with false by (symmetry; apply Z.leb_gt; lia).
    replace (Dx src <=? 0) with false by (symmetry; apply Z.leb_gt; lia).
    replace (Dy src <=? 0) with false by (symmetry; apply Z.leb_gt; lia).
    simpl orb. cbv iota. unfold scaledSize. fold f. fold sw. fold sh.
    unfold CropAnchor, anchorPt, Resize, Crop. simpl Dx. simpl Dy. cbv zeta.
    rewrite !Z.max_r by lia. rewrite !Z.min_r by lia.
    replace (_ <=? _) with false by (symmetry; apply Z.leb_gt; lia).
    replace (_ <=? _) with false by (symmetry; apply Z.leb_gt; lia).
    simpl orb. cbv iota. f_equal; lia. }
  unfold raster. rewrite Hfill. simpl.
  repeat split; try tauto; try lia.
  unfold f, scaleFactor.
  assert (Hq : forall t d : Z, 1 <= d -> (t # Z.to_pos d == inject_Z t / inject_Z d)%Q).
  { intros t d Hd. unfold Qdiv, Qinv, Qmult, Qeq, inject_Z. simpl.
    destruct d as [|d|d]; try lia. simpl. lia. }
  rewrite (Hq _ _ Hw), (Hq _ _ Hh). reflexivity.
Qed.

(** C3: the selection check accepts a path exactly when its extension,
    lower-cased, is in the allow-list of the revision; [clip.mp4] is
    rejected and [art.jpeg] accepted; the check reads the name only, so
    in any world the callback of the file dialog selects an accepted path
    and leaves the selection alone for a rejected one. *)
Theorem validateSelection_iff_allowed :
  (forall rev path,
      validateSelection rev path = true <-> In (ToLower (Ext path)) (allowList rev)) /\
  (forall rev, validateSelection rev "clip.mp4" = false /\
               validateSelection rev "art.jpeg" = true /\
               validateSelection rev "ART.JPeG" = true) /\
  (forall rev path w a,
      selectedFile (selectFile rev (DialogFile path) w a) =
      if validateSelection rev path then path else selectedFile a).
Proof.
  split; [|split].
  - intros rev path. unfold validateSelection.
    generalize (ToLower (Ext path)) as e. intros e.
    destruct rev; unfold validExts, allowList; simpl;
      rewrite !lookup_insert, ?lookup_singleton;
      repeat case_decide; subst; simpl; intuition congruence.
  - intros rev. destruct rev; repeat split; reflexivity.
  - intros rev path w a. unfold selectFile.
    destruct (validateSelection rev path); simpl; [|reflexivity].
    destruct rev; [|reflexivity]. unfold loadPreview. simpl.
    destruct (decide (path = "")); [auto|].
    destruct (os.Open path w) as [w1 [[fname [data|]]|e]]; reflexivity.
Qed.

(** C4: once the image is decoded and the bundle directory made, a run
    that fails failed at the first catalog entry whose [Save] failed: the
    entries before it were saved and their files are still there with
    their content, the error reported is that entry's, wrapped with its
    file name, the world is the one that entry's [Save] left, the entries
    after it were never touched, and nothing that existed was removed. *)
Theorem first_save_failure_aborts_the_rest rev a w img wm w' err :
  let sel := selectedFile a in
  let out := outputPath sel in
  decodeStep rev sel w = (w, Ok img) ->
  os.MkdirAll (bundleDirOf sel) w = (wm, Ok tt) ->
  processImage rev a w = (w', Err err) ->
  exists pre s post e w2,
    emoteSizes = pre ++ s :: post /\
    convertSizes img (baseFilenameOf sel) (bundleDirOf sel) pre wm = (w2, Ok tt) /\
    imaging.Save (Fill img (Width s) (Height s) Center Lanczos) (out s) w2 = (w', Err e) /\
    err = Wrapped ("failed to save " +:+ outputFilename (baseFilenameOf sel) s +:+ ": ") e /\
    (trace w' = trace wm ++ map (fun x => EvCreate (out x)) pre \/
     trace w' = trace wm ++ map (fun x => EvCreate (out x)) (pre ++ [s])) /\
    (forall s', In s' pre -> fs w' !! out s' = Some (RegularFile (pngOf img s'))) /\
    (forall s', In s' post -> fs w' !! out s' = fs wm !! out s') /\
    (forall k, is_Some (fs wm !! k) -> is_Some (fs w' !! k)).
Proof.
  intros sel out Hdec Hmk Hrun. subst out.
  pose proof (decodeStep_cases _ _ _ _ _ Hdec) as (_ & data & _ & Hsel & _).
  rewrite processImage_unfold in Hrun. fold sel in Hrun. rewrite Hdec in Hrun.
  rewrite writeBundle_unfold, Hmk in Hrun.
  apply convertSizes_err in Hrun.
  destruct Hrun as (pre & s & post & w2 & e & Hsplit & Hpre & Hsave & ->).
  pose proof emoteSizes_ok as Hok. rewrite Hsplit in Hok.
  apply Forall_app_parts in Hok. destruct Hok as [Hokpre Hokpost].
  inversion Hokpost as [|? ? Hoks Hokpost']; subst.
  pose proof (outputPaths_distinct sel Hsel) as Hnd. rewrite Hsplit in Hnd.
  rewrite map_app in Hnd. simpl in Hnd.
  pose proof (List.NoDup_remove_1 _ _ _ Hnd) as Hnd1.
  apply List.NoDup_remove_2 in Hnd.
  apply List.NoDup_app_remove_r in Hnd1.
  destruct (convertSizes_ok sel Hsel img pre wm w2 Hokpre Hpre) as (Hw2 & _ & _).
  assert (Hs_pre : ~ In (outputPath sel s) (map (outputPath sel) pre)).
  { intros Hin. apply Hnd. apply in_or_app. now left. }
  assert (Hpost_pre : forall s', In s' post -> ~ In (outputPath sel s') (map (outputPath sel) pre)).
  { intros s' Hs' Hin. apply in_map_iff in Hin. destruct Hin as (x & E & Hx).
    pose proof (outputPaths_distinct sel Hsel) as Hd. rewrite Hsplit, map_app in Hd.
    apply (NoDup_app_disjoint _ _ (outputPath sel x) Hd); [now apply in_map|].
    simpl. right. rewrite E. now apply in_map. }
  assert (Hpost_s : forall s', In s' post -> outputPath sel s <> outputPath sel s').
  { intros s' Hs' E. apply Hnd. apply in_or_app. right. rewrite E. now apply in_map. }
  assert (Hcases : w' = w2 \/ w' = created (outputPath sel s) [] w2).
  { apply Save_err in Hsave. destruct Hsave as [-> | [_ ->]]; [now left|].
    right. now rewrite (out_clean sel Hsel). }
  exists pre, s, post, e, w2.
  split; [assumption|]. split; [assumption|]. split; [assumption|].
  split; [reflexivity|].
  split.
  { destruct Hcases as [-> | ->]; [left | right].
    - now rewrite Hw2, (writeAll_trace sel).
    - simpl. rewrite Hw2, (writeAll_trace sel), map_app, app_assoc. reflexivity. }
  split.
  { intros s' Hs'.
    assert (E : fs w2 !! outputPath sel s' = Some (RegularFile (pngOf img s')))
      by (rewrite Hw2; now apply writeAll_exact).
    destruct Hcases as [-> | ->]; [exact E|].
    simpl. rewrite lookup_insert_ne; [exact E|].
    intros Eq. apply Hs_pre. rewrite Eq. now apply in_map. }
  split.
  { intros s' Hs'.
    assert (E : fs w2 !! outputPath sel s' = fs wm !! outputPath sel s')
      by (rewrite Hw2; apply writeAll_other; auto).
    destruct Hcases as [-> | ->]; [exact E|].
    simpl. rewrite lookup_insert_ne; auto. }
  intros k Hk.
  assert (E : is_Some (fs w2 !! k)).
  { destruct (in_dec string_dec k (map (outputPath sel) pre)) as [Hin | Hnin].
    - apply in_map_iff in Hin. destruct Hin as (x & <- & Hx).
      rewrite Hw2. destruct (writeAll_file sel img pre wm x Hx) as [d ->]. eauto.
    - rewrite Hw2, (writeAll_other sel) by assumption. exact Hk. }
  destruct Hcases as [-> | ->]; [exact E|].
  simpl. destruct (decide (outputPath sel s = k)) as [<- | Hne].
  - rewrite lookup_insert_eq. eauto.
  - now rewrite lookup_insert_ne.
Qed.

(** C5: when the selected file opens but its bytes are refused by the
    decoder, [processImage] reports the decode failure and leaves the world
    as it was: no file is written and no bundle directory made, because
    decoding comes before [MkdirAll]; [convertAndSave] passes the same
    world on. *)
Theorem decode_failure_leaves_world_untouched rev a w file e :
  os.Open (selectedFile a) w = (w, Ok file) ->
  decodeFile (selectDecoder rev (ToLower (Ext (selectedFile a)))) file = Err e ->
  processImage rev a w = (w, Err (Wrapped "failed to decode image: " e)) /\
  snd (convertAndSave rev a w) = w /\
  createdPaths (trace (fst (processImage rev a w))) = createdPaths (trace w) /\
  fs (fst (processImage rev a w)) !! bundleDirOf (selectedFile a) =
    fs w !! bundleDirOf (selectedFile a).
Proof.
  intros Ho Hd.
  assert (Hp : processImage rev a w = (w, Err (Wrapped "failed to decode image: " e))).
  { rewrite processImage_unfold. unfold decodeStep, bind, orWrap, lift.
    now rewrite Ho, Hd. }
  split; [exact Hp|]. rewrite Hp. simpl. repeat split.
  unfold convertAndSave. destruct (decide (selectedFile a = "")); [reflexivity|].
  change (processImage rev (mkApp (selectedFile a) "Converting images..." false (dialogs a)) w)
    with (processImage rev a w).
  now rewrite Hp.
Qed.

(** C6: the catalog is the fixed, ordered list of the eleven required
    entries, the same in both revisions; no two entries share a platform
    and variant, so for every base name no two output file names, and for
    every selected file no two output paths, coincide. *)
Theorem catalog_fixed_and_collision_free :
  map (fun s => (Platform s, Name s, Width s, Height s)) emoteSizes =
    [ ("Discord", "Small", 28, 28); ("Discord", "Medium", 32, 32);
      ("Discord", "Large", 48, 48); ("Discord", "Animated", 128, 128);
      ("Twitch", "1.0", 28, 28); ("Twitch", "2.0", 56, 56);
      ("Twitch", "3.0", 112, 112);
      ("7TV", "1x", 32, 32); ("7TV", "2x", 64, 64);
      ("7TV", "3x", 96, 96); ("7TV", "4x", 128, 128) ] /\
  List.NoDup (map (fun s => (Platform s, Name s)) emoteSizes) /\
  (forall base, List.NoDup (map (outputFilename base) emoteSizes)) /\
  (forall selected, namesFile selected ->
                    List.NoDup (map (outputPath selected) emoteSizes)).
Proof.
  split; [reflexivity|]. split.
  { apply NoDup_ListNoDup, (bool_decide_unpack _). vm_compute. exact I. }
  split; [apply outputFilenames_distinct | apply outputPaths_distinct].
Qed.

(** C7, amended: for every file the selection check lets through, so for
    every file the window can hold, the decoder is the one the
    specification names for the lower-cased extension: that of the format
    for a hint among jpeg, png, gif and webp, and content sniffing for any
    other hint.  Sniffing is [image.Decode] over the formats registered in
    the program, which are gif, jpeg, png and webp and also bmp and tiff:
    the format whose magic matches decodes the bytes, and bytes that match
    none are refused with [ErrFormat].  The image decoded for a [.gif]
    name is the first image of the file: the first of those
    [gif.DecodeAll] returns, and the first one read even when what follows
    it is broken. *)
Theorem decoder_follows_extension_hint :
  (forall ext, selectDecoder Extended ext = specDecoder ext) /\
  (forall rev path,
      validateSelection rev path = true ->
      selectDecoder rev (ToLower (Ext path)) = specDecoder (ToLower (Ext path))) /\
  (forall rev actions w,
      let a := fst (main rev actions w) in
      selectedFile a = "" \/
      selectDecoder rev (ToLower (Ext (selectedFile a))) =
        specDecoder (ToLower (Ext (selectedFile a)))) /\
  (forall rev selected w data,
      os.Stat selected w = Some (RegularFile data) ->
      os.namesDirectory selected = false ->
      decodeStep rev selected w =
      (w, match runDecoder (selectDecoder rev (ToLower (Ext selected))) data with
          | Ok img => Ok img
          | Err e => Err (Wrapped "failed to decode image: " e)
          end)) /\
  (forall data,
      runDecoder JpegDecode data = jpeg_Decode data /\
      runDecoder PngDecode data = png_Decode data /\
      runDecoder GifDecode data = gif_Decode data /\
      runDecoder WebpDecode data = webp_Decode data /\
      runDecoder ImageDecode data = image_Decode registeredFormats data) /\
  map fname registeredFormats = ["gif"; "jpeg"; "png"; "webp"; "bmp"; "tiff"; "tiff"] /\
  (forall data,
      (matchMagic gifMagic (firstn 6 data) = true ->
       image_Decode registeredFormats data = gif_Decode data) /\
      (matchMagic jpegMagic (firstn 2 data) = true ->
       image_Decode registeredFormats data = jpeg_Decode data) /\
      (matchMagic pngMagic (firstn 8 data) = true ->
       image_Decode registeredFormats data = png_Decode data) /\
      (matchMagic webpMagic (firstn 15 data) = true ->
       image_Decode registeredFormats data = webp_Decode data) /\
      (matchMagic bmpMagic (firstn 10 data) = true ->
       image_Decode registeredFormats data = bmp_Decode data) /\
      (matchMagic tiffLeHeader (firstn 4 data) = true ->
       image_Decode registeredFormats data = tiff_Decode data) /\
      (matchMagic tiffBeHeader (firstn 4 data) = true ->
       image_Decode registeredFormats data = tiff_Decode data) /\
      (Forall (fun f => matchMagic (magic f) (firstn (length (magic f)) data) = false)
              registeredFormats ->
       image_Decode registeredFormats data = Err ErrFormat)) /\
  (forall data frame rest,
      gif_DecodeAll data = Ok (frame :: rest) -> gif_Decode data = Ok frame) /\
  (forall data frame rest ending,
      gif_frames data = Ok (frame :: rest, ending) -> gif_Decode data = Ok frame) /\
  (forall rev selected w data frame rest,
      ToLower (Ext selected) = ".gif" ->
      os.Stat selected w = Some (RegularFile data) ->
      os.namesDirectory selected = false ->
      gif_DecodeAll data = Ok (frame :: rest) ->
      decodeStep rev selected w = (w, Ok frame)).
Proof.
  assert (Hacc : forall rev path,
            validateSelection rev path = true ->
            selectDecoder rev (ToLower (Ext path)) = specDecoder (ToLower (Ext path))).
  { intros rev path Hv. apply validate_allowed in Hv.
    destruct rev; simpl in Hv;
      repeat (destruct Hv as [<- | Hv]; [reflexivity|]); contradiction. }
  split.
  { intros ext. unfold selectDecoder, specDecoder.
    repeat (destruct (decide _); try reflexivity). }
  split; [exact Hacc|].
  split.
  { intros rev actions w a. destruct (main_consistent rev actions w) as [_ Hs].
    fold a in Hs. destruct Hs as [E | Hv]; [now left | right; now apply Hacc]. }
  split; [apply decodeStep_regular|].
  split; [intros data; repeat split|].
  split; [reflexivity|].
  split.
  { intros data. split; [apply sniff_gif|]. split; [apply sniff_jpeg|].
    split; [apply sniff_png|]. split; [apply sniff_webp|]. split; [apply sniff_bmp|].
    split; [apply sniff_tiff_le|]. split; [apply sniff_tiff_be | apply sniff_nothing]. }
  split; [apply gif_Decode_first|].
  split; [apply gif_Decode_first_read|].
  intros rev selected w data frame rest Hext Hst Hnd Hall.
  rewrite (decodeStep_regular rev selected w data Hst Hnd), Hext.
  assert (Hsel : selectDecoder rev ".gif" = GifDecode) by (destruct rev; reflexivity).
  rewrite Hsel. simpl. now rewrite (gif_Decode_first data frame rest Hall).
Qed.

(** C8, amended: a run that succeeds returns the nil error and nothing
    else.  Its files were created in catalog order, and [convertAndSave]
    then shows the same success text and dialog whatever the selection was:
    neither the bundle directory nor a list of paths is passed on. *)
Theorem success_is_reported_without_paths rev a w w' :
  processImage rev a w = (w', Ok tt) ->
  createdPaths (trace w') =
    createdPaths (trace w) ++ map (outputPath (selectedFile a)) emoteSizes /\
  convertAndSave rev a w =
    (mkApp (selectedFile a) "Conversion completed successfully!" true
           (dialogs a ++
            [InformationDialog "Success" "All emote sizes have been created and saved!"]),
     w').
Proof.
  intros Hrun.
  destruct (processImage_ok _ _ _ _ Hrun) as (data & img & wm & Hst & Hsel & _ & Hmk & Hw & _).
  split.
  - apply MkdirAll_ok in Hmk. destruct Hmk as [_ Hext].
    now rewrite Hw, writeAll_created, (mkdir_keeps_created w wm).
  - unfold convertAndSave. destruct Hsel as [Hne _].
    destruct (decide (selectedFile a = "")); [contradiction|].
    change (processImage rev (mkApp (selectedFile a) "Converting images..." false (dialogs a)) w)
      with (processImage rev a w).
    now rewrite Hrun.
Qed.

(** C9: after a run that succeeded, a second run on the same selection
    succeeds too.  The input file is not among the outputs, so it decodes
    as before; [MkdirAll] finds the bundle directory and returns without
    making anything; the same eleven paths are created again, in the same
    order, over the files of the first run, and the file system ends as
    the first run left it. *)
Theorem second_run_overwrites_in_place rev a w w1 :
  processImage rev a w = (w1, Ok tt) ->
  let sel := selectedFile a in
  exists w2,
    processImage rev a w1 = (w2, Ok tt) /\
    os.MkdirAll (bundleDirOf sel) w1 = (w1, Ok tt) /\
    createdPaths (trace w1) = createdPaths (trace w) ++ map (outputPath sel) emoteSizes /\
    trace w2 = trace w1 ++ map (fun s => EvCreate (outputPath sel s)) emoteSizes /\
    (forall s, In s emoteSizes ->
               exists data, fs w1 !! outputPath sel s = Some (RegularFile data) /\
                            fs w2 !! outputPath sel s = Some (RegularFile data)) /\
    fs w2 = fs w1 /\
    fs w1 !! Clean sel = fs w !! Clean sel.
Proof.
  intros Hrun sel.
  destruct (processImage_ok _ _ _ _ Hrun)
    as (data & img & wm & Hst & Hsel & Hdec & Hmk & Hw1 & Hall).
  fold sel in Hst, Hsel, Hdec, Hmk, Hw1, Hall.
  pose proof (MkdirAll_ok _ _ _ Hmk) as [Hdir Hext].
  pose proof emoteSizes_ok as Hok.
  pose proof (outputPaths_distinct sel Hsel) as Hnd.
  pose proof (dir_clean sel Hsel) as [Hclean Hne].
  assert (Hdirm : fs wm !! bundleDirOf sel = Some Directory).
  { unfold os.Stat in Hdir. destruct (decide (bundleDirOf sel = "")); [contradiction|].
    now rewrite Hclean in Hdir. }
  assert (Hdir1 : fs w1 !! bundleDirOf sel = Some Directory).
  { rewrite Hw1, writeAll_other; [assumption | now apply dir_not_output]. }
  assert (Hinput : fs w1 !! Clean sel = fs w !! Clean sel).
  { rewrite Hw1, writeAll_other.
    - destruct Hext as (_ & Hfs & _). destruct (Hfs (Clean sel)) as [E | [E _]]; [exact E|].
      unfold os.Stat in Hst. destruct Hsel as [Hn _].
      destruct (decide (sel = "")); [contradiction|]. congruence.
    - intros Hin. apply in_map_iff in Hin. destruct Hin as (s & E & Hs).
      rewrite List.Forall_forall in Hok.
      now apply (out_not_input sel Hsel s (Hok s Hs)). }
  assert (Hst1 : os.Stat sel w1 = Some (RegularFile data)).
  { unfold os.Stat in *. destruct (decide (sel = "")); [discriminate|]. congruence. }
  assert (Hmk1 : os.MkdirAll (bundleDirOf sel) w1 = (w1, Ok tt)).
  { apply MkdirAll_exists. unfold os.Stat.
    destruct (decide (bundleDirOf sel = "")); [contradiction|]. now rewrite Hclean. }
  assert (Hloop : convertSizes img (baseFilenameOf sel) (bundleDirOf sel) emoteSizes w1 =
                  (writeAll sel img emoteSizes w1, Ok tt)).
  { apply convertSizes_succeeds; try assumption.
    rewrite List.Forall_forall in Hall |- *. intros s Hs.
    destruct (Hall s Hs) as [Henc Hden]. split; [now rewrite Henc|]. split.
    - now rewrite Hw1, writeAll_denied.
    - rewrite Hw1. destruct (writeAll_file sel img emoteSizes wm s Hs) as [d ->].
      discriminate. }
  exists (writeAll sel img emoteSizes w1).
  assert (Hsame : forall s, In s emoteSizes ->
            fs w1 !! outputPath sel s = Some (RegularFile (pngOf img s)) /\
            fs (writeAll sel img emoteSizes w1) !! outputPath sel s =
              Some (RegularFile (pngOf img s))).
  { intros s Hs. split; [rewrite Hw1|]; now apply writeAll_exact. }
  split.
  { rewrite processImage_unfold. fold sel.
    destruct Hsel as [? Hndir].
    rewrite (decodeStep_succeeds rev sel w1 data img Hst1 Hndir Hdec).
    now rewrite writeBundle_unfold, Hmk1. }
  split; [exact Hmk1|].
  split. { now rewrite Hw1, writeAll_created, (mkdir_keeps_created w wm). }
  split. { apply writeAll_trace. }
  split. { intros s Hs. exists (pngOf img s). now apply Hsame. }
  split; [|exact Hinput].
  apply map_eq. intros k.
  destruct (in_dec string_dec k (map (outputPath sel) emoteSizes)) as [Hin | Hnin].
  - apply in_map_iff in Hin. destruct Hin as (s & <- & Hs).
    destruct (Hsame s Hs) as [-> ->]. reflexivity.
  - now apply writeAll_other.
Qed.

(** C10: in the extended revision a name ending in [.webm] passes the
    selection check and its bytes go to [image.Decode].  When they carry
    the magic of PNG, JPEG, GIF or WebP (or of BMP or TIFF, which are
    registered too) and that decoder accepts them, the run continues with
    the decoded image exactly as for any other input, and it writes the
    whole bundle whenever the file system takes the writes; bytes that
    start with the EBML header of a WebM file match no registered format,
    and the run ends with a decode error and the world unchanged. *)
Theorem webm_name_is_sniffed (a : App) (w : World) (data : list byte) :
  let sel := selectedFile a in
  ToLower (Ext sel) = ".webm" ->
  os.Stat sel w = Some (RegularFile data) ->
  os.namesDirectory sel = false ->
  validateSelection Extended sel = true /\
  selectDecoder Extended (ToLower (Ext sel)) = ImageDecode /\
  decodeStep Extended sel w =
    (w, match image_Decode registeredFormats data with
        | Ok img => Ok img
        | Err e => Err (Wrapped "failed to decode image: " e)
        end) /\
  (forall img,
      (matchMagic pngMagic (firstn 8 data) = true /\ png_Decode data = Ok img) \/
      (matchMagic jpegMagic (firstn 2 data) = true /\ jpeg_Decode data = Ok img) \/
      (matchMagic gifMagic (firstn 6 data) = true /\ gif_Decode data = Ok img) \/
      (matchMagic webpMagic (firstn 15 data) = true /\ webp_Decode data = Ok img) \/
      (matchMagic bmpMagic (firstn 10 data) = true /\ bmp_Decode data = Ok img) \/
      (matchMagic tiffLeHeader (firstn 4 data) = true /\ tiff_Decode data = Ok img) \/
      (matchMagic tiffBeHeader (firstn 4 data) = true /\ tiff_Decode data = Ok img) ->
      decodeStep Extended sel w = (w, Ok img) /\
      processImage Extended a w = writeBundle sel img w /\
      forall wm,
        os.MkdirAll (bundleDirOf sel) w = (wm, Ok tt) ->
        Forall (fun s => is_ok (imaging_Encode PNG (raster img s)) = true /\
                         (outputPath sel s ∉ denied wm) /\
                         fs wm !! outputPath sel s <> Some Directory) emoteSizes ->
        processImage Extended a w = (writeAll sel img emoteSizes wm, Ok tt) /\
        createdPaths (trace (writeAll sel img emoteSizes wm)) =
          createdPaths (trace w) ++ map (outputPath sel) emoteSizes) /\
  (firstn 4 data = [x1a; x45; xdf; xa3] ->
   processImage Extended a w = (w, Err (Wrapped "failed to decode image: " ErrFormat))).
Proof.
  intros sel Hext Hst Hnd.
  assert (Hstep := decodeStep_regular Extended sel w data Hst Hnd).
  rewrite Hext in Hstep. change (selectDecoder Extended ".webm") with ImageDecode in Hstep.
  change (runDecoder ImageDecode data) with (image_Decode registeredFormats data) in Hstep.
  split. { unfold validateSelection. now rewrite Hext. }
  split. { now rewrite Hext. }
  split; [exact Hstep|]. split.
  - intros img Himg.
    assert (Hd : image_Decode registeredFormats data = Ok img).
    { destruct Himg
        as [[Hm Hd] | [[Hm Hd] | [[Hm Hd] | [[Hm Hd] | [[Hm Hd] | [[Hm Hd] | [Hm Hd]]]]]]].
      - now rewrite sniff_png.
      - now rewrite sniff_jpeg.
      - now rewrite sniff_gif.
      - now rewrite sniff_webp.
      - now rewrite sniff_bmp.
      - now rewrite sniff_tiff_le.
      - now rewrite sniff_tiff_be. }
    rewrite Hd in Hstep.
    assert (Hp : processImage Extended a w = writeBundle sel img w).
    { rewrite processImage_unfold. fold sel. now rewrite Hstep. }
    split; [exact Hstep|]. split; [exact Hp|].
    intros wm Hmk Hall.
    assert (Hsel : namesFile sel).
    { split; [|assumption]. intros E. unfold os.Stat in Hst.
      destruct (decide (sel = "")); [discriminate | contradiction]. }
    pose proof (MkdirAll_ok _ _ _ Hmk) as [Hdir Hextd].
    pose proof (dir_clean sel Hsel) as [Hclean Hne].
    split.
    + rewrite Hp, writeBundle_unfold, Hmk.
      apply convertSizes_succeeds; try assumption; [apply emoteSizes_ok|].
      unfold os.Stat in Hdir. destruct (decide (bundleDirOf sel = "")); [contradiction|].
      now rewrite Hclean in Hdir.
    + now rewrite writeAll_created, (mkdir_keeps_created w wm).
  - intros Hebml. rewrite processImage_unfold. fold sel.
    now rewrite Hstep, (sniff_ebml data Hebml).
Qed.

End Claims.

(** * Further properties of the program

    What [processImage] does to the files whatever its outcome, how names
    are taken apart, what the window allows, and how runs compose. *)

Section Behaviour.
Import GoString filepath.
Context `{Libraries}.

Lemma footprint_refl outs w : footprint outs w w.
Proof. split; [reflexivity|]. intros k. now left. Qed.

Lemma footprint_trans outs w1 w2 w3 :
  footprint outs w1 w2 -> footprint outs w2 w3 -> footprint outs w1 w3.
Proof.
  intros [Hd1 H1] [Hd2 H2]. split; [congruence|]. intros k.
  destruct (H1 k) as [E1 | [[E1 E1'] | (Hin & Hnd & data & E1)]];
    destruct (H2 k) as [E2 | [[E2 E2'] | (Hin2 & Hnd2 & data2 & E2)]].
  - left. congruence.
  - right. left. split; congruence.
  - right. right. split; [assumption|]. split; [congruence | eauto].
  - right. left. split; congruence.
  - congruence.
  - congruence.
  - right. right. split; [assumption|]. split; [assumption|]. exists data. congruence.
  - congruence.
  - right. right. split; [assumption|]. split; [assumption | eauto].
Qed.

Lemma footprint_weaken outs outs' w w' :
  (forall k, In k outs -> In k outs') -> footprint outs w w' -> footprint outs' w w'.
Proof.
  intros Hsub [Hd Hk]. split; [assumption|]. intros k.
  destruct (Hk k) as [E | [E | (Hin & Hnd & E)]]; auto.
Qed.

Lemma extendsByDirs_footprint outs w w' : extendsByDirs w w' -> footprint outs w w'.
Proof.
  intros (Hd & Hfs & _). split; [assumption|]. intros k.
  destruct (Hfs k) as [E | E]; auto.
Qed.

Lemma created_footprint name data w :
  creatable name w -> footprint [Clean name] w (created (Clean name) data w).
Proof.
  intros (_ & _ & Hnd & _). split; [reflexivity|]. intros k. simpl.
  destruct (decide (Clean name = k)) as [<- | Hne].
  - right. right. rewrite lookup_insert_eq. split; [now left|]. split; [assumption | eauto].
  - left. now rewrite lookup_insert_ne.
Qed.

Lemma Save_footprint img name w w' r :
  imaging.Save img name w = (w', r) -> footprint [Clean name] w w'.
Proof.
  destruct r as [[]|e]; intros Hs.
  - apply Save_ok in Hs. destruct Hs as (f & data & _ & _ & Hc & ->).
    now apply created_footprint.
  - apply Save_err in Hs. destruct Hs as [-> | [Hc ->]].
    + apply footprint_refl.
    + now apply created_footprint.
Qed.

Lemma convertSizes_footprint selected img sizes w w' r :
  namesFile selected ->
  convertSizes img (baseFilenameOf selected) (bundleDirOf selected) sizes w = (w', r) ->
  footprint (map (outputPath selected) sizes) w w'.
Proof.
  intros Hsel. revert w. induction sizes as [|s rest IH]; intros w Hrun.
  - injection Hrun as <- _. apply footprint_refl.
  - rewrite (convertSizes_cons selected) in Hrun.
    destruct (imaging.Save (raster img s) (outputPath selected s) w) as [w1 [[]|e]] eqn:Hs;
      apply Save_footprint in Hs; rewrite (out_clean selected Hsel) in Hs.
    + apply (footprint_trans _ w w1).
      * apply (footprint_weaken [outputPath selected s]); [|assumption].
        intros k [<- | []]. now left.
      * apply (footprint_weaken (map (outputPath selected) rest)); [|now apply IH].
        intros k Hk. now right.
    + injection Hrun as <- _.
      apply (footprint_weaken [outputPath selected s]); [|assumption].
      intros k [<- | []]. now left.
Qed.

Lemma convertSizes_trace selected img sizes w w' r :
  namesFile selected ->
  convertSizes img (baseFilenameOf selected) (bundleDirOf selected) sizes w = (w', r) ->
  exists pre post,
    sizes = pre ++ post /\
    trace w' = trace w ++ map (fun s => EvCreate (outputPath selected s)) pre /\
    (r = Ok tt -> post = []).
Proof.
  intros Hsel. revert w. induction sizes as [|s rest IH]; intros w Hrun.
  - injection Hrun as <- <-. exists [], []. simpl. rewrite app_nil_r.
    repeat split; auto.
  - rewrite (convertSizes_cons selected) in Hrun.
    destruct (imaging.Save (raster img s) (outputPath selected s) w) as [w1 [[]|e]] eqn:Hs.
    + apply Save_ok in Hs. destruct Hs as (f & data & _ & _ & _ & ->).
      rewrite (out_clean selected Hsel) in Hrun.
      destruct (IH _ Hrun) as (pre & post & -> & Ht & Hok).
      exists (s :: pre), post. split; [reflexivity|]. split; [|assumption].
      rewrite Ht. simpl. now rewrite <- app_assoc.
    + injection Hrun as <- <-. apply Save_err in Hs. destruct Hs as [-> | [_ ->]].
      * exists [], (s :: rest). simpl. rewrite app_nil_r.
        repeat split; discriminate.
      * exists [s], rest. rewrite (out_clean selected Hsel). simpl.
        repeat split; discriminate.
Qed.

Lemma processImage_outcome rev a w w' r :
  processImage rev a w = (w', r) ->
  (w' = w /\ exists e, r = Err e /\ decodeStep rev (selectedFile a) w = (w, Err e)) \/
  (exists img data,
      decodeStep rev (selectedFile a) w = (w, Ok img) /\
      namesFile (selectedFile a) /\
      os.Stat (selectedFile a) w = Some (RegularFile data) /\
      writeBundle (selectedFile a) img w = (w', r)).
Proof.
  intros Hrun. rewrite processImage_unfold in Hrun.
  destruct (decodeStep rev (selectedFile a) w) as [w1 [img|e]] eqn:Hd;
    pose proof (decodeStep_cases _ _ _ _ _ Hd) as [-> Hcase].
  - right. destruct Hcase as (data & Hst & Hsel & _). now exists img, data.
  - left. injection Hrun as <- <-. split; [reflexivity|]. now exists e.
Qed.

Lemma writeBundle_footprint selected img w w' r :
  namesFile selected ->
  writeBundle selected img w = (w', r) ->
  footprint (map (outputPath selected) emoteSizes) w w'.
Proof.
  intros Hsel Hrun. rewrite writeBundle_unfold in Hrun.
  destruct (os.MkdirAll (bundleDirOf selected) w) as [wm [[]|e]] eqn:Hmk;
    apply mkdirChain_extends in Hmk.
  - apply (footprint_trans _ w wm); [now apply extendsByDirs_footprint|].
    now apply (convertSizes_footprint selected img emoteSizes wm w' r).
  - injection Hrun as <- _. now apply extendsByDirs_footprint.
Qed.

Lemma processImage_footprint rev a w w' r :
  processImage rev a w = (w', r) ->
  footprint (map (outputPath (selectedFile a)) emoteSizes) w w'.
Proof.
  intros Hrun. destruct (processImage_outcome _ _ _ _ _ Hrun)
    as [[-> _] | (img & data & _ & Hsel & _ & Hwb)].
  - apply footprint_refl.
  - now apply (writeBundle_footprint _ img w w' r).
Qed.

Lemma processImage_keeps_input rev a w :
  fs (fst (processImage rev a w)) !! Clean (selectedFile a) = fs w !! Clean (selectedFile a).
Proof.
  destruct (processImage rev a w) as [w' r] eqn:Hrun. simpl.
  destruct (processImage_outcome _ _ _ _ _ Hrun)
    as [[-> _] | (img & data & _ & Hsel & Hst & Hwb)]; [reflexivity|].
  apply (writeBundle_footprint _ img w w' r Hsel) in Hwb.
  destruct Hwb as [_ Hk].
  unfold os.Stat in Hst. destruct (decide (selectedFile a = "")); [discriminate|].
  destruct (Hk (Clean (selectedFile a))) as [E | [[E _] | (Hin & _)]].
  - exact E.
  - congruence.
  - exfalso. apply in_map_iff in Hin. destruct Hin as (s & E & Hs).
    pose proof emoteSizes_ok as Hok. rewrite List.Forall_forall in Hok.
    apply (out_not_input _ Hsel s (Hok s Hs)). now rewrite <- E.
Qed.

(** X1: whatever the outcome of a run, the selected file is left as it
    was: the name it is stored under holds after the run what it held
    before, [Stat] answers the same, and a file that could be opened can
    be opened again with the same bytes. *)
Theorem input_file_is_never_modified rev a w :
  fs (fst (processImage rev a w)) !! Clean (selectedFile a) =
    fs w !! Clean (selectedFile a) /\
  os.Stat (selectedFile a) (fst (processImage rev a w)) = os.Stat (selectedFile a) w /\
  (forall data, os.Stat (selectedFile a) w = Some (RegularFile data) ->
                os.Open (selectedFile a) (fst (processImage rev a w)) =
                (fst (processImage rev a w), snd (os.Open (selectedFile a) w))).
Proof.
  pose proof (processImage_keeps_input rev a w) as E.
  assert (Hst : os.Stat (selectedFile a) (fst (processImage rev a w)) =
                os.Stat (selectedFile a) w).
  { unfold os.Stat. destruct (decide (selectedFile a = "")); [reflexivity | exact E]. }
  split; [exact E|]. split; [exact Hst|].
  intros data Hd. unfold os.Open. rewrite Hst, Hd.
  destruct (os.namesDirectory (selectedFile a)); reflexivity.
Qed.

(** X2: whatever the outcome of a run, every name of the file system is
    left alone, or was free and is now a directory, or is one of the
    eleven output paths, held no directory and now holds a regular file.
    So nothing is removed, no directory is replaced by a file, and a
    regular file outside the output paths keeps its bytes. *)
Theorem run_touches_only_its_bundle rev a w :
  let w' := fst (processImage rev a w) in
  let outs := map (outputPath (selectedFile a)) emoteSizes in
  denied w' = denied w /\
  (forall k,
      fs w' !! k = fs w !! k \/
      (fs w !! k = None /\ fs w' !! k = Some Directory) \/
      (In k outs /\ fs w !! k <> Some Directory /\
       exists data, fs w' !! k = Some (RegularFile data))) /\
  (forall k, is_Some (fs w !! k) -> is_Some (fs w' !! k)) /\
  (forall k, fs w !! k = Some Directory -> fs w' !! k = Some Directory) /\
  (forall k, ~ In k outs -> forall data,
      fs w !! k = Some (RegularFile data) -> fs w' !! k = Some (RegularFile data)).
Proof.
  intros w' outs. subst w'.
  destruct (processImage rev a w) as [w' r] eqn:Hrun. simpl.
  destruct (processImage_footprint _ _ _ _ _ Hrun) as [Hd Hk]. fold outs in Hk.
  split; [exact Hd|]. split; [exact Hk|]. split; [|split].
  - intros k [x Hx]. destruct (Hk k) as [E | [[E _] | (_ & _ & data & E)]].
    + rewrite E, Hx. eauto.
    + congruence.
    + rewrite E. eauto.
  - intros k Hx. destruct (Hk k) as [E | [[E _] | (_ & Hnd & _)]]; congruence.
  - intros k Hnin data Hx. destruct (Hk k) as [E | [[E _] | (Hin & _)]];
      [congruence | congruence | contradiction].
Qed.


(** X3: whatever the outcome of a run, the calls it made are directories
    made first and then files created at the output paths of a prefix of
    the catalog, in catalog order; after a run that succeeds the prefix is
    the whole catalog. *)
Theorem run_makes_directories_then_files rev a w :
  let sel := selectedFile a in
  let run := processImage rev a w in
  exists dirs pre post,
    emoteSizes = pre ++ post /\
    trace (fst run) =
      trace w ++ map EvMkdir dirs ++ map (fun s => EvCreate (outputPath sel s)) pre /\
    createdPaths (trace (fst run)) = createdPaths (trace w) ++ map (outputPath sel) pre /\
    (snd run = Ok tt -> post = []).
Proof.
  intros sel run. subst run.
  assert (Hgoal : forall w' r, processImage rev a w = (w', r) ->
    exists dirs pre post,
      emoteSizes = pre ++ post /\
      trace w' = trace w ++ map EvMkdir dirs ++ map (fun s => EvCreate (outputPath sel s)) pre /\
      (r = Ok tt -> post = [])).
  { intros w' r Hrun.
    destruct (processImage_outcome _ _ _ _ _ Hrun)
      as [(-> & e & -> & _) | (img & data & _ & Hsel & _ & Hwb)].
    - exists [], [], emoteSizes. simpl. rewrite app_nil_r.
      repeat split; discriminate.
    - fold sel in Hsel, Hwb. rewrite writeBundle_unfold in Hwb.
      destruct (os.MkdirAll (bundleDirOf sel) w) as [wm [[]|e]] eqn:Hmk;
        apply mkdirChain_extends in Hmk; destruct Hmk as (_ & _ & dirs & Hdirs).
      + destruct (convertSizes_trace sel img emoteSizes wm w' r Hsel Hwb)
          as (pre & post & Hsplit & Ht & Hok).
        exists dirs, pre, post. split; [assumption|]. split; [|assumption].
        now rewrite Ht, Hdirs, <- app_assoc.
      + injection Hwb as <- <-. exists dirs, [], emoteSizes. simpl.
        rewrite app_nil_r. repeat split; [assumption | discriminate]. }
  destruct (processImage rev a w) as [w' r] eqn:Hrun. simpl.
  destruct (Hgoal w' r eq_refl) as (dirs & pre & post & Hsplit & Ht & Hok).
  exists dirs, pre, post. split; [assumption|]. split; [assumption|]. split; [|assumption].
  rewrite Ht, !createdPaths_app, createdPaths_mkdirs.
  replace (map (fun s => EvCreate (outputPath sel s)) pre)
    with (map EvCreate (map (outputPath sel) pre)) by apply List.map_map.
  now rewrite createdPaths_creates.
Qed.

Lemma failure_text rev a w w' err :
  processImage rev a w = (w', Err err) ->
  exists rest, errorString err = "failed to " +:+ rest.
Proof.
  intros Hrun.
  destruct (processImage_outcome _ _ _ _ _ Hrun)
    as [(-> & e & [= <-] & Hd) | (img & data & Hd & Hsel & _ & Hwb)].
  - destruct (decodeStep_cases _ _ _ _ _ Hd) as [_ Hcase]. simpl in Hcase.
    destruct Hcase as [(e0 & _ & ->) | (file & e0 & _ & _ & ->)]; simpl; eauto.
  - rewrite writeBundle_unfold in Hwb.
    destruct (os.MkdirAll (bundleDirOf (selectedFile a)) w) as [wm [[]|e]].
    + apply convertSizes_err in Hwb.
      destruct Hwb as (pre & s & post & w2 & e & _ & _ & _ & ->). simpl. eauto.
    + injection Hwb as _ <-. simpl. eauto.
Qed.

(** X4: the error of a run that fails names the step that failed.  It
    wraps the error of [os.Open], with the world unchanged; or that of the
    decoder, with the world unchanged; or that of [os.MkdirAll], and then
    no file was created; or that of [imaging.Save] for one catalog entry,
    whose file name is in the message, and then the bundle directory
    exists. *)
Theorem failure_names_its_stage rev a w w' err :
  processImage rev a w = (w', Err err) ->
  let sel := selectedFile a in
  (exists e, err = Wrapped "failed to open file: " e /\
             os.Open sel w = (w, Err e) /\ w' = w) \/
  (exists e file,
      err = Wrapped "failed to decode image: " e /\
      os.Open sel w = (w, Ok file) /\
      decodeFile (selectDecoder rev (ToLower (Ext sel))) file = Err e /\ w' = w) \/
  (exists e img,
      err = Wrapped "failed to create output directory: " e /\
      decodeStep rev sel w = (w, Ok img) /\
      os.MkdirAll (bundleDirOf sel) w = (w', Err e) /\
      extendsByDirs w w' /\
      createdPaths (trace w') = createdPaths (trace w)) \/
  (exists e s img,
      In s emoteSizes /\
      err = Wrapped ("failed to save " +:+ outputFilename (baseFilenameOf sel) s +:+ ": ") e /\
      decodeStep rev sel w = (w, Ok img) /\
      fs w' !! bundleDirOf sel = Some Directory).
Proof.
  intros Hrun sel.
  destruct (processImage_outcome _ _ _ _ _ Hrun)
    as [(-> & e & [= <-] & Hd) | (img & data & Hd & Hsel & _ & Hwb)].
  - fold sel in Hd. destruct (decodeStep_cases _ _ _ _ _ Hd) as [_ Hcase]. simpl in Hcase.
    destruct Hcase as [(e0 & Ho & ->) | (file & e0 & Ho & Hdec & ->)].
    + left. now exists e0.
    + right. left. now exists e0, file.
  - fold sel in Hd, Hsel, Hwb. right. right. rewrite writeBundle_unfold in Hwb.
    destruct (os.MkdirAll (bundleDirOf sel) w) as [wm [[]|e]] eqn:Hmk.
    + right. destruct (MkdirAll_ok _ _ _ Hmk) as [Hdir _].
      pose proof (dir_clean sel Hsel) as [Hclean Hne].
      unfold os.Stat in Hdir. destruct (decide (bundleDirOf sel = "")); [contradiction|].
      rewrite Hclean in Hdir.
      pose proof (convertSizes_footprint sel img emoteSizes wm w' _ Hsel Hwb) as [_ Hk].
      apply convertSizes_err in Hwb.
      destruct Hwb as (pre & s & post & w2 & e & Hsplit & _ & _ & ->).
      exists e, s, img. split. { rewrite Hsplit. apply in_or_app. right. now left. }
      split; [reflexivity|]. split; [assumption|].
      destruct (Hk (bundleDirOf sel)) as [E | [[E _] | (_ & Hnd & _)]]; congruence.
    + left. injection Hwb as <- <-. exists e, img.
      split; [reflexivity|]. split; [assumption|]. split; [reflexivity|].
      pose proof (mkdirChain_extends _ _ _ _ Hmk) as Hext.
      split; [assumption|]. now apply mkdir_keeps_created.
Qed.


(** *** The bundle directory and its folder *)

Lemma render_not_dot rooted st :
  goodStack rooted st -> st <> [] -> render rooted st <> "." /\ render rooted st <> "/".
Proof.
  intros Hg Hne. split; intros E;
    apply (f_equal (fun s => elements (chars s))) in E;
    rewrite elements_render in E by assumption.
  - change (elements (chars ".")) with [chars "."] in E.
    destruct rooted; [discriminate|]. simpl in E.
    destruct st as [|e [|e' st]]; [contradiction| |].
    + simpl in E. injection E as E. subst e. simpl in Hg.
      destruct Hg as [[(_ & Hd & _) _] | (_ & Hd & _)]; [now apply Hd | discriminate].
    + apply (f_equal (@length _)) in E. simpl in E. rewrite !length_app in E. simpl in E. lia.
  - change (elements (chars "/")) with [[]; @nil ascii] in E.
    assert (Hin : In [] st).
    { apply in_rev. destruct rooted; simpl in E.
      - injection E as E. rewrite E. now left.
      - rewrite E. now left. }
    apply goodStack_elements in Hg. rewrite List.Forall_forall in Hg.
    now destruct (Hg [] Hin) as [Hn _].
Qed.

Lemma bundle_cases sel :
  namesFile sel ->
  let X := baseFilenameOf sel +:+ "_emote_bundle" in
  plain (chars X) /\
  ((bundleDirOf sel = X /\ Dir sel = ".") \/
   (bundleDirOf sel = "/" +:+ X /\ Dir sel = "/") \/
   (bundleDirOf sel = Dir sel +:+ "/" +:+ X /\
    Dir sel <> "." /\ Dir sel <> "/" /\ Dir sel <> "" /\ Clean (Dir sel) = Dir sel)).
Proof.
  intros [Hne Hnd] X.
  destruct (selected_shape sel Hne Hnd) as (rooted & st & e & Hg & Hp & Hd & Hc & _).
  assert (HX : plain (chars X)) by now apply bundleName_plain, baseFilename_slashFree.
  split; [assumption|].
  assert (Hb : bundleDirOf sel = render rooted (chars X :: st)).
  { unfold bundleDirOf. rewrite Join2 by (rewrite Hd; now apply render_nonempty).
    rewrite Hd. fold X. rewrite <- (str_chars X) at 1.
    now apply Clean_render_join. }
  destruct st as [|e0 st].
  - destruct rooted; [right; left | left]; rewrite Hb, Hd; simpl;
      now rewrite ?str_chars.
  - right. right. rewrite Hb, Hd.
    destruct (render_not_dot rooted (e0 :: st) Hg) as [H1 H2]; [discriminate|].
    split. { rewrite render_push by discriminate. now rewrite str_chars. }
    split; [assumption|]. split; [assumption|].
    split; [now apply render_nonempty | now apply Clean_render].
Qed.

Lemma parentsOf_slashFree b l : slashFree l -> os.parentsOf b l = [].
Proof.
  intros Hl. revert b. induction Hl as [|c l Hc _ IH]; intros b; [reflexivity|].
  simpl. apply IsPathSeparator_false in Hc. now rewrite Hc.
Qed.

Lemma parentsOf_element b a rest :
  slashFree a -> a <> [] ->
  os.parentsOf b (a ++ Separator :: rest) =
  match rest with [] => [] | _ => rest :: os.parentsOf false rest end.
Proof.
  intros Ha. revert b. induction Ha as [|c a Hc Ha IH]; intros b Hne; [contradiction|].
  simpl. apply IsPathSeparator_false in Hc. rewrite Hc.
  destruct a as [|c' a'].
  - reflexivity.
  - now apply IH.
Qed.

Lemma parentOf_slashFree (f : string) : slashFree (chars f) -> os.parentOf f = "".
Proof.
  intros Hs. unfold os.parentOf.
  assert (Hr : slashFree (rev (chars f))) by now apply slashFree_rev.
  assert (Hd : forall l, slashFree l -> dropSeparators l = l).
  { intros l Hl. destruct Hl as [|c l Hc _]; [reflexivity|].
    simpl. apply IsPathSeparator_false in Hc. now rewrite Hc. }
  assert (He : forall l, slashFree l -> dropElement l = []).
  { intros l Hl. induction Hl as [|c l Hc _ IH]; [reflexivity|].
    simpl. apply IsPathSeparator_false in Hc. now rewrite Hc. }
  now rewrite Hd, He.
Qed.

(** [MkdirAll] on the bundle directory, when the folder of the selected
    file exists and the name is free: one [Mkdir]. *)
Lemma MkdirAll_bundle sel w :
  namesFile sel -> folderExists sel w ->
  fs w !! bundleDirOf sel = None ->
  os.MkdirAll (bundleDirOf sel) w =
  if decide (bundleDirOf sel ∈ denied w)
  then (w, Err (PathError "mkdir" (bundleDirOf sel) EACCES))
  else (madeDir (bundleDirOf sel) w, Ok tt).
Proof.
  intros Hsel Hf Hfree.
  pose proof (dir_clean sel Hsel) as [Hclean Hne].
  destruct (bundle_cases sel Hsel) as [HX Hcases]. cbv zeta in HX, Hcases.
  set (X := baseFilenameOf sel +:+ "_emote_bundle") in *.
  assert (Hst : os.Stat (bundleDirOf sel) w = None).
  { unfold os.Stat. destruct (decide _); [reflexivity|]. now rewrite Hclean. }
  assert (Hparents : os.mkdirChain
            (map (fun b => str (rev b)) (os.parentsOf false (rev (chars (bundleDirOf sel))))) w
          = (w, Ok tt) /\ os.parentExists (bundleDirOf sel) w = true).
  { pose proof HX as (HXn & _ & _ & HXs).
    assert (Hrn : rev (chars X) <> []).
    { intros E. apply (f_equal (@rev _)) in E. rewrite rev_involutive in E. contradiction. }
    destruct Hcases as [[Hb Hd] | [[Hb Hd] | (Hb & Hd1 & Hd2 & Hd3 & Hd4)]]; rewrite Hb.
    - split.
      + rewrite parentsOf_slashFree by now apply slashFree_rev. reflexivity.
      + unfold os.parentExists. rewrite parentOf_slashFree by assumption. reflexivity.
    - split.
      + rewrite chars_app. simpl chars. simpl rev.
        change (rev (chars X) ++ ["/"%char]) with (rev (chars X) ++ Separator :: []).
        rewrite (parentsOf_element false (rev (chars X)) []);
          [reflexivity | now apply slashFree_rev | assumption].
      + unfold os.parentExists.
        change ("/" +:+ X) with ("" +:+ String Separator "" +:+ X).
        rewrite parentOf_join by exact HX. reflexivity.
    - assert (HD : os.Stat (Dir sel) w = Some Directory).
      { unfold os.Stat. destruct (decide _); [contradiction|]. rewrite Hd4.
        destruct Hf as [E | [E | E]]; [contradiction | contradiction | exact E]. }
      split.
      + rewrite !chars_app. simpl chars at 2. rewrite rev_app_distr. simpl rev at 1.
        rewrite rev_app_distr. simpl rev at 2. rewrite <- app_assoc. simpl app.
        change ("/"%char) with Separator.
        rewrite (parentsOf_element false (rev (chars X)) (rev (chars (Dir sel))));
          [| now apply slashFree_rev | assumption].
        destruct (rev (chars (Dir sel))) as [|c r] eqn:E.
        { apply (f_equal (@rev _)) in E. rewrite rev_involutive in E.
          apply chars_nil in E. contradiction. }
        rewrite <- E. simpl map. rewrite rev_involutive, str_chars.
        simpl. now rewrite HD.
      + unfold os.parentExists.
        change (Dir sel +:+ "/" +:+ X) with (Dir sel +:+ String Separator "" +:+ X).
        rewrite parentOf_join by exact HX. rewrite HD.
        now rewrite orb_true_r. }
  destruct Hparents as [Hchain Hpe].
  unfold os.MkdirAll. simpl os.mkdirChain. rewrite Hst, Hchain.
  unfold os.Mkdir. destruct (decide (bundleDirOf sel = "")); [contradiction|].
  rewrite Hclean, Hfree, Hpe. simpl negb. cbv iota.
  destruct (decide (bundleDirOf sel ∈ denied w)); [|reflexivity].
  now rewrite Hst.
Qed.


Lemma MkdirAll_file path w data :
  os.Stat path w = Some (RegularFile data) ->
  os.MkdirAll path w = (w, Err (PathError "mkdir" path ENOTDIR)).
Proof. intros Hst. unfold os.MkdirAll. simpl. now rewrite Hst. Qed.

Lemma Stat_bundle sel w :
  namesFile sel -> os.Stat (bundleDirOf sel) w = fs w !! bundleDirOf sel.
Proof.
  intros Hsel. destruct (dir_clean sel Hsel) as [Hclean Hne].
  unfold os.Stat. destruct (decide _); [contradiction|]. now rewrite Hclean.
Qed.

(** What [MkdirAll] does on the bundle directory when the folder of the
    selected file exists. *)
Lemma MkdirAll_bundle_cases sel w :
  namesFile sel -> folderExists sel w ->
  os.MkdirAll (bundleDirOf sel) w =
  match fs w !! bundleDirOf sel with
  | Some Directory => (w, Ok tt)
  | Some (RegularFile _) => (w, Err (PathError "mkdir" (bundleDirOf sel) ENOTDIR))
  | None =>
      if decide (bundleDirOf sel ∈ denied w)
      then (w, Err (PathError "mkdir" (bundleDirOf sel) EACCES))
      else (madeDir (bundleDirOf sel) w, Ok tt)
  end.
Proof.
  intros Hsel Hf. pose proof (Stat_bundle sel w Hsel) as Hst.
  destruct (fs w !! bundleDirOf sel) as [[data|]|] eqn:E.
  - now apply (MkdirAll_file _ _ data).
  - now apply MkdirAll_exists.
  - now apply MkdirAll_bundle.
Qed.

Lemma convertSizes_dirs selected img sizes w w' r :
  namesFile selected ->
  convertSizes img (baseFilenameOf selected) (bundleDirOf selected) sizes w = (w', r) ->
  forall k, fs w' !! k = Some Directory -> fs w !! k = Some Directory.
Proof.
  intros Hsel.
  assert (Hc : forall key data w0 k,
             fs (created key data w0) !! k = Some Directory -> fs w0 !! k = Some Directory).
  { intros key data w0 k. simpl. destruct (decide (key = k)) as [-> | Hne].
    - rewrite lookup_insert_eq. discriminate.
    - now rewrite lookup_insert_ne. }
  revert w. induction sizes as [|s rest IH]; intros w Hrun k Hk.
  - injection Hrun as <- _. exact Hk.
  - rewrite (convertSizes_cons selected) in Hrun.
    destruct (imaging.Save (raster img s) (outputPath selected s) w) as [w1 [[]|e]] eqn:Hs.
    + apply Save_ok in Hs. destruct Hs as (f & data & _ & _ & _ & ->).
      apply (Hc (Clean (outputPath selected s)) data). now apply (IH _ Hrun).
    + injection Hrun as <- _. apply Save_err in Hs. destruct Hs as [-> | [_ ->]];
        [exact Hk | now apply (Hc (Clean (outputPath selected s)) [])].
Qed.

(** X5: when the name of the bundle directory is taken by a regular
    file, a run on an image that decodes fails with [mkdir <bundle>: not a
    directory] wrapped as a failure to create the output directory, and
    the world is left as it was. *)
Theorem bundle_name_taken_by_a_file rev a w img data :
  let sel := selectedFile a in
  decodeStep rev sel w = (w, Ok img) ->
  fs w !! bundleDirOf sel = Some (RegularFile data) ->
  processImage rev a w =
    (w, Err (Wrapped "failed to create output directory: "
               (PathError "mkdir" (bundleDirOf sel) ENOTDIR))) /\
  errorString (Wrapped "failed to create output directory: "
                 (PathError "mkdir" (bundleDirOf sel) ENOTDIR)) =
    "failed to create output directory: mkdir " +:+ bundleDirOf sel +:+ ": not a directory".
Proof.
  intros sel Hd Hfile. split; [|reflexivity].
  destruct (decodeStep_cases _ _ _ _ _ Hd) as (_ & data0 & _ & Hsel & _).
  rewrite processImage_unfold. fold sel. rewrite Hd, writeBundle_unfold.
  rewrite (MkdirAll_file _ _ data); [reflexivity|].
  now rewrite Stat_bundle.
Qed.

Lemma processImage_dirs rev a w :
  folderExists (selectedFile a) w ->
  forall k, fs (fst (processImage rev a w)) !! k = Some Directory ->
            fs w !! k = Some Directory \/ k = bundleDirOf (selectedFile a).
Proof.
  intros Hf k. destruct (processImage rev a w) as [w' r] eqn:Hrun. simpl.
  destruct (processImage_outcome _ _ _ _ _ Hrun)
    as [[-> _] | (img & data & _ & Hsel & _ & Hwb)]; [auto|].
  rewrite writeBundle_unfold in Hwb.
  rewrite (MkdirAll_bundle_cases _ w Hsel Hf) in Hwb.
  destruct (fs w !! bundleDirOf (selectedFile a)) as [[d|]|] eqn:E.
  - injection Hwb as <- _. auto.
  - intros Hk. left. now apply (convertSizes_dirs _ img emoteSizes w w' r Hsel Hwb).
  - destruct (decide _).
    + injection Hwb as <- _. auto.
    + intros Hk. apply (convertSizes_dirs _ img emoteSizes _ w' r Hsel Hwb) in Hk.
      simpl in Hk. destruct (decide (bundleDirOf (selectedFile a) = k)) as [<- | Hne]; [auto|].
      rewrite lookup_insert_ne in Hk by assumption. auto.
Qed.

(** X6: when the folder of the selected file exists, a run makes at most
    one directory, the bundle directory, and only when its name was free:
    every directory there is after the run was there before or is the
    bundle directory. *)
Theorem run_makes_at_most_the_bundle_directory rev a w :
  let sel := selectedFile a in
  let w' := fst (processImage rev a w) in
  folderExists sel w ->
  (exists dirs pre,
      (dirs = [] \/ (dirs = [bundleDirOf sel] /\ fs w !! bundleDirOf sel = None)) /\
      trace w' = trace w ++ map EvMkdir dirs ++ map (fun s => EvCreate (outputPath sel s)) pre) /\
  (forall k, fs w' !! k = Some Directory -> fs w !! k = Some Directory \/ k = bundleDirOf sel).
Proof.
  intros sel w' Hf. split; [|now apply processImage_dirs]. subst w'.
  destruct (processImage rev a w) as [w' r] eqn:Hrun. simpl.
  assert (Hstop : exists dirs pre,
      (dirs = [] \/ (dirs = [bundleDirOf sel] /\ fs w !! bundleDirOf sel = None)) /\
      trace w = trace w ++ map EvMkdir dirs ++ map (fun s => EvCreate (outputPath sel s)) pre).
  { exists [], []. split; [now left|]. simpl. now rewrite app_nil_r. }
  destruct (processImage_outcome _ _ _ _ _ Hrun)
    as [[-> _] | (img & data & _ & Hsel & _ & Hwb)]; [exact Hstop|].
  fold sel in Hsel, Hwb. rewrite writeBundle_unfold in Hwb.
  rewrite (MkdirAll_bundle_cases sel w Hsel Hf) in Hwb.
  assert (Hloop : forall wm dirs,
    (dirs = [] \/ (dirs = [bundleDirOf sel] /\ fs w !! bundleDirOf sel = None)) ->
    trace wm = trace w ++ map EvMkdir dirs ->
    convertSizes img (baseFilenameOf sel) (bundleDirOf sel) emoteSizes wm = (w', r) ->
    exists dirs pre,
      (dirs = [] \/ (dirs = [bundleDirOf sel] /\ fs w !! bundleDirOf sel = None)) /\
      trace w' = trace w ++ map EvMkdir dirs ++ map (fun s => EvCreate (outputPath sel s)) pre).
  { intros wm dirs Hdirs Ht Hc.
    destruct (convertSizes_trace sel img emoteSizes wm w' r Hsel Hc) as (pre & post & _ & Ht' & _).
    exists dirs, pre. split; [assumption|]. now rewrite Ht', Ht, <- app_assoc. }
  destruct (fs w !! bundleDirOf sel) as [[d|]|] eqn:E.
  - injection Hwb as <- _. exact Hstop.
  - apply (Hloop w []); auto. simpl. now rewrite app_nil_r.
  - destruct (decide (bundleDirOf sel ∈ denied w)).
    + injection Hwb as <- _. exact Hstop.
    + apply (Hloop (madeDir (bundleDirOf sel) w) [bundleDirOf sel]); auto.
Qed.

(** X7: when the folder of the selected file exists, a run succeeds
    exactly when the selected name holds a regular file that the decoder
    of its extension accepts, the bundle directory exists or its name is
    free and not refused, and for every catalog entry the encoder accepts
    the raster and the output path is not refused and is no directory. *)
Theorem run_succeeds_exactly_when rev a w :
  let sel := selectedFile a in
  folderExists sel w ->
  (exists w', processImage rev a w = (w', Ok tt)) <->
  (exists data img,
      os.Stat sel w = Some (RegularFile data) /\
      os.namesDirectory sel = false /\
      runDecoder (selectDecoder rev (ToLower (Ext sel))) data = Ok img /\
      (fs w !! bundleDirOf sel = Some Directory \/
       (fs w !! bundleDirOf sel = None /\ bundleDirOf sel ∉ denied w)) /\
      Forall (fun s =>
                is_ok (imaging_Encode PNG (Fill img (Width s) (Height s) Center Lanczos)) = true /\
                (outputPath sel s ∉ denied w) /\
                fs w !! outputPath sel s <> Some Directory) emoteSizes).
Proof.
  intros sel Hf. split.
  - intros [w' Hrun].
    pose proof (processImage_footprint _ _ _ _ _ Hrun) as [_ Hfoot]. fold sel in Hfoot.
    destruct (processImage_ok _ _ _ _ Hrun)
      as (data & img & wm & Hst & Hsel & Hdec & Hmk & Hw' & Hall).
    fold sel in Hst, Hsel, Hdec, Hmk, Hw', Hall.
    exists data, img. split; [assumption|]. split; [apply Hsel|]. split; [assumption|].
    rewrite (MkdirAll_bundle_cases sel w Hsel Hf) in Hmk.
    assert (Hden : denied wm = denied w).
    { destruct (fs w !! bundleDirOf sel) as [[d|]|]; try discriminate.
      - now injection Hmk as <-.
      - destruct (decide _); [discriminate|]. now injection Hmk as <-. }
    split.
    { destruct (fs w !! bundleDirOf sel) as [[d|]|]; try discriminate; [now left|].
      destruct (decide _); [discriminate|]. now right. }
    rewrite List.Forall_forall in Hall |- *. intros s Hs.
    destruct (Hall s Hs) as [Henc Hd]. split; [unfold raster in Henc; now rewrite Henc|].
    split; [now rewrite <- Hden|].
    destruct (writeAll_file sel img emoteSizes wm s Hs) as [d Hd'].
    rewrite <- Hw' in Hd'.
    destruct (Hfoot (outputPath sel s)) as [E | [[E _] | (_ & E & _)]]; congruence.
  - intros (data & img & Hst & Hnd & Hdec & Hbundle & Hall).
    assert (Hsel : namesFile sel).
    { split; [|assumption]. intros E. unfold os.Stat in Hst.
      destruct (decide (sel = "")); [discriminate | contradiction]. }
    pose proof emoteSizes_ok as Hok.
    rewrite processImage_unfold. fold sel.
    rewrite (decodeStep_succeeds rev sel w data img Hst Hnd Hdec), writeBundle_unfold.
    rewrite (MkdirAll_bundle_cases sel w Hsel Hf).
    destruct Hbundle as [E | [E Hnden]]; rewrite E.
    + eexists. apply convertSizes_succeeds; assumption.
    + destruct (decide _); [contradiction|]. eexists.
      apply convertSizes_succeeds; try assumption.
      * rewrite List.Forall_forall in Hall, Hok |- *. intros s Hs.
        destruct (Hall s Hs) as (H1 & H2 & H3). split; [assumption|]. split; [assumption|].
        simpl. rewrite lookup_insert_ne; [assumption|].
        intros Eq. now apply (out_not_dir sel Hsel s (Hok s Hs)).
      * simpl. apply lookup_insert_eq.
Qed.


(** *** Names: folder, stem and extension *)

Lemma extScan_free a r suf :
  slashFree a -> dotFree a -> extScan (a ++ r) suf = extScan r (rev a ++ suf).
Proof.
  intros Hs Hd. revert suf. induction a as [|c a IH]; intros suf; [reflexivity|].
  inversion Hs as [|? ? Hc Hs']; inversion Hd as [|? ? Hc' Hd']; subst.
  simpl. apply IsPathSeparator_false in Hc. rewrite Hc.
  destruct (decide (c = "."%char)); [contradiction|].
  rewrite IH by assumption. now rewrite <- app_assoc.
Qed.

Lemma rev_dirPart p :
  dirPart p -> rev (chars p) = [] \/ exists r, rev (chars p) = Separator :: r.
Proof.
  intros [-> | [d ->]]; [now left|]. right.
  rewrite chars_app, rev_app_distr. simpl. eauto.
Qed.

Lemma dropElement_free a r : slashFree a -> dropElement (a ++ r) = dropElement r.
Proof.
  induction 1 as [|c a Hc _ IH]; [reflexivity|].
  simpl. apply IsPathSeparator_false in Hc. now rewrite Hc.
Qed.

Lemma takeElement_free a r :
  slashFree a -> (r = [] \/ exists r', r = Separator :: r') -> takeElement (a ++ r) = a.
Proof.
  intros Ha Hr. induction Ha as [|c a Hc _ IH].
  - destruct Hr as [-> | [r' ->]]; reflexivity.
  - simpl. apply IsPathSeparator_false in Hc. now rewrite Hc, IH.
Qed.

Lemma TrimSuffix_app (a b : string) : TrimSuffix (a +:+ b) b = a.
Proof.
  unfold TrimSuffix. rewrite chars_app, rev_app_distr.
  assert (E : stripPrefix (rev (chars b)) (rev (chars b) ++ rev (chars a)) =
              Some (rev (chars a))) by now apply stripPrefix_Some.
  rewrite E. now rewrite rev_involutive, str_chars.
Qed.

Lemma rev_nonempty {X} (l : list X) : l <> [] -> rev l <> [].
Proof.
  intros Hne E. apply (f_equal (@rev _)) in E. rewrite rev_involutive in E. contradiction.
Qed.

(** A name without a dot has no extension, whatever the folder is called. *)
Lemma Ext_dotFree p n :
  dirPart p -> slashFree (chars n) -> dotFree (chars n) -> Ext (p +:+ n) = "".
Proof.
  intros Hp Hs Hd. unfold Ext. rewrite chars_app, rev_app_distr.
  rewrite extScan_free;
    [| now apply slashFree_rev | unfold dotFree; now apply Forall_rev].
  destruct (rev_dirPart p Hp) as [-> | [r ->]]; reflexivity.
Qed.

Lemma Ext_compose x e :
  slashFree (chars e) -> dotFree (chars e) -> Ext (x +:+ "." +:+ e) = "." +:+ e.
Proof.
  intros Hs Hd. unfold Ext. rewrite !chars_app, !rev_app_distr. simpl chars. simpl rev.
  rewrite <- app_assoc. simpl app.
  rewrite extScan_free;
    [| now apply slashFree_rev | unfold dotFree; now apply Forall_rev].
  simpl. now rewrite rev_involutive, app_nil_r, str_chars.
Qed.

Lemma Base_compose p n :
  dirPart p -> slashFree (chars n) -> n <> "" -> Base (p +:+ n) = n.
Proof.
  intros Hp Hs Hn. unfold Base.
  assert (Hcn : chars n <> []) by (intros E; now apply chars_nil in E).
  destruct (decide (p +:+ n = "")) as [E|_].
  { apply (f_equal chars) in E. rewrite chars_app in E. simpl in E.
    apply app_eq_nil in E. now destruct E. }
  rewrite chars_app, rev_app_distr.
  pose proof (slashFree_rev _ Hs) as Hr.
  destruct (rev (chars n)) as [|c r] eqn:E.
  { now apply rev_nonempty in Hcn. }
  inversion Hr as [|? ? Hc Hr']; subst. apply IsPathSeparator_false in Hc.
  simpl dropSeparators. rewrite Hc.
  change (c :: r ++ rev (chars p)) with ((c :: r) ++ rev (chars p)).
  rewrite takeElement_free; [| assumption | now apply rev_dirPart].
  rewrite <- E. now rewrite rev_involutive, str_chars.
Qed.

Lemma Dir_compose p n : dirPart p -> slashFree (chars n) -> Dir (p +:+ n) = Clean p.
Proof.
  intros Hp Hs. unfold Dir. rewrite chars_app, rev_app_distr.
  rewrite dropElement_free by now apply slashFree_rev.
  destruct (rev_dirPart p Hp) as [E | [r E]]; rewrite E.
  - simpl. apply (f_equal (@rev _)) in E. rewrite rev_involutive in E. simpl in E.
    apply chars_nil in E. now subst.
  - change (dropElement (Separator :: r)) with (Separator :: r).
    rewrite <- E. now rewrite rev_involutive, str_chars.
Qed.

Lemma name_parts p stem e :
  dirPart p -> slashFree (chars stem) -> slashFree (chars e) -> dotFree (chars e) ->
  let path := p +:+ stem +:+ "." +:+ e in
  Ext path = "." +:+ e /\
  Base path = stem +:+ "." +:+ e /\
  baseFilenameOf path = stem /\
  Dir path = Clean p.
Proof.
  intros Hp Hs He Hd path. subst path.
  assert (Hn : slashFree (chars (stem +:+ "." +:+ e))).
  { rewrite !chars_app. apply slashFree_app; [assumption|].
    apply slashFree_app; [|assumption]. repeat constructor. discriminate. }
  assert (Hne : stem +:+ "." +:+ e <> "").
  { intros E. apply (f_equal String.length) in E. rewrite !string_app_length in E.
    simpl in E. lia. }
  assert (HE : Ext (p +:+ stem +:+ "." +:+ e) = "." +:+ e).
  { rewrite <- string_app_assoc. now apply Ext_compose. }
  assert (HB : Base (p +:+ stem +:+ "." +:+ e) = stem +:+ "." +:+ e)
    by now apply Base_compose.
  split; [assumption|]. split; [assumption|]. split.
  - unfold baseFilenameOf. rewrite HE, HB. apply TrimSuffix_app.
  - now apply Dir_compose.
Qed.

(** X8: for a selected path made of a directory part, a stem and an
    extension without a dot, [processImage] takes the text from the last
    dot on as the extension and the stem, dots included, as the base file
    name; base name and extension put together give [Base] back; the
    bundle directory is [<stem>_emote_bundle] in the cleaned directory
    part, and every output file name starts with the stem. *)
Theorem name_splits_into_stem_and_extension p stem e :
  dirPart p -> slashFree (chars stem) -> slashFree (chars e) -> dotFree (chars e) ->
  let path := p +:+ stem +:+ "." +:+ e in
  Ext path = "." +:+ e /\
  Base path = stem +:+ "." +:+ e /\
  baseFilenameOf path = stem /\
  Base path = baseFilenameOf path +:+ Ext path /\
  Dir path = Clean p /\
  bundleDirOf path = Join [Clean p; stem +:+ "_emote_bundle"] /\
  forall s, outputFilename (baseFilenameOf path) s =
            stem +:+ "-" +:+ Platform s +:+ "-" +:+ Name s +:+ "-" +:+
            itoa (Width s) +:+ "x" +:+ itoa (Height s) +:+ ".png".
Proof.
  intros Hp Hs He Hd path.
  destruct (name_parts p stem e Hp Hs He Hd) as (HE & HB & Hb & HD). fold path in HE, HB, Hb, HD.
  split; [assumption|]. split; [assumption|]. split; [assumption|].
  split; [now rewrite HB, Hb, HE|]. split; [assumption|].
  split; [unfold bundleDirOf; now rewrite HD, Hb|].
  intros s. now rewrite Hb.
Qed.

(** X9: two files of one folder whose names differ in the extension only
    have the same bundle directory and the same eleven output paths, so a
    run on one that succeeds leaves at every output path of the other the
    PNG encoding of its own image. *)
Theorem same_stem_shares_the_bundle p stem e1 e2 :
  dirPart p -> slashFree (chars stem) ->
  slashFree (chars e1) -> dotFree (chars e1) ->
  slashFree (chars e2) -> dotFree (chars e2) ->
  let sel1 := p +:+ stem +:+ "." +:+ e1 in
  let sel2 := p +:+ stem +:+ "." +:+ e2 in
  bundleDirOf sel1 = bundleDirOf sel2 /\
  (forall s, outputPath sel1 s = outputPath sel2 s) /\
  (forall rev a w w',
      selectedFile a = sel2 ->
      processImage rev a w = (w', Ok tt) ->
      exists img,
        decodeStep rev sel2 w = (w, Ok img) /\
        forall s, In s emoteSizes ->
          exists data,
            imaging_Encode PNG (Fill img (Width s) (Height s) Center Lanczos) = Ok data /\
            fs w' !! outputPath sel1 s = Some (RegularFile data)).
Proof.
  intros Hp Hs He1 Hd1 He2 Hd2 sel1 sel2.
  destruct (name_parts p stem e1 Hp Hs He1 Hd1) as (_ & _ & Hb1 & HD1).
  destruct (name_parts p stem e2 Hp Hs He2 Hd2) as (_ & _ & Hb2 & HD2).
  fold sel1 in Hb1, HD1. fold sel2 in Hb2, HD2.
  assert (E : bundleDirOf sel1 = bundleDirOf sel2).
  { unfold bundleDirOf. now rewrite Hb1, Hb2, HD1, HD2. }
  assert (Eo : forall s, outputPath sel1 s = outputPath sel2 s).
  { intros s. unfold outputPath. now rewrite E, Hb1, Hb2. }
  split; [exact E|]. split; [exact Eo|].
  intros rv a w w' Hsel Hrun.
  destruct (processImage_ok _ _ _ _ Hrun)
    as (data & img & wm & Hst & Hfile & Hdec & _ & -> & Hall).
  rewrite Hsel in Hst, Hfile, Hdec, Hall |- *.
  exists img. split. { now apply (decodeStep_succeeds rv sel2 w data); [|apply Hfile|]. }
  intros s Hin. rewrite List.Forall_forall in Hall. destruct (Hall s Hin) as [Henc _].
  exists (pngOf img s). split; [exact Henc|]. rewrite Eo.
  apply writeAll_exact; [now apply outputPaths_distinct | assumption].
Qed.


Lemma last_element_compose p n :
  dirPart p -> slashFree (chars n) -> List.last (elements (chars (p +:+ n))) [] = chars n.
Proof.
  intros Hp Hs.
  destruct (path_split (chars (p +:+ n))) as (_ & _ & Hl & _).
  rewrite Hl, chars_app, rev_app_distr.
  rewrite takeElement_free; [| now apply slashFree_rev | now apply rev_dirPart].
  apply rev_involutive.
Qed.

Lemma namesFile_compose p stem e :
  dirPart p -> slashFree (chars stem) -> slashFree (chars e) -> dotFree (chars e) ->
  e <> "" -> namesFile (p +:+ stem +:+ "." +:+ e).
Proof.
  intros Hp Hs He Hd Hne.
  assert (Hn : slashFree (chars (stem +:+ "." +:+ e))).
  { rewrite !chars_app. apply slashFree_app; [assumption|].
    apply slashFree_app; [|assumption]. repeat constructor. discriminate. }
  split.
  - intros E. apply (f_equal String.length) in E. rewrite !string_app_length in E.
    simpl in E. lia.
  - unfold os.namesDirectory. rewrite (last_element_compose p _ Hp Hn).
    apply bool_decide_eq_false. rewrite !chars_app.
    change (chars ".") with ["."%char]. change (chars "..") with ["."%char; "."%char].
    destruct (chars e) as [|c1 l1] eqn:E1; [apply chars_nil in E1; contradiction|].
    inversion Hd as [|? ? Hc1 _]; subst.
    destruct (chars stem) as [|c0 l0]; simpl; intros [E | [E | E]]; try discriminate.
    + injection E as E _. congruence.
    + injection E as _ E. destruct l0; discriminate.
    + injection E as _ E. destruct l0 as [|c l0]; [discriminate|].
      simpl in E. injection E as _ E. destruct l0; discriminate.
Qed.

Lemma string_app_inv_tail (a b c : string) : a +:+ c = b +:+ c -> a = b.
Proof.
  intros E. apply chars_inj. apply (f_equal chars) in E. rewrite !chars_app in E.
  now apply app_inv_tail in E.
Qed.

Lemma slashFree_split a b x y :
  slashFree a -> slashFree b -> a ++ Separator :: x = b ++ Separator :: y -> a = b.
Proof.
  intros Ha. revert b. induction Ha as [|c a Hc _ IH]; intros b Hb E.
  - destruct Hb as [|c' b Hc' _]; [reflexivity|].
    simpl in E. injection E as E _. now subst.
  - destruct Hb as [|c' b Hc' Hb]; simpl in E.
    + injection E as E _. now subst.
    + injection E as -> E. f_equal. now apply IH.
Qed.

Lemma bundle_prefix sel1 sel2 :
  namesFile sel1 -> namesFile sel2 -> Dir sel1 = Dir sel2 ->
  exists pfx,
    bundleDirOf sel1 = pfx +:+ baseFilenameOf sel1 +:+ "_emote_bundle" /\
    bundleDirOf sel2 = pfx +:+ baseFilenameOf sel2 +:+ "_emote_bundle".
Proof.
  intros H1 H2 HD.
  destruct (bundle_cases sel1 H1) as [_ C1]. destruct (bundle_cases sel2 H2) as [_ C2].
  cbv zeta in C1, C2. rewrite <- HD in C2.
  destruct C1 as [[B1 D1] | [[B1 D1] | (B1 & N1 & N2 & _)]];
    destruct C2 as [[B2 D2] | [[B2 D2] | (B2 & M1 & M2 & _)]];
    try congruence.
  - exists "". now rewrite B1, B2.
  - exists "/". now rewrite B1, B2.
  - exists (Dir sel1 +:+ "/"). rewrite B1, B2. now rewrite !string_app_assoc.
Qed.

Lemma stems_apart p stem1 e1 stem2 e2 :
  dirPart p ->
  slashFree (chars stem1) -> slashFree (chars e1) -> dotFree (chars e1) -> e1 <> "" ->
  slashFree (chars stem2) -> slashFree (chars e2) -> dotFree (chars e2) -> e2 <> "" ->
  stem1 <> stem2 ->
  let sel1 := p +:+ stem1 +:+ "." +:+ e1 in
  let sel2 := p +:+ stem2 +:+ "." +:+ e2 in
  bundleDirOf sel1 <> bundleDirOf sel2 /\
  (forall s1 s2, In s1 emoteSizes -> In s2 emoteSizes ->
                 outputPath sel1 s1 <> outputPath sel2 s2) /\
  (forall s1, In s1 emoteSizes -> outputPath sel1 s1 <> bundleDirOf sel2).
Proof.
  intros Hp Hs1 He1 Hd1 Hn1 Hs2 He2 Hd2 Hn2 Hdiff sel1 sel2.
  destruct (name_parts p stem1 e1 Hp Hs1 He1 Hd1) as (_ & _ & Hb1 & HD1).
  destruct (name_parts p stem2 e2 Hp Hs2 He2 Hd2) as (_ & _ & Hb2 & HD2).
  fold sel1 in Hb1, HD1. fold sel2 in Hb2, HD2.
  pose proof (namesFile_compose p stem1 e1 Hp Hs1 He1 Hd1 Hn1) as Hf1.
  pose proof (namesFile_compose p stem2 e2 Hp Hs2 He2 Hd2 Hn2) as Hf2.
  fold sel1 in Hf1. fold sel2 in Hf2.
  destruct (bundle_prefix sel1 sel2 Hf1 Hf2) as (pfx & B1 & B2); [congruence|].
  rewrite Hb1 in B1. rewrite Hb2 in B2.
  pose proof emoteSizes_ok as Hok. rewrite List.Forall_forall in Hok.
  assert (HX : forall stem, slashFree (chars stem) ->
                            slashFree (chars (stem +:+ "_emote_bundle"))).
  { intros stem Hs. now apply bundleName_plain. }
  assert (Hout1 : forall s1, In s1 emoteSizes ->
            outputPath sel1 s1 =
            pfx +:+ (stem1 +:+ "_emote_bundle") +:+ "/" +:+ outputFilename stem1 s1).
  { intros s1 Hin1. unfold outputPath.
    rewrite (output_path sel1 s1 (proj1 Hf1) (proj2 Hf1) (Hok s1 Hin1)).
    now rewrite B1, Hb1, !string_app_assoc. }
  assert (Hout2 : forall s2, In s2 emoteSizes ->
            outputPath sel2 s2 =
            pfx +:+ (stem2 +:+ "_emote_bundle") +:+ "/" +:+ outputFilename stem2 s2).
  { intros s2 Hin2. unfold outputPath.
    rewrite (output_path sel2 s2 (proj1 Hf2) (proj2 Hf2) (Hok s2 Hin2)).
    now rewrite B2, Hb2, !string_app_assoc. }
  split; [|split].
  - rewrite B1, B2. intros E. apply string_app_inv_head in E.
    now apply string_app_inv_tail in E.
  - intros s1 s2 Hin1 Hin2 E. rewrite (Hout1 s1 Hin1), (Hout2 s2 Hin2) in E.
    apply string_app_inv_head in E.
    apply (f_equal chars) in E. rewrite !(chars_app (_ +:+ "_emote_bundle")) in E.
    simpl chars in E at 2 4.
    apply slashFree_split in E; [| now apply HX | now apply HX].
    apply chars_inj in E. now apply string_app_inv_tail in E.
  - intros s1 Hin1 E. rewrite (Hout1 s1 Hin1), B2 in E.
    apply string_app_inv_head in E.
    pose proof (HX stem2 Hs2) as Hfree. rewrite <- E in Hfree.
    rewrite chars_app in Hfree. simpl chars in Hfree at 2.
    unfold slashFree in Hfree. rewrite Forall_app in Hfree. destruct Hfree as [_ Hfree].
    inversion Hfree as [|? ? Hc _]. now apply Hc.
Qed.

(** X10: two files of one folder with different stems have different
    bundle directories, and no output path of one is an output path of the
    other. *)
Theorem different_stems_never_share_a_file p stem1 e1 stem2 e2 :
  dirPart p ->
  slashFree (chars stem1) -> slashFree (chars e1) -> dotFree (chars e1) -> e1 <> "" ->
  slashFree (chars stem2) -> slashFree (chars e2) -> dotFree (chars e2) -> e2 <> "" ->
  stem1 <> stem2 ->
  let sel1 := p +:+ stem1 +:+ "." +:+ e1 in
  let sel2 := p +:+ stem2 +:+ "." +:+ e2 in
  bundleDirOf sel1 <> bundleDirOf sel2 /\
  forall s1 s2, In s1 emoteSizes -> In s2 emoteSizes ->
                outputPath sel1 s1 <> outputPath sel2 s2.
Proof.
  intros Hp Hs1 He1 Hd1 Hn1 Hs2 He2 Hd2 Hn2 Hdiff sel1 sel2.
  destruct (stems_apart p stem1 e1 stem2 e2 Hp Hs1 He1 Hd1 Hn1 Hs2 He2 Hd2 Hn2 Hdiff)
    as (Hb & Ho & _).
  split; assumption.
Qed.


(** *** The selection check on names *)

(** X11: the selection check goes by the last dot of the last element of
    the path.  A name without a dot is rejected, also when a folder above
    it has one; a name with a stem and an extension is accepted exactly
    when the dot and the extension, lower-cased, are in the allow-list;
    and an accepted path names a file: its last element is not empty, [.]
    or [..]. *)
Theorem selection_goes_by_the_last_dot rev p :
  dirPart p ->
  (forall n, slashFree (chars n) -> dotFree (chars n) ->
             validateSelection rev (p +:+ n) = false) /\
  (forall stem e, slashFree (chars e) -> dotFree (chars e) ->
      (validateSelection rev (p +:+ stem +:+ "." +:+ e) = true <->
       validExts rev !! ToLower ("." +:+ e) = Some true)) /\
  (forall path, validateSelection rev path = true -> namesFile path).
Proof.
  intros Hp. split; [|split].
  - intros n Hs Hd. destruct (validateSelection rev (p +:+ n)) eqn:E; [|reflexivity].
    destruct (accepted_ext rev _ E) as [Hne _]. exfalso. apply Hne.
    now apply Ext_dotFree.
  - intros stem e Hs Hd. unfold validateSelection.
    rewrite <- (string_app_assoc p stem). rewrite Ext_compose by assumption.
    destruct (validExts rev !! ToLower ("." +:+ e)) as [[]|]; simpl;
      split; congruence.
  - apply accepted_namesFile.
Qed.

(** *** The window *)

(** X12: in the window [main] shows, between two actions of the user
    (each conversion having run to its end) the convert button is enabled
    exactly when a file is selected, and a selected file passed the
    extension check and names a file.  [convertAndSave] does nothing on
    the [App] just built, and each handler keeps the two facts whatever
    the files are. *)
Theorem button_is_enabled_exactly_when_selected rev :
  convertAndSave rev converter = (fun w => (converter, w)) /\
  (forall actions w,
      let a := fst (main rev actions w) in
      (convertBtn a = true <-> selectedFile a <> "") /\
      (selectedFile a = "" \/
       (validateSelection rev (selectedFile a) = true /\ namesFile (selectedFile a)))) /\
  (forall a w act,
      (convertBtn a = true <-> selectedFile a <> "") ->
      (selectedFile a = "" \/ validateSelection rev (selectedFile a) = true) ->
      let a' := fst (setupUI rev (a, w) act) in
      (convertBtn a' = true <-> selectedFile a' <> "") /\
      (selectedFile a' = "" \/ validateSelection rev (selectedFile a') = true)).
Proof.
  split; [reflexivity|]. split.
  - intros actions w a. destruct (main_consistent rev actions w) as [Hb Hs]. fold a in Hb, Hs.
    split; [assumption|]. destruct Hs as [E | Hv]; [now left|].
    right. split; [assumption|]. now apply (accepted_namesFile rev).
  - intros a w act Hb Hs a'.
    exact (setupUI_consistent rev (a, w) act (conj Hb Hs)).
Qed.

(** X13: whatever the user does in the window, the file selected, if
    any, has an extension of the allow-list, and the [switch] of
    [processImage] then falls to content sniffing only in the extended
    revision and only for [.webm]; in the baseline the [default] case is
    never reached, and the decoder is always the one named after the
    extension. *)
Theorem window_reaches_sniffing_only_for_webm rev actions w :
  let a := fst (main rev actions w) in
  let ext := ToLower (Ext (selectedFile a)) in
  selectedFile a = "" \/
  (validExts rev !! ext = Some true /\
   match selectDecoder rev ext with
   | JpegDecode => ext = ".jpg" \/ ext = ".jpeg"
   | PngDecode => ext = ".png"
   | GifDecode => ext = ".gif"
   | WebpDecode => rev = Extended /\ ext = ".webp"
   | ImageDecode => rev = Extended /\ ext = ".webm"
   end).
Proof.
  intros a ext. destruct (main_consistent rev actions w) as [_ Hs]. fold a in Hs.
  destruct Hs as [E | Hv]; [now left|]. right.
  assert (Hl : validExts rev !! ext = Some true).
  { unfold validateSelection in Hv. fold ext in Hv.
    destruct (validExts rev !! ext) as [[]|]; simpl in Hv; congruence. }
  split; [exact Hl|].
  apply validate_allowed in Hv. fold ext in Hv.
  destruct rev; simpl in Hv;
    repeat (destruct Hv as [<- | Hv]; [simpl; auto|]); contradiction.
Qed.

(** X14: a path with an accepted extension at which there is no file is
    selected all the same, and the convert button enabled; converting it
    then fails at [os.Open], leaves the files as they were, shows the
    error in a dialog and sets the label to [Error: failed to open file:
    open <path>: no such file or directory], with the button enabled
    again. *)
Theorem selecting_a_missing_file_then_converting rev path a w :
  validateSelection rev path = true ->
  os.Stat path w = None ->
  let err := Wrapped "failed to open file: " (PathError "open" path ENOENT) in
  convertBtn (selectFile rev (DialogFile path) w a) = true /\
  processImage rev (selectFile rev (DialogFile path) w a) w = (w, Err err) /\
  setupUI rev (setupUI rev (a, w) (SelectTapped (DialogFile path))) ConvertTapped =
    (mkApp path
       ("Error: failed to open file: open " +:+ path +:+ ": no such file or directory")
       true (dialogs a ++ [ErrorDialog err]), w).
Proof.
  intros Hv Hst err.
  pose proof (accepted_namesFile rev path Hv) as [Hne _].
  set (a1 := selectFile rev (DialogFile path) w a).
  assert (Ha1 : selectedFile a1 = path /\ convertBtn a1 = true /\ dialogs a1 = dialogs a).
  { unfold a1. simpl. rewrite Hv. simpl. destruct rev; [|auto].
    destruct (loadPreview_keeps w
      (mkApp path ("Selected: " +:+ Base path) (convertBtn a) (dialogs a))) as (-> & _ & ->).
    auto. }
  destruct Ha1 as (Hs1 & Hb1 & Hd1).
  assert (Hp : forall b, selectedFile b = path -> processImage rev b w = (w, Err err)).
  { intros b Hb. unfold processImage, bind, orWrap, os.Open. rewrite Hb, Hst. reflexivity. }
  split; [assumption|]. split; [now apply Hp|].
  change (setupUI rev (setupUI rev (a, w) (SelectTapped (DialogFile path))) ConvertTapped)
    with (convertAndSave rev a1 w).
  unfold convertAndSave. rewrite Hs1.
  destruct (decide (path = "")); [contradiction|].
  rewrite Hp by reflexivity. simpl. now rewrite Hd1.
Qed.

(** X15: the extended revision only adds to the baseline: every path the
    baseline accepts is accepted by the extended revision, and on any
    selection whose extension is not [.webp], so on every selection the
    baseline accepts, [processImage] and [convertAndSave] of the two
    revisions return the same. *)
Theorem extended_agrees_with_baseline :
  (forall path, validateSelection Baseline path = true ->
                validateSelection Extended path = true /\
                ToLower (Ext path) <> ".webp") /\
  (forall a w, ToLower (Ext (selectedFile a)) <> ".webp" ->
               processImage Baseline a w = processImage Extended a w) /\
  (forall a w, validateSelection Baseline (selectedFile a) = true ->
               convertAndSave Baseline a w = convertAndSave Extended a w).
Proof.
  assert (H1 : forall path, validateSelection Baseline path = true ->
                validateSelection Extended path = true /\ ToLower (Ext path) <> ".webp").
  { intros path Hv. apply validate_allowed in Hv. rewrite validate_allowed.
    simpl in Hv |- *. intuition congruence. }
  assert (H2 : forall a w, ToLower (Ext (selectedFile a)) <> ".webp" ->
               processImage Baseline a w = processImage Extended a w).
  { intros a w Hne. unfold processImage.
    assert (E : selectDecoder Baseline (ToLower (Ext (selectedFile a))) =
                selectDecoder Extended (ToLower (Ext (selectedFile a)))).
    { unfold selectDecoder. repeat (destruct (decide _); try reflexivity). contradiction. }
    now rewrite E. }
  split; [exact H1|]. split; [exact H2|].
  intros a w Hv. destruct (H1 _ Hv) as [_ Hne]. unfold convertAndSave.
  destruct (decide _); [reflexivity|]. now rewrite (H2 _ w).
Qed.


(** *** Sniffing and the order of registration *)

Lemma registered_first_byte f data :
  In f registeredFormats ->
  matchMagic (magic f) (firstn (length (magic f)) data) = true ->
  exists tl, data = hd x00 (magic f) :: tl.
Proof.
  intros Hin Hm.
  destruct Hin as [<- | [<- | [<- | [<- | [<- | [<- | [<- | []]]]]]]].
  - exact (magic_head x47 (List.tl gifMagic) 5 data Hm eq_refl).
  - exact (magic_head xff (List.tl jpegMagic) 1 data Hm eq_refl).
  - exact (magic_head x89 (List.tl pngMagic) 7 data Hm eq_refl).
  - exact (magic_head x52 (List.tl webpMagic) 14 data Hm eq_refl).
  - exact (magic_head x42 (List.tl bmpMagic) 9 data Hm eq_refl).
  - exact (magic_head x49 (List.tl tiffLeHeader) 3 data Hm eq_refl).
  - exact (magic_head x4d (List.tl tiffBeHeader) 3 data Hm eq_refl).
Qed.

Lemma registered_unique_match f g data :
  In f registeredFormats -> In g registeredFormats ->
  matchMagic (magic f) (firstn (length (magic f)) data) = true ->
  matchMagic (magic g) (firstn (length (magic g)) data) = true ->
  f = g.
Proof.
  intros Hf Hg Hmf Hmg.
  destruct (registered_first_byte f data Hf Hmf) as (tl & E).
  destruct (registered_first_byte g data Hg Hmg) as (tl' & E').
  rewrite E in E'. injection E' as E' _.
  destruct Hf as [<- | [<- | [<- | [<- | [<- | [<- | [<- | []]]]]]]];
    destruct Hg as [<- | [<- | [<- | [<- | [<- | [<- | [<- | []]]]]]]];
    try reflexivity; discriminate.
Qed.

Lemma find_unique {X} (p : X -> bool) (l : list X) (x : X) :
  (forall y, In y l -> p y = true -> y = x) -> In x l -> p x = true -> find p l = Some x.
Proof.
  induction l as [|y l IH]; intros Hu Hin Hp; [contradiction|].
  simpl. destruct (p y) eqn:E.
  - f_equal. apply Hu; [now left | assumption].
  - apply IH; [| | assumption].
    + intros z Hz. apply Hu. now right.
    + destruct Hin as [-> | Hin]; [congruence | assumption].
Qed.

Lemma find_absent {X} (p : X -> bool) (l : list X) :
  (forall y, In y l -> p y = false) -> find p l = None.
Proof.
  induction l as [|y l IH]; intros Hn; [reflexivity|].
  simpl. rewrite (Hn y) by now left. apply IH. intros z Hz. apply Hn. now right.
Qed.

(** X16: what [image.Decode] finds does not depend on the order in which
    the packages linked into the program registered their formats (gif,
    jpeg, png and webp, and the bmp and tiff of [imaging]): no bytes match
    the magic of two of them, so any permutation of the registry sniffs
    the same format and decodes to the same result. *)
Theorem sniffing_ignores_registration_order (formats : list format) (data : list byte) :
  Permutation formats registeredFormats ->
  sniff formats data = sniff registeredFormats data /\
  image_Decode formats data = image_Decode registeredFormats data /\
  (forall f g, In f formats -> In g formats ->
               matchMagic (magic f) (firstn (length (magic f)) data) = true ->
               matchMagic (magic g) (firstn (length (magic g)) data) = true -> f = g).
Proof.
  intros Hperm.
  assert (Hin : forall f, In f formats <-> In f registeredFormats).
  { intros f. split; apply Permutation_in; [assumption | now symmetry]. }
  assert (Hs : sniff formats data = sniff registeredFormats data).
  { unfold sniff.
    destruct (find _ registeredFormats) as [f|] eqn:E.
    - apply find_some in E. destruct E as [Hf Hm].
      apply find_unique; [| now apply Hin | assumption].
      intros g Hg Hmg. apply (registered_unique_match g f data); try assumption.
      now apply Hin.
    - apply find_absent. intros g Hg. apply Hin in Hg.
      now apply (find_none _ _ E). }
  split; [exact Hs|]. split; [unfold image_Decode; now rewrite Hs|].
  intros f g Hf Hg. apply registered_unique_match; now apply Hin.
Qed.

(** *** What [convertAndSave] tells the user *)

(** X17: with a file selected, [convertAndSave] always reports back: it
    leaves the selection, enables the button again, hands on the world
    [processImage] left, and shows exactly one dialog, either the success
    dialog with the label [Conversion completed successfully!] or the
    error dialog with the label [Error: failed to ...], the text of the
    error. *)
Theorem conversion_always_reports_back rev a w :
  selectedFile a <> "" ->
  let a' := fst (convertAndSave rev a w) in
  let run := processImage rev a w in
  snd (convertAndSave rev a w) = fst run /\
  selectedFile a' = selectedFile a /\
  convertBtn a' = true /\
  ((snd run = Ok tt /\
    statusLabel a' = "Conversion completed successfully!" /\
    dialogs a' = dialogs a ++
      [InformationDialog "Success" "All emote sizes have been created and saved!"]) \/
   (exists err rest,
      snd run = Err err /\
      errorString err = "failed to " +:+ rest /\
      statusLabel a' = "Error: failed to " +:+ rest /\
      dialogs a' = dialogs a ++ [ErrorDialog err])).
Proof.
  intros Hne a' run. subst a' run. unfold convertAndSave.
  destruct (decide (selectedFile a = "")); [contradiction|].
  change (processImage rev (mkApp (selectedFile a) "Converting images..." false (dialogs a)) w)
    with (processImage rev a w).
  destruct (processImage rev a w) as [w' [[]|err]] eqn:Hrun; simpl.
  - repeat split. left. repeat split.
  - repeat split. right. destruct (failure_text _ _ _ _ _ Hrun) as [rest Hrest].
    exists err, rest. rewrite Hrest. repeat split.
Qed.

(** *** Two images in one folder *)

(** X18: a run on one file leaves the bundle of another file of the same
    folder with a different stem alone, whatever its outcome: the other
    bundle directory and its eleven output paths hold after the run what
    they held before. *)
Theorem other_bundles_are_left_alone rev p stem1 e1 stem2 e2 a w :
  dirPart p ->
  slashFree (chars stem1) -> slashFree (chars e1) -> dotFree (chars e1) -> e1 <> "" ->
  slashFree (chars stem2) -> slashFree (chars e2) -> dotFree (chars e2) -> e2 <> "" ->
  stem1 <> stem2 ->
  let sel1 := p +:+ stem1 +:+ "." +:+ e1 in
  let sel2 := p +:+ stem2 +:+ "." +:+ e2 in
  selectedFile a = sel2 ->
  folderExists sel2 w ->
  let w' := fst (processImage rev a w) in
  fs w' !! bundleDirOf sel1 = fs w !! bundleDirOf sel1 /\
  forall s, In s emoteSizes -> fs w' !! outputPath sel1 s = fs w !! outputPath sel1 s.
Proof.
  intros Hp Hs1 He1 Hd1 Hn1 Hs2 He2 Hd2 Hn2 Hdiff sel1 sel2 Hsel Hf w'.
  destruct (stems_apart p stem1 e1 stem2 e2 Hp Hs1 He1 Hd1 Hn1 Hs2 He2 Hd2 Hn2 Hdiff)
    as (Hb & Ho & Hob). fold sel1 sel2 in Hb, Ho, Hob.
  assert (Hdiff' : stem2 <> stem1) by congruence.
  destruct (stems_apart p stem2 e2 stem1 e1 Hp Hs2 He2 Hd2 Hn2 Hs1 He1 Hd1 Hn1 Hdiff')
    as (_ & _ & Hbo). fold sel1 sel2 in Hbo.
  rewrite <- Hsel in Hf.
  pose proof (processImage_dirs rev a w Hf) as Hdirs. fold w' in Hdirs.
  assert (Hk : footprint (map (outputPath sel2) emoteSizes) w w').
  { subst w'. destruct (processImage rev a w) as [w0 r] eqn:Hrun.
    rewrite <- Hsel. exact (processImage_footprint rev a w w0 r Hrun). }
  destruct Hk as [_ Hk]. rewrite Hsel in Hdirs.
  assert (Hsame : forall k, k <> bundleDirOf sel2 ->
                            ~ In k (map (outputPath sel2) emoteSizes) ->
                            fs w' !! k = fs w !! k).
  { intros k Hkb Hko. destruct (Hk k) as [E | [[E E'] | (Hin & _)]];
      [exact E | | contradiction].
    destruct (Hdirs k E') as [E2 | E2]; [congruence | contradiction]. }
  split.
  - apply Hsame; [assumption|]. intros Hin. apply in_map_iff in Hin.
    destruct Hin as (s & E & Hs). now apply (Hbo s Hs).
  - intros s Hs. apply Hsame; [now apply Hob|]. intros Hin. apply in_map_iff in Hin.
    destruct Hin as (s2 & E & Hs2'). now apply (Ho s s2 Hs Hs2').
Qed.


(** *** A failed run, started again *)

Lemma Create_files name w1 w2 :
  fs w1 = fs w2 -> denied w1 = denied w2 ->
  snd (os.Create name w1) = snd (os.Create name w2) /\
  fs (fst (os.Create name w1)) = fs (fst (os.Create name w2)) /\
  denied (fst (os.Create name w1)) = denied (fst (os.Create name w2)).
Proof.
  intros Hfs Hd. unfold os.Create, os.parentExists, os.Stat.
  rewrite Hfs, Hd.
  destruct (decide (name = "")); [auto|].
  destruct (os.namesDirectory name); [auto|].
  destruct (fs w2 !! Clean name) as [[data|]|];
    try (simpl; now auto);
    destruct (negb _); try (simpl; now auto);
    destruct (decide _); simpl; rewrite ?Hfs; auto.
Qed.

Lemma Save_files img name w1 w2 :
  fs w1 = fs w2 -> denied w1 = denied w2 ->
  snd (imaging.Save img name w1) = snd (imaging.Save img name w2) /\
  fs (fst (imaging.Save img name w1)) = fs (fst (imaging.Save img name w2)) /\
  denied (fst (imaging.Save img name w1)) = denied (fst (imaging.Save img name w2)).
Proof.
  intros Hfs Hd. unfold imaging.Save, bind, lift.
  destruct (imaging.FormatFromFilename name) as [f|e]; [|auto].
  destruct (Create_files name w1 w2 Hfs Hd) as (Hr & Hfs' & Hd').
  destruct (os.Create name w1) as [wa [ka|ea]]; destruct (os.Create name w2) as [wb [kb|eb]];
    simpl in Hr, Hfs', Hd'; try discriminate.
  - injection Hr as ->.
    destruct (imaging_Encode f img) as [data|e]; simpl; [|auto].
    rewrite Hfs'. auto.
  - injection Hr as ->. auto.
Qed.

Lemma Save_err_cases img name w w' e :
  imaging.Save img name w = (w', Err e) ->
  w' = w \/
  (creatable name w /\ w' = created (Clean name) [] w /\
   exists f, imaging.FormatFromFilename name = Ok f /\ imaging_Encode f img = Err e).
Proof.
  unfold imaging.Save, bind, lift.
  destruct (imaging.FormatFromFilename name) as [f|e0]; [|intros [= <- _]; now left].
  destruct (os.Create name w) as [w1 [key|e1]] eqn:Hc.
  - apply Create_ok in Hc. destruct Hc as (-> & Hcr & ->).
    destruct (imaging_Encode f img) as [data|e2] eqn:He; [discriminate|].
    intros [= <- <-]. right. split; [assumption|]. split; [reflexivity|]. now exists f.
  - apply Create_err in Hc. subst. intros [= <- _]. now left.
Qed.

Lemma Save_encode_fails img name w f e :
  imaging.FormatFromFilename name = Ok f -> creatable name w ->
  imaging_Encode f img = Err e ->
  imaging.Save img name w = (created (Clean name) [] w, Err e).
Proof.
  intros Hf Hc He. unfold imaging.Save, bind, lift.
  rewrite Hf, (Create_succeeds name w Hc), He. reflexivity.
Qed.

(** A save into the bundle that failed fails in the same way when it is
    made again, and leaves the files as the first attempt did. *)
Lemma Save_out_repeats selected img s w w' e :
  namesFile selected -> sizeOk s ->
  imaging.Save (raster img s) (outputPath selected s) w = (w', Err e) ->
  snd (imaging.Save (raster img s) (outputPath selected s) w') = Err e /\
  fs (fst (imaging.Save (raster img s) (outputPath selected s) w')) = fs w' /\
  denied (fst (imaging.Save (raster img s) (outputPath selected s) w')) = denied w'.
Proof.
  intros Hsel Hs Hsave.
  destruct (Save_err_cases _ _ _ _ _ Hsave) as [-> | (Hc & -> & f & Hf & He)].
  - now rewrite Hsave.
  - rewrite (out_clean selected Hsel) in *.
    assert (Hc' : creatable (outputPath selected s)
                    (created (outputPath selected s) [] w)).
    { apply (out_creatable selected Hsel s _ Hs).
      apply (out_creatable selected Hsel s _ Hs) in Hc. destruct Hc as (_ & Hdir & Hden).
      simpl. rewrite lookup_insert_eq. split; [discriminate|]. split; [|assumption].
      rewrite lookup_insert_ne; [assumption | now apply out_not_dir]. }
    rewrite (Save_encode_fails _ _ _ f e Hf Hc' He).
    rewrite (out_clean selected Hsel). simpl. split; [reflexivity|]. split; [|reflexivity].
    apply insert_insert_eq.
Qed.

(** The loop, entered again in the world a failed pass left. *)
Lemma convertSizes_repeats selected img w w1 err :
  namesFile selected ->
  fs w !! bundleDirOf selected = Some Directory ->
  convertSizes img (baseFilenameOf selected) (bundleDirOf selected) emoteSizes w = (w1, Err err) ->
  exists w2,
    convertSizes img (baseFilenameOf selected) (bundleDirOf selected) emoteSizes w1 =
      (w2, Err err) /\
    fs w2 = fs w1 /\ denied w2 = denied w1 /\
    fs w1 !! bundleDirOf selected = Some Directory.
Proof.
  intros Hsel Hdir Hrun.
  pose proof (convertSizes_footprint selected img emoteSizes w w1 _ Hsel Hrun) as [Hden Hfoot].
  destruct (convertSizes_err _ _ _ _ _ _ Hrun)
    as (pre & s & post & w0 & e & Hsplit & Hpre & Hsave & ->).
  pose proof emoteSizes_ok as Hok. rewrite Hsplit in Hok.
  apply Forall_app_parts in Hok. destruct Hok as [Hokpre Hokpost].
  inversion Hokpost as [|? ? Hoks _]; subst.
  pose proof (outputPaths_distinct selected Hsel) as Hnd. rewrite Hsplit, map_app in Hnd.
  simpl in Hnd.
  pose proof (List.NoDup_remove_2 _ _ _ Hnd) as Hs_out.
  pose proof (List.NoDup_remove_1 _ _ _ Hnd) as Hnd1.
  apply List.NoDup_app_remove_r in Hnd1.
  assert (Hs_pre : ~ In (outputPath selected s) (map (outputPath selected) pre)).
  { intros Hin. apply Hs_out. apply in_or_app. now left. }
  destruct (convertSizes_ok selected Hsel img pre w w0 Hokpre Hpre) as (Hw0 & Hall & _).
  assert (Hcases : w1 = w0 \/ w1 = created (outputPath selected s) [] w0).
  { apply Save_err in Hsave. destruct Hsave as [-> | [_ ->]]; [now left|].
    right. now rewrite (out_clean selected Hsel). }
  assert (Hfs1 : forall k, k <> outputPath selected s -> fs w1 !! k = fs w0 !! k).
  { intros k Hk. destruct Hcases as [-> | ->]; [reflexivity|].
    simpl. now rewrite lookup_insert_ne by congruence. }
  assert (Hden1 : denied w1 = denied w0) by (destruct Hcases as [-> | ->]; reflexivity).
  assert (Hden0 : denied w0 = denied w) by (rewrite Hw0; apply writeAll_denied).
  assert (Hdir1 : fs w1 !! bundleDirOf selected = Some Directory).
  { destruct (Hfoot (bundleDirOf selected)) as [E | [[E _] | (_ & E & _)]]; congruence. }
  assert (Hpre1 : convertSizes img (baseFilenameOf selected) (bundleDirOf selected) pre w1 =
                  (writeAll selected img pre w1, Ok tt)).
  { apply convertSizes_succeeds; try assumption.
    rewrite List.Forall_forall in Hall |- *. intros s' Hs'.
    destruct (Hall s' Hs') as [Henc Hd]. split; [now rewrite Henc|]. split.
    - now rewrite Hden1, Hden0.
    - rewrite Hfs1.
      + rewrite Hw0. destruct (writeAll_file selected img pre w s' Hs') as [d ->]. discriminate.
      + intros E. apply Hs_pre. rewrite <- E. now apply in_map. }
  assert (HfsA : fs (writeAll selected img pre w1) = fs w1).
  { apply map_eq. intros k.
    destruct (in_dec string_dec k (map (outputPath selected) pre)) as [Hin | Hnin].
    - apply in_map_iff in Hin. destruct Hin as (s' & <- & Hs').
      rewrite (writeAll_exact selected img pre w1 s' Hnd1 Hs').
      rewrite Hfs1.
      + rewrite Hw0. symmetry. now apply writeAll_exact.
      + intros E. apply Hs_pre. rewrite <- E. now apply in_map.
    - now apply writeAll_other. }
  assert (HdenA : denied (writeAll selected img pre w1) = denied w1) by apply writeAll_denied.
  destruct (Save_out_repeats selected img s w0 w1 e Hsel Hoks Hsave) as (Hr & Hf & Hd).
  destruct (Save_files (raster img s) (outputPath selected s) _ _ HfsA HdenA)
    as (Hr' & Hf' & Hd').
  destruct (imaging.Save (raster img s) (outputPath selected s)
              (writeAll selected img pre w1)) as [w2 r2] eqn:Hsave2.
  simpl in Hr', Hf', Hd'. rewrite Hr in Hr'. subst r2.
  exists w2. split.
  - rewrite Hsplit.
    exact (convertSizes_stops selected img pre s post w1 _ w2 e Hpre1 Hsave2).
  - split; [congruence|]. split; [congruence | assumption].
Qed.

(** X19: when the folder of the selected file exists, a run that failed,
    started again in the world it left, fails with the same error and
    leaves the same files. *)
Theorem failed_run_fails_again_the_same rev a w w1 err :
  folderExists (selectedFile a) w ->
  processImage rev a w = (w1, Err err) ->
  exists w2,
    processImage rev a w1 = (w2, Err err) /\
    fs w2 = fs w1 /\ denied w2 = denied w1.
Proof.
  intros Hf Hrun. set (sel := selectedFile a) in *.
  assert (Hsame : w1 = w -> exists w2,
             processImage rev a w1 = (w2, Err err) /\ fs w2 = fs w1 /\ denied w2 = denied w1).
  { intros ->. now exists w. }
  pose proof (processImage_keeps_input rev a w) as Hin.
  rewrite Hrun in Hin. simpl in Hin. fold sel in Hin.
  destruct (processImage_outcome _ _ _ _ _ Hrun)
    as [[-> _] | (img & data & Hd & Hsel & Hst & Hwb)]; [now apply Hsame|].
  fold sel in Hd, Hsel, Hst, Hwb.
  destruct (decodeStep_cases _ _ _ _ _ Hd) as (_ & data0 & Hst0 & _ & Hdec).
  rewrite writeBundle_unfold in Hwb.
  rewrite (MkdirAll_bundle_cases sel w Hsel Hf) in Hwb.
  assert (Hloop : forall wm,
            fs wm !! bundleDirOf sel = Some Directory ->
            convertSizes img (baseFilenameOf sel) (bundleDirOf sel) emoteSizes wm =
              (w1, Err err) ->
            exists w2, processImage rev a w1 = (w2, Err err) /\
                       fs w2 = fs w1 /\ denied w2 = denied w1).
  { intros wm Hdir Hc.
    destruct (convertSizes_repeats sel img wm w1 err Hsel Hdir Hc) as (w2 & Hc2 & Hfs & Hden & Hdir1).
    exists w2. split; [|split; assumption].
    assert (Hst1 : os.Stat sel w1 = Some (RegularFile data0)).
    { unfold os.Stat in Hst0 |- *. destruct (decide (sel = "")); [discriminate|]. congruence. }
    rewrite processImage_unfold. fold sel.
    rewrite (decodeStep_succeeds rev sel w1 data0 img Hst1 (proj2 Hsel) Hdec).
    rewrite writeBundle_unfold, MkdirAll_exists; [exact Hc2|].
    now rewrite Stat_bundle. }
  destruct (fs w !! bundleDirOf sel) as [[d|]|] eqn:E.
  - apply Hsame. now injection Hwb as <- _.
  - now apply (Hloop w).
  - destruct (decide (bundleDirOf sel ∈ denied w)).
    + apply Hsame. now injection Hwb as <- _.
    + apply (Hloop (madeDir (bundleDirOf sel) w)); [|assumption].
      simpl. apply lookup_insert_eq.
Qed.


(** X20: an accepted path is selected and the convert button enabled
    without any dialog.  The label shows [Selected: <name>]; in the
    baseline revision, which loads a preview, it shows [Selected file
    (preview failed): <name>] instead when the path holds no regular
    file, and the file stays selected. *)
Theorem accepted_selection_is_shown rev path w a :
  validateSelection rev path = true ->
  let a' := selectFile rev (DialogFile path) w a in
  selectedFile a' = path /\ convertBtn a' = true /\ dialogs a' = dialogs a /\
  ((rev = Extended \/ exists data, os.Stat path w = Some (RegularFile data)) ->
   statusLabel a' = "Selected: " +:+ Base path) /\
  (rev = Baseline -> (forall data, os.Stat path w <> Some (RegularFile data)) ->
   statusLabel a' = "Selected file (preview failed): " +:+ Base path).
Proof.
  intros Hv a'. subst a'.
  pose proof (accepted_namesFile rev path Hv) as [Hne Hnd].
  unfold selectFile. rewrite Hv. simpl negb. cbv iota.
  destruct rev.
  - unfold loadPreview. simpl selectedFile.
    destruct (decide (path = "")); [contradiction|].
    unfold os.Open. rewrite Hnd.
    destruct (os.Stat path w) as [[data|]|] eqn:Hst; simpl.
    + repeat split; try reflexivity. intros _ Hno. now destruct (Hno data).
    + repeat split; try reflexivity. intros [? | [data ?]]; discriminate.
    + repeat split; try reflexivity. intros [? | [data ?]]; discriminate.
  - simpl. repeat split; try reflexivity. discriminate.
Qed.

End Behaviour.

(** * The claims on a concrete run

    The theorems above are instantiated with the toy codecs of [Demo]. *)

Section Runs.
Import Demo.

Lemma run_result {X} (x : World * result X) (r : result X) :
  snd x = r -> x = (fst x, r).
Proof. destruct x. simpl. now intros ->. Qed.

Lemma cat_run_succeeds rev :
  processImage rev (app "cat.png") catWorld =
    (fst (processImage rev (app "cat.png") catWorld), Ok tt).
Proof. apply run_result. destruct rev; vm_compute; reflexivity. Qed.

(** A run on [cat.png] succeeds and creates the eleven files. *)
Lemma convert_cat_run :
  processImage Baseline (app "cat.png") catWorld =
    (fst (processImage Baseline (app "cat.png") catWorld), Ok tt) /\
  createdPaths (trace (fst (processImage Baseline (app "cat.png") catWorld))) =
    [ "cat_emote_bundle/cat-Discord-Small-28x28.png";
      "cat_emote_bundle/cat-Discord-Medium-32x32.png";
      "cat_emote_bundle/cat-Discord-Large-48x48.png";
      "cat_emote_bundle/cat-Discord-Animated-128x128.png";
      "cat_emote_bundle/cat-Twitch-1.0-28x28.png";
      "cat_emote_bundle/cat-Twitch-2.0-56x56.png";
      "cat_emote_bundle/cat-Twitch-3.0-112x112.png";
      "cat_emote_bundle/cat-7TV-1x-32x32.png";
      "cat_emote_bundle/cat-7TV-2x-64x64.png";
      "cat_emote_bundle/cat-7TV-3x-96x96.png";
      "cat_emote_bundle/cat-7TV-4x-128x128.png" ].
Proof.
  pose proof (cat_run_succeeds Baseline) as Hrun.
  split; [exact Hrun|].
  destruct (convert_writes_one_png_per_entry Baseline _ _ _ Hrun)
    as (Hc & _ & _ & _ & _ & _ & _ & Hcat).
  rewrite Hc. exact (Hcat eq_refl).
Defined.

(** The 3 by 2 picture filled into the first catalog entry is 28 by 28. *)
Lemma fill_cat_small :
  In (mkEmoteSize "Discord" "Small" 28 28) emoteSizes /\
  1 <= Dx catImage /\ 1 <= Dy catImage /\
  Dx (Fill catImage 28 28 Center Lanczos) = 28 /\
  Dy (Fill catImage 28 28 Center Lanczos) = 28.
Proof.
  assert (Hin : In (mkEmoteSize "Discord" "Small" 28 28) emoteSizes) by (simpl; auto).
  assert (Hx : 1 <= Dx catImage) by (simpl; lia).
  assert (Hy : 1 <= Dy catImage) by (simpl; lia).
  destruct (fill_yields_target_dimensions _ catImage Hin Hx Hy) as (Hw & Hh & _).
  repeat split; assumption.
Defined.

Lemma cat_decodes rev w :
  os.Stat "cat.png" w = Some (RegularFile catBytes) ->
  decodeStep rev "cat.png" w = (w, Ok catImage).
Proof.
  intros Hs. apply (decodeStep_succeeds rev "cat.png" w catBytes); auto.
  destruct rev; reflexivity.
Qed.

(** With one output name refused, the run on [cat.png] stops there. *)
Lemma full_disk_run :
  decodeStep Baseline "cat.png" fullDisk = (fullDisk, Ok catImage) /\
  os.MkdirAll (bundleDirOf "cat.png") fullDisk =
    (fst (os.MkdirAll (bundleDirOf "cat.png") fullDisk), Ok tt) /\
  processImage Baseline (app "cat.png") fullDisk =
    (fst (processImage Baseline (app "cat.png") fullDisk),
     Err (Wrapped "failed to save cat-Discord-Large-48x48.png: "
            (PathError "open" "cat_emote_bundle/cat-Discord-Large-48x48.png" EACCES))) /\
  exists pre s post,
    emoteSizes = pre ++ s :: post /\
    forall s', In s' pre ->
      fs (fst (processImage Baseline (app "cat.png") fullDisk)) !! outputPath "cat.png" s' =
      Some (RegularFile (pngOf catImage s')).
Proof.
  assert (Hdec : decodeStep Baseline "cat.png" fullDisk = (fullDisk, Ok catImage))
    by (apply cat_decodes; vm_compute; reflexivity).
  assert (Hmk : os.MkdirAll (bundleDirOf "cat.png") fullDisk =
                (fst (os.MkdirAll (bundleDirOf "cat.png") fullDisk), Ok tt))
    by (apply run_result; vm_compute; reflexivity).
  assert (Hrun : processImage Baseline (app "cat.png") fullDisk =
    (fst (processImage Baseline (app "cat.png") fullDisk),
     Err (Wrapped "failed to save cat-Discord-Large-48x48.png: "
            (PathError "open" "cat_emote_bundle/cat-Discord-Large-48x48.png" EACCES))))
    by (apply run_result; vm_compute; reflexivity).
  split; [exact Hdec|]. split; [exact Hmk|]. split; [exact Hrun|].
  destruct (first_save_failure_aborts_the_rest Baseline (app "cat.png") _ _ _ _ _
              Hdec Hmk Hrun)
    as (pre & s & post & e & w2 & Hsplit & _ & _ & _ & _ & Hpre & _).
  exists pre, s, post. split; [exact Hsplit | exact Hpre].
Defined.

Lemma bad_png_opens :
  os.Open "bad.png" mixedWorld = (mixedWorld, Ok (os.mkFile "bad.png" (Some garbage))).
Proof.
  unfold os.Open.
  replace (os.Stat "bad.png" mixedWorld) with (Some (RegularFile garbage))
    by (vm_compute; reflexivity).
  reflexivity.
Qed.

(** Garbage under a [.png] name: a decode error and the world as it was. *)
Lemma garbage_png_run :
  os.Open "bad.png" mixedWorld = (mixedWorld, Ok (os.mkFile "bad.png" (Some garbage))) /\
  decodeFile (selectDecoder Extended (ToLower (filepath.Ext "bad.png")))
             (os.mkFile "bad.png" (Some garbage)) = Err (FormatError "invalid format") /\
  processImage Extended (app "bad.png") mixedWorld =
    (mixedWorld, Err (Wrapped "failed to decode image: " (FormatError "invalid format"))).
Proof.
  pose proof bad_png_opens as Ho.
  assert (Hd : decodeFile (selectDecoder Extended (ToLower (filepath.Ext "bad.png")))
                 (os.mkFile "bad.png" (Some garbage)) = Err (FormatError "invalid format"))
    by reflexivity.
  split; [exact Ho|]. split; [exact Hd|].
  exact (proj1 (decode_failure_leaves_world_untouched Extended (app "bad.png") _ _ _ Ho Hd)).
Defined.

(** Converting [cat.png] twice. *)
Lemma convert_cat_twice :
  processImage Baseline (app "cat.png") catWorld =
    (fst (processImage Baseline (app "cat.png") catWorld), Ok tt) /\
  exists w2,
    processImage Baseline (app "cat.png")
      (fst (processImage Baseline (app "cat.png") catWorld)) = (w2, Ok tt) /\
    fs w2 = fs (fst (processImage Baseline (app "cat.png") catWorld)).
Proof.
  pose proof (cat_run_succeeds Baseline) as Hrun.
  split; [exact Hrun|].
  destruct (second_run_overwrites_in_place Baseline _ _ _ Hrun)
    as (w2 & Hrun2 & _ & _ & _ & _ & Hfs & _).
  exists w2. split; assumption.
Defined.

(** A PNG picture under a [.webm] name is decoded by sniffing, and its
    bundle is written. *)
Lemma webm_named_png_run :
  ToLower (filepath.Ext "clip.webm") = ".webm" /\
  os.Stat "clip.webm" mixedWorld = Some (RegularFile catBytes) /\
  os.namesDirectory "clip.webm" = false /\
  decodeStep Extended "clip.webm" mixedWorld = (mixedWorld, Ok catImage) /\
  snd (processImage Extended (app "clip.webm") mixedWorld) = Ok tt /\
  createdPaths (trace (fst (processImage Extended (app "clip.webm") mixedWorld))) =
    map (outputPath "clip.webm") emoteSizes.
Proof.
  assert (He : ToLower (filepath.Ext "clip.webm") = ".webm") by reflexivity.
  assert (Hs : os.Stat "clip.webm" mixedWorld = Some (RegularFile catBytes))
    by (vm_compute; reflexivity).
  assert (Hn : os.namesDirectory "clip.webm" = false) by reflexivity.
  split; [exact He|]. split; [exact Hs|]. split; [exact Hn|].
  destruct (webm_name_is_sniffed (app "clip.webm") mixedWorld catBytes He Hs Hn)
    as (_ & _ & _ & Himg & _).
  destruct (Himg catImage) as (Hdec & _ & Hbundle).
  { left. split; reflexivity. }
  split; [exact Hdec|].
  destruct (Hbundle (fst (os.MkdirAll (bundleDirOf "clip.webm") mixedWorld)))
    as [Hrun Hcreated].
  { apply run_result. vm_compute. reflexivity. }
  { apply (bool_decide_unpack _). vm_compute. exact I. }
  simpl selectedFile in Hrun, Hcreated. rewrite Hrun. simpl fst. simpl snd.
  split; [reflexivity | exact Hcreated].
Defined.

(** The success report of a run on [cat.png]. *)
Lemma report_cat_run :
  processImage Extended (app "cat.png") catWorld =
    (fst (processImage Extended (app "cat.png") catWorld), Ok tt) /\
  fst (convertAndSave Extended (app "cat.png") catWorld) =
    mkApp "cat.png" "Conversion completed successfully!" true
      [InformationDialog "Success" "All emote sizes have been created and saved!"].
Proof.
  pose proof (cat_run_succeeds Extended) as Hrun.
  split; [exact Hrun|].
  destruct (success_is_reported_without_paths Extended _ _ _ Hrun) as [_ Hreport].
  now rewrite Hreport.
Defined.

(** The first of the two frames of [anim.gif] is what is decoded, and so is
    the first frame of a GIF whose second frame is broken. *)
Lemma gif_first_frame_run :
  gif_DecodeAll gifBytes = Ok [gifFrame; mkImage 1 1 (At gifFrame)] /\
  decodeStep Baseline "anim.gif" mixedWorld = (mixedWorld, Ok gifFrame) /\
  gif_frames tornGifBytes = Ok ([gifFrame], Some (FormatError "invalid image size")) /\
  gif_DecodeAll tornGifBytes = Err (FormatError "invalid image size") /\
  gif_Decode tornGifBytes = Ok gifFrame.
Proof.
  assert (Hall : gif_DecodeAll gifBytes = Ok [gifFrame; mkImage 1 1 (At gifFrame)])
    by reflexivity.
  assert (Hs : os.Stat "anim.gif" mixedWorld = Some (RegularFile gifBytes))
    by (vm_compute; reflexivity).
  assert (Htorn : gif_frames tornGifBytes =
                  Ok ([gifFrame], Some (FormatError "invalid image size")))
    by reflexivity.
  destruct decoder_follows_extension_hint as (_ & _ & _ & _ & _ & _ & _ & _ & Hread & Hgif).
  split; [exact Hall|]. split.
  { apply (Hgif Baseline "anim.gif" mixedWorld gifBytes gifFrame [mkImage 1 1 (At gifFrame)]);
      try reflexivity; assumption. }
  split; [exact Htorn|]. split; [reflexivity|].
  exact (Hread tornGifBytes gifFrame [] _ Htorn).
Defined.

(** C7 as stated fails: content sniffing is not over jpeg, png, gif and webp
    alone.  The extended revision accepts [scan.webm], whose hint is none of
    the four, and sniffs its bytes; they are a BMP picture, which none of
    the four formats takes, and the program decodes it and writes its
    bundle. *)
Lemma webm_named_bmp_is_decoded :
  validateSelection Extended "scan.webm" = true /\
  specDecoder (ToLower (filepath.Ext "scan.webm")) = ImageDecode /\
  selectDecoder Extended (ToLower (filepath.Ext "scan.webm")) = ImageDecode /\
  image_Decode specFormats bmpBytes = Err ErrFormat /\
  option_map fname (sniff registeredFormats bmpBytes) = Some "bmp" /\
  snd (decodeStep Extended "scan.webm" scanWorld) = Ok bmpImage /\
  snd (processImage Extended (app "scan.webm") scanWorld) = Ok tt.
Proof. repeat split; vm_compute; reflexivity. Qed.

(** C8 as stated fails: two runs on different files, whose bundle
    directories and written paths differ, return the same value and leave
    the caller with the same report. *)
Lemma success_value_names_no_bundle :
  snd (processImage Extended (app "cat.png") catWorld) = Ok tt /\
  snd (processImage Extended (app "dog.png") catWorld) = Ok tt /\
  statusLabel (fst (convertAndSave Extended (app "cat.png") catWorld)) =
    statusLabel (fst (convertAndSave Extended (app "dog.png") catWorld)) /\
  dialogs (fst (convertAndSave Extended (app "cat.png") catWorld)) =
    dialogs (fst (convertAndSave Extended (app "dog.png") catWorld)) /\
  bundleDirOf "cat.png" = "cat_emote_bundle" /\
  bundleDirOf "dog.png" = "dog_emote_bundle" /\
  createdPaths (trace (fst (processImage Extended (app "cat.png") catWorld))) <>
    createdPaths (trace (fst (processImage Extended (app "dog.png") catWorld))).
Proof. repeat split; try (vm_compute; reflexivity). vm_compute. discriminate. Qed.

End Runs.

(** * The further properties on concrete runs *)

Section FurtherRuns.
Import Demo GoString filepath.

Lemma ghost_is_missing : os.Stat "ghost.png" catWorld = None.
Proof. vm_compute. reflexivity. Qed.

Lemma ghost_run :
  processImage Baseline (app "ghost.png") catWorld =
    (catWorld, Err (Wrapped "failed to open file: " (PathError "open" "ghost.png" ENOENT))).
Proof.
  unfold processImage, bind, orWrap, os.Open. simpl selectedFile.
  now rewrite ghost_is_missing.
Qed.

(** A run on a name at which there is no file fails at [os.Open]. *)
Lemma ghost_run_fails_at_open :
  processImage Baseline (app "ghost.png") catWorld =
    (catWorld, Err (Wrapped "failed to open file: " (PathError "open" "ghost.png" ENOENT))) /\
  os.Open "ghost.png" catWorld = (catWorld, Err (PathError "open" "ghost.png" ENOENT)).
Proof.
  pose proof ghost_run as Hrun. split; [exact Hrun|].
  destruct (failure_names_its_stage _ _ _ _ _ Hrun)
    as [(e & He & Ho & _) | [(e & f & He & _) | [(e & img & He & _) | (e & s & img & _ & He & _)]]].
  - injection He as <-. exact Ho.
  - discriminate He.
  - discriminate He.
  - simpl in He. discriminate He.
Defined.

(** [cat.png] beside a file called [cat_emote_bundle]. *)
Lemma taken_bundle_run :
  decodeStep Baseline "cat.png" takenWorld = (takenWorld, Ok catImage) /\
  fs takenWorld !! bundleDirOf "cat.png" = Some (RegularFile garbage) /\
  processImage Baseline (app "cat.png") takenWorld =
    (takenWorld,
     Err (Wrapped "failed to create output directory: "
            (PathError "mkdir" "cat_emote_bundle" ENOTDIR))).
Proof.
  assert (Hdec : decodeStep Baseline "cat.png" takenWorld = (takenWorld, Ok catImage))
    by (apply cat_decodes; vm_compute; reflexivity).
  assert (Hfile : fs takenWorld !! bundleDirOf "cat.png" = Some (RegularFile garbage))
    by (vm_compute; reflexivity).
  split; [exact Hdec|]. split; [exact Hfile|].
  exact (proj1 (bundle_name_taken_by_a_file Baseline (app "cat.png") takenWorld
                  catImage garbage Hdec Hfile)).
Defined.

Lemma cat_folder w : folderExists "cat.png" w.
Proof. left. reflexivity. Qed.

(** The run on [cat.png] makes the directory [cat_emote_bundle] and no other. *)
Lemma cat_run_makes_one_directory :
  folderExists "cat.png" catWorld /\
  forall k, fs (fst (processImage Baseline (app "cat.png") catWorld)) !! k = Some Directory ->
            fs catWorld !! k = Some Directory \/ k = "cat_emote_bundle".
Proof.
  pose proof (cat_folder catWorld) as Hf. split; [exact Hf|].
  exact (proj2 (run_makes_at_most_the_bundle_directory Baseline (app "cat.png") catWorld Hf)).
Defined.

(** The conditions of success hold of [cat.png]. *)
Lemma cat_run_meets_the_conditions :
  folderExists "cat.png" catWorld /\
  os.Stat "cat.png" catWorld = Some (RegularFile catBytes) /\
  exists w', processImage Baseline (app "cat.png") catWorld = (w', Ok tt).
Proof.
  pose proof (cat_folder catWorld) as Hf.
  assert (Hst : os.Stat "cat.png" catWorld = Some (RegularFile catBytes))
    by (vm_compute; reflexivity).
  split; [exact Hf|]. split; [exact Hst|].
  apply (proj2 (run_succeeds_exactly_when Baseline (app "cat.png") catWorld Hf)).
  exists catBytes, catImage. split; [exact Hst|]. split; [reflexivity|].
  split; [reflexivity|]. split.
  - right. split; [vm_compute; reflexivity|]. apply not_elem_of_empty.
  - apply (bool_decide_unpack _). vm_compute. exact I.
Defined.

Lemma free_of_slash (s : string) :
  bool_decide (slashFree (chars s)) = true -> slashFree (chars s).
Proof. apply bool_decide_eq_true. Qed.

Lemma free_of_dot (s : string) :
  bool_decide (dotFree (chars s)) = true -> dotFree (chars s).
Proof. apply bool_decide_eq_true. Qed.

(** [/home/u/a.tar.gz]: the stem keeps its dot. *)
Lemma tarball_name_splits :
  dirPart "/home/u/" /\
  Ext "/home/u/a.tar.gz" = ".gz" /\
  baseFilenameOf "/home/u/a.tar.gz" = "a.tar" /\
  bundleDirOf "/home/u/a.tar.gz" = "/home/u/a.tar_emote_bundle".
Proof.
  assert (Hp : dirPart "/home/u/") by (right; now exists "/home/u").
  split; [exact Hp|].
  destruct (name_splits_into_stem_and_extension "/home/u/" "a.tar" "gz" Hp
              (free_of_slash "a.tar" eq_refl) (free_of_slash "gz" eq_refl)
              (free_of_dot "gz" eq_refl))
    as (HE & _ & Hb & _ & _ & Hd & _).
  split; [exact HE|]. split; [exact Hb|]. exact (eq_trans Hd eq_refl).
Defined.

(** [cat.png] and [cat.gif] write to the same bundle. *)
Lemma cat_png_and_cat_gif_collide :
  dirPart "" /\
  bundleDirOf "cat.png" = bundleDirOf "cat.gif" /\
  outputPath "cat.png" (mkEmoteSize "Twitch" "1.0" 28 28) =
    outputPath "cat.gif" (mkEmoteSize "Twitch" "1.0" 28 28).
Proof.
  assert (Hp : dirPart "") by now left.
  split; [exact Hp|].
  destruct (same_stem_shares_the_bundle "" "cat" "png" "gif" Hp
              (free_of_slash "cat" eq_refl) (free_of_slash "png" eq_refl)
              (free_of_dot "png" eq_refl)
              (free_of_slash "gif" eq_refl) (free_of_dot "gif" eq_refl))
    as (Hb & Ho & _).
  split; [exact Hb | apply Ho].
Defined.

(** [cat.png] and [dog.png] do not. *)
Lemma cat_and_dog_are_apart :
  dirPart "" /\ "cat" <> "dog" /\
  bundleDirOf "cat.png" <> bundleDirOf "dog.png".
Proof.
  assert (Hp : dirPart "") by now left.
  assert (Hne : "cat" <> "dog") by discriminate.
  split; [exact Hp|]. split; [exact Hne|].
  assert (Hpng : "png" <> "") by discriminate.
  exact (proj1 (different_stems_never_share_a_file "" "cat" "png" "dog" "png" Hp
                  (free_of_slash "cat" eq_refl) (free_of_slash "png" eq_refl)
                  (free_of_dot "png" eq_refl) Hpng
                  (free_of_slash "dog" eq_refl) (free_of_slash "png" eq_refl)
                  (free_of_dot "png" eq_refl) Hpng
                  Hne)).
Defined.

(** A dot in the name of the folder is no extension. *)
Lemma dotted_folder_is_no_extension :
  dirPart "v1.gif/" /\
  validateSelection Extended "v1.gif/notes" = false /\
  validateSelection Extended "v1.gif/Clip.WebM" = true.
Proof.
  assert (Hp : dirPart "v1.gif/") by (right; now exists "v1.gif").
  split; [exact Hp|].
  destruct (selection_goes_by_the_last_dot Extended "v1.gif/" Hp) as (Hno & Hyes & _).
  split.
  - exact (Hno "notes" (free_of_slash "notes" eq_refl) (free_of_dot "notes" eq_refl)).
  - apply (Hyes "Clip" "WebM" (free_of_slash "WebM" eq_refl) (free_of_dot "WebM" eq_refl)).
    vm_compute. reflexivity.
Defined.

(** Selecting [ghost.png], which does not exist, and converting it. *)
Lemma ghost_is_selected_then_reported :
  validateSelection Baseline "ghost.png" = true /\
  os.Stat "ghost.png" catWorld = None /\
  setupUI Baseline (setupUI Baseline (converter, catWorld) (SelectTapped (DialogFile "ghost.png")))
          ConvertTapped =
    (mkApp "ghost.png"
       "Error: failed to open file: open ghost.png: no such file or directory" true
       [ErrorDialog (Wrapped "failed to open file: " (PathError "open" "ghost.png" ENOENT))],
     catWorld).
Proof.
  assert (Hv : validateSelection Baseline "ghost.png" = true) by reflexivity.
  pose proof ghost_is_missing as Hst.
  split; [exact Hv|]. split; [exact Hst|].
  destruct (selecting_a_missing_file_then_converting Baseline "ghost.png" converter catWorld
              Hv Hst) as (_ & _ & Hui).
  exact Hui.
Defined.

(** The registry in another order of registration. *)
Lemma listed_order_sniffs_the_same :
  Permutation listedFormats registeredFormats /\
  image_Decode listedFormats catBytes = image_Decode registeredFormats catBytes.
Proof.
  assert (Hperm : Permutation listedFormats registeredFormats).
  { unfold listedFormats, registeredFormats.
    transitivity ([ mkFormat "gif" gifMagic gif_Decode; mkFormat "png" pngMagic png_Decode;
                    mkFormat "jpeg" jpegMagic jpeg_Decode;
                    mkFormat "webp" webpMagic webp_Decode ] ++
                  [ mkFormat "bmp" bmpMagic bmp_Decode;
                    mkFormat "tiff" tiffLeHeader tiff_Decode;
                    mkFormat "tiff" tiffBeHeader tiff_Decode ]).
    - apply (Permutation_app_comm
               [ mkFormat "bmp" bmpMagic bmp_Decode;
                 mkFormat "tiff" tiffLeHeader tiff_Decode;
                 mkFormat "tiff" tiffBeHeader tiff_Decode ]).
    - simpl. apply perm_skip. apply perm_swap. }
  split; [exact Hperm|].
  exact (proj1 (proj2 (sniffing_ignores_registration_order listedFormats catBytes Hperm))).
Defined.

(** The report of a conversion of [ghost.png]. *)
Lemma ghost_conversion_reports_back :
  selectedFile (app "ghost.png") <> "" /\
  snd (convertAndSave Baseline (app "ghost.png") catWorld) =
    fst (processImage Baseline (app "ghost.png") catWorld) /\
  convertBtn (fst (convertAndSave Baseline (app "ghost.png") catWorld)) = true.
Proof.
  assert (Hne : selectedFile (app "ghost.png") <> "") by discriminate.
  split; [exact Hne|].
  destruct (conversion_always_reports_back Baseline (app "ghost.png") catWorld Hne)
    as (Hw & _ & Hb & _).
  split; [exact Hw | exact Hb].
Defined.

(** Converting [dog.png] after [cat.png] leaves the bundle of [cat.png]. *)
Lemma dog_run_leaves_cat_bundle :
  let w := fst (processImage Baseline (app "cat.png") catWorld) in
  folderExists "dog.png" w /\
  fs (fst (processImage Baseline (app "dog.png") w)) !! bundleDirOf "cat.png" =
    fs w !! bundleDirOf "cat.png".
Proof.
  intros w.
  assert (Hf : folderExists "dog.png" w) by (left; reflexivity).
  split; [exact Hf|].
  assert (Hp : dirPart "") by now left.
  assert (Hne : "cat" <> "dog") by discriminate.
  assert (Hpng : "png" <> "") by discriminate.
  exact (proj1 (other_bundles_are_left_alone Baseline "" "cat" "png" "dog" "png"
                  (app "dog.png") w Hp
                  (free_of_slash "cat" eq_refl) (free_of_slash "png" eq_refl)
                  (free_of_dot "png" eq_refl) Hpng
                  (free_of_slash "dog" eq_refl) (free_of_slash "png" eq_refl)
                  (free_of_dot "png" eq_refl) Hpng
                  Hne eq_refl Hf)).
Defined.

(** The run on the full disk, started again. *)
Lemma full_disk_run_again :
  folderExists "cat.png" fullDisk /\
  exists w2,
    processImage Baseline (app "cat.png") (fst (processImage Baseline (app "cat.png") fullDisk)) =
      (w2, Err (Wrapped "failed to save cat-Discord-Large-48x48.png: "
                  (PathError "open" "cat_emote_bundle/cat-Discord-Large-48x48.png" EACCES))) /\
    fs w2 = fs (fst (processImage Baseline (app "cat.png") fullDisk)).
Proof.
  pose proof (cat_folder fullDisk) as Hf. split; [exact Hf|].
  assert (Hrun : processImage Baseline (app "cat.png") fullDisk =
    (fst (processImage Baseline (app "cat.png") fullDisk),
     Err (Wrapped "failed to save cat-Discord-Large-48x48.png: "
            (PathError "open" "cat_emote_bundle/cat-Discord-Large-48x48.png" EACCES))))
    by (apply run_result; vm_compute; reflexivity).
  destruct (failed_run_fails_again_the_same Baseline (app "cat.png") fullDisk _ _ Hf Hrun)
    as (w2 & Hagain & Hfs & _).
  exists w2. split; [exact Hagain | exact Hfs].
Defined.

(** The label after selecting [ghost.png] in the baseline revision. *)
Lemma ghost_selection_is_shown :
  validateSelection Baseline "ghost.png" = true /\
  selectedFile (selectFile Baseline (DialogFile "ghost.png") catWorld converter) = "ghost.png" /\
  statusLabel (selectFile Baseline (DialogFile "ghost.png") catWorld converter) =
    "Selected file (preview failed): ghost.png".
Proof.
  assert (Hv : validateSelection Baseline "ghost.png" = true) by reflexivity.
  split; [exact Hv|].
  destruct (accepted_selection_is_shown Baseline "ghost.png" catWorld converter Hv)
    as (Hs & _ & _ & _ & Hfail).
  split; [exact Hs|].
  apply Hfail; [reflexivity|]. intros data. rewrite ghost_is_missing. discriminate.
Defined.

End FurtherRuns.
